(** * Process supervision of the WazapSuite desktop launcher

    A shallow embedding of [src/main/server-manager.ts] (class
    [ServerManager]), [src/main/tunnel-manager.ts] (class [TunnelManager])
    and of the parts of [config-store.ts] they read and write, then of
    what uses them: the IPC handlers ([src/main/ipc/index.ts]) with the
    bridge of the preload script, the quit sequence of
    [src/main/index.ts], the license manager
    ([src/main/license-manager.ts]) and the status display of the
    renderer; followed by the properties of all these.

    JavaScript strings are sequences of UTF-16 code units; they are
    modelled as [list N].  The event emitters, the file system, the
    configuration store, the child processes and the timers are explicit
    components of a [World] that is threaded through a state-and-exception
    monad. *)

From stdpp Require Import gmap strings list fin_maps.
From Stdlib Require Import NArith Ascii String DecimalString.

Set Default Proof Using "Type".
Local Open Scope N_scope.

(** ** JavaScript strings *)

Abbreviation jsstring := (list N).

(** A string literal of the source, as code units. *)
Definition str (s : string) : jsstring :=
  map N_of_ascii (list_ascii_of_string s).

(** [String.prototype.startsWith], on the list of code units. *)
Fixpoint startsWith (needle s : jsstring) : bool :=
  match needle, s with
  | [], _ => true
  | _ :: _, [] => false
  | a :: needle', b :: s' => (a =? b) && startsWith needle' s'
  end.

(** [String.prototype.includes]: the needle occurs at some position. *)
Fixpoint includes (needle s : jsstring) : bool :=
  startsWith needle s ||
  match s with
  | [] => false
  | _ :: s' => includes needle s'
  end.

(** The code units [String.prototype.trim] strips: WhiteSpace and
    LineTerminator of ECMAScript. *)
Definition isWhiteSpace (c : N) : bool :=
  (9 <=? c) && (c <=? 13) || (c =? 32) || (c =? 160) || (c =? 5760)
  || (8192 <=? c) && (c <=? 8202) || (c =? 8232) || (c =? 8233)
  || (c =? 8239) || (c =? 8287) || (c =? 12288) || (c =? 65279).

Fixpoint trimStart (s : jsstring) : jsstring :=
  match s with
  | c :: s' => if isWhiteSpace c then trimStart s' else s
  | [] => []
  end.

Definition trimEnd (s : jsstring) : jsstring := rev (trimStart (rev s)).

Definition trim (s : jsstring) : jsstring := trimEnd (trimStart s).

(** [toUpperCase] on the ASCII letters, which is all the source applies
    it to (the status names). *)
Definition upperUnit (c : N) : N :=
  if (97 <=? c) && (c <=? 122) then c - 32 else c.

Definition toUpperCase (s : jsstring) : jsstring := map upperUnit s.

(** Decimal rendering of a non-negative integer, as in a template
    literal. *)
Definition numToString (n : N) : jsstring :=
  str (NilZero.string_of_uint (N.to_uint n)).

(** JavaScript truthiness of a string and of an optional string. *)
Definition truthy (s : jsstring) : bool :=
  match s with [] => false | _ => true end.

Definition truthyOpt (s : option jsstring) : bool :=
  match s with Some s => truthy s | None => false end.

(** ** The quick-tunnel pattern
    [/https:\/\/[a-z0-9-]+\.trycloudflare\.com/i] *)

(** Canonicalisation of the [i] flag without the [u] flag: a code unit is
    compared through its upper-case form, and a non-ASCII code unit never
    folds onto an ASCII one, so only the ASCII letters are affected. *)
Definition eqUnitCI (a b : N) : bool := upperUnit a =? upperUnit b.

(** A literal of the pattern matched case-insensitively at the head of
    the input; returns the matched text and the rest. *)
Fixpoint matchLiteralCI (lit s : jsstring) : option (jsstring * jsstring) :=
  match lit, s with
  | [], _ => Some ([], s)
  | _ :: _, [] => None
  | a :: lit', b :: s' =>
      if eqUnitCI a b then
        match matchLiteralCI lit' s' with
        | Some (m, r) => Some (b :: m, r)
        | None => None
        end
      else None
  end.

(** The class [[a-z0-9-]] under the [i] flag. *)
Definition isLabelUnit (c : N) : bool :=
  (97 <=? c) && (c <=? 122) || (65 <=? c) && (c <=? 90)
  || (48 <=? c) && (c <=? 57) || (c =? 45).

(** The greedy run of the class.  The unit that follows the class in the
    pattern is a dot, which is not in the class, so backtracking into a
    shorter run can never succeed and the longest run decides. *)
Fixpoint spanLabel (s : jsstring) : jsstring * jsstring :=
  match s with
  | c :: s' =>
      if isLabelUnit c then
        let '(l, r) := spanLabel s' in (c :: l, r)
      else ([], s)
  | [] => ([], [])
  end.

(** The pattern anchored at the head of the input. *)
Definition matchQuickAt (s : jsstring) : option jsstring :=
  match matchLiteralCI (str "https://") s with
  | Some (scheme, r1) =>
      match spanLabel r1 with
      | ([], _) => None
      | (label, r2) =>
          match matchLiteralCI (str ".trycloudflare.com") r2 with
          | Some (domain, _) => Some (scheme ++ label ++ domain)
          | None => None
          end
      end
  | None => None
  end.

(** [msg.match(re)] for the non-global pattern: the leftmost position at
    which the pattern matches; the result is [match[0]]. *)
Fixpoint quickTunnelMatch (s : jsstring) : option jsstring :=
  match matchQuickAt s with
  | Some u => Some u
  | None =>
      match s with
      | [] => None
      | _ :: s' => quickTunnelMatch s'
      end
  end.

(** ** Errors, events and the application log *)

Record Err := mkErr { err_name : jsstring; err_message : jsstring }.

(** [new Error(msg)] *)
Definition newError (msg : jsstring) : Err := mkErr (str "Error") msg.

(** [String(e)] and [`${e}`]: [Error.prototype.toString]. *)
Definition errToString (e : Err) : jsstring :=
  match err_name e, err_message e with
  | [], m => m
  | n, [] => n
  | n, m => n ++ str ": " ++ m
  end.

(** What an [EventEmitter] hands to its listeners; [S] is the status
    type of the emitting manager. *)
Inductive Event (S : Type) :=
| Log (msg : jsstring)
| StatusChange (s : S)
| UrlChange (url : option jsstring)
| ErrorEvent (e : Err).
Arguments Log {S} msg.
Arguments StatusChange {S} s.
Arguments UrlChange {S} url.
Arguments ErrorEvent {S} e.

Inductive Level := LDebug | LInfo | LWarn | LError.

(** One call of [logger.debug/info/warn/error]: the level, the text and
    the error object passed along, if any. *)
Definition LogEntry : Type := Level * jsstring * option Err.

(** ** The file system *)

Abbreviation Path := (list string).

Inductive Node :=
| Dir
| File (content : N)
| Zip (entries : list (Path * N)).

Definition renderPath (p : Path) : jsstring := str (String.concat "/" p).

(** ** The configuration store ([config-store.ts]) *)

Record Tunneling := mkTunneling {
  enabled : bool;
  provider : jsstring;
  tunnelToken : option jsstring;
  cfgTunnelUrl : option jsstring
}.

(** The stored values; a key that was never set is [None] and [get]
    answers with the default of the schema. *)
Record Config := mkConfig {
  chromePath : option jsstring;
  serverPort : option N;
  serverVersion : option jsstring;
  tunneling : option Tunneling
}.

Definition defaultTunneling : Tunneling :=
  mkTunneling false (str "cloudflare") None None.

Definition get_chromePath (c : Config) : jsstring := default [] (chromePath c).
Definition get_serverPort (c : Config) : N := default 4000 (serverPort c).
Definition get_serverVersion (c : Config) : jsstring :=
  default (str "0.0.0") (serverVersion c).
Definition get_tunneling (c : Config) : option Tunneling :=
  Some (default defaultTunneling (tunneling c)).

Definition set_serverVersion (v : jsstring) (c : Config) : Config :=
  mkConfig (chromePath c) (serverPort c) (Some v) (tunneling c).
Definition set_tunneling (t : Tunneling) (c : Config) : Config :=
  mkConfig (chromePath c) (serverPort c) (serverVersion c) (Some t).

(** [a || b] on numbers: zero is falsy. *)
Definition orNum (a b : N) : N := if a =? 0 then b else a.

(** ** Child processes, timers and promises *)

Inductive Signal := SIGTERM | SIGKILL.
Inductive Owner := OwnServer | OwnTunnel.

(** A child is [Alive] until its ['exit'] event, [Exited] until its
    ['close'] event (the output streams may still deliver data), then
    [Closed]. *)
Inductive Phase := Alive | Exited | Closed.

Record Proc := mkProc {
  owner : Owner;
  command : Path;
  args : list jsstring;
  env : list (string * jsstring);
  phase : Phase;
  signals : list Signal;
  exitListeners : list nat
}.

Inductive Timer := Pending | Cleared | Fired.

(** One [new Promise] of a [stop()] call with the timer it arms:
    [resolved] counts the calls of [resolve]. *)
Record StopCall := mkStopCall {
  stop_owner : Owner;
  timer : Timer;
  delay : N;
  resolved : nat
}.

(** What [stop()] hands back: a promise already settled, or the promise
    of the numbered [StopCall]. *)
Inductive StopTicket := Immediately | Awaiting (k : nat).

(** ** The managers' fields and the world *)

Module ServerStatus.
Inductive t := idle | extracting | migrating | starting | running
             | stopping | error.
Definition name (s : t) : jsstring :=
  match s with
  | idle => str "idle" | extracting => str "extracting"
  | migrating => str "migrating" | starting => str "starting"
  | running => str "running" | stopping => str "stopping"
  | error => str "error"
  end.
#[global] Instance eq_dec : EqDecision t.
Proof. solve_decision. Defined.
End ServerStatus.

Module TunnelStatus.
Inductive t := idle | starting | running | stopping | error.
Definition name (s : t) : jsstring :=
  match s with
  | idle => str "idle" | starting => str "starting"
  | running => str "running" | stopping => str "stopping"
  | error => str "error"
  end.
#[global] Instance eq_dec : EqDecision t.
Proof. solve_decision. Defined.
End TunnelStatus.

(** The fields of [ServerManager]; [s_emitted] is everything handed to
    listeners so far, oldest first, and [s_errorListeners] the number of
    listeners registered for ['error']. *)
Record ServerFields := mkServerFields {
  s_status : ServerStatus.t;
  serverProcess : option nat;
  port : N;
  s_emitted : list (Event ServerStatus.t);
  s_errorListeners : nat
}.

Record TunnelFields := mkTunnelFields {
  t_status : TunnelStatus.t;
  tunnelProcess : option nat;
  tunnelUrl : option jsstring;
  t_emitted : list (Event TunnelStatus.t);
  t_errorListeners : nat
}.

(** The machine and the installation: the platform, the version of the
    application, and what the bundled SQLite library leaves in a database
    file that held [c] once it has opened it, switched it to WAL mode and
    closed it ([sqliteWal c]; a file that is in WAL mode already is left
    as it is). *)
Record Host := mkHost {
  win32 : bool;
  appVersion : jsstring;
  sqliteWal : N → N
}.

Record World := mkWorld {
  host : Host;
  fs : gmap Path Node;
  config : Config;
  logfile : list LogEntry;
  procs : list Proc;
  stops : list StopCall;
  uncaught : list Err;
  server : ServerFields;
  tunnel : TunnelFields
}.

Definition withFs (f : gmap Path Node → gmap Path Node) (w : World) : World :=
  mkWorld (host w) (f (fs w)) (config w) (logfile w) (procs w) (stops w)
          (uncaught w) (server w) (tunnel w).
Definition withConfig (f : Config → Config) (w : World) : World :=
  mkWorld (host w) (fs w) (f (config w)) (logfile w) (procs w) (stops w)
          (uncaught w) (server w) (tunnel w).
Definition withLogfile (f : list LogEntry → list LogEntry) (w : World) : World :=
  mkWorld (host w) (fs w) (config w) (f (logfile w)) (procs w) (stops w)
          (uncaught w) (server w) (tunnel w).
Definition withProcs (f : list Proc → list Proc) (w : World) : World :=
  mkWorld (host w) (fs w) (config w) (logfile w) (f (procs w)) (stops w)
          (uncaught w) (server w) (tunnel w).
Definition withStops (f : list StopCall → list StopCall) (w : World) : World :=
  mkWorld (host w) (fs w) (config w) (logfile w) (procs w) (f (stops w))
          (uncaught w) (server w) (tunnel w).
Definition withUncaught (f : list Err → list Err) (w : World) : World :=
  mkWorld (host w) (fs w) (config w) (logfile w) (procs w) (stops w)
          (f (uncaught w)) (server w) (tunnel w).
Definition withServer (f : ServerFields → ServerFields) (w : World) : World :=
  mkWorld (host w) (fs w) (config w) (logfile w) (procs w) (stops w)
          (uncaught w) (f (server w)) (tunnel w).
Definition withTunnel (f : TunnelFields → TunnelFields) (w : World) : World :=
  mkWorld (host w) (fs w) (config w) (logfile w) (procs w) (stops w)
          (uncaught w) (server w) (f (tunnel w)).

(** ** The monad: state and exceptions

    A thrown exception keeps the state changes made before it. *)

Inductive Res (A : Type) := Ok (a : A) | Throw (e : Err).
Arguments Ok {A} a.
Arguments Throw {A} e.

Definition M (A : Type) : Type := World → Res A * World.

Definition ret {A} (a : A) : M A := λ w, (Ok a, w).
Definition bind {A B} (c : M A) (k : A → M B) : M B :=
  λ w, match c w with
       | (Ok a, w') => k a w'
       | (Throw e, w') => (Throw e, w')
       end.
Definition throw {A} (e : Err) : M A := λ w, (Throw e, w).
Definition tryCatch {A} (body : M A) (handler : Err → M A) : M A :=
  λ w, match body w with
       | (Ok a, w') => (Ok a, w')
       | (Throw e, w') => handler e w'
       end.
Definition gets {A} (f : World → A) : M A := λ w, (Ok (f w), w).
Definition modify (f : World → World) : M unit := λ w, (Ok tt, f w).
Definition when (b : bool) (c : M unit) : M unit := if b then c else ret tt.

Declare Scope js_scope.
Delimit Scope js_scope with js.
Notation "x <- c ;; k" := (bind c (λ x, k))
  (at level 100, c at next level, right associativity) : js_scope.
Notation "c ;; k" := (bind c (λ _, k))
  (at level 100, right associativity) : js_scope.
Local Open Scope js_scope.

(** ** Primitives of the runtime *)

Definition logger (l : Level) (msg : jsstring) (e : option Err) : M unit :=
  modify (withLogfile (λ lf, lf ++ [(l, msg, e)])).

(** [fs.existsSync] *)
Definition existsSync (p : Path) : M bool :=
  gets (λ w, bool_decide (is_Some (fs w !! p))).

(** What the environment makes of the fallible calls of one [start()]:
    [Some e] lets the call throw [e].  A call that throws is modelled as
    having had no effect. *)
Record Faults := mkFaults {
  rmFault : option Err;
  mkdirFault : option Err;
  unzipFault : option Err;
  copyFault : option Err;
  dbFault : option Err;
  spawnFault : option Err
}.

Definition noFaults : Faults := mkFaults None None None None None None.

Definition failing (o : option Err) : M unit :=
  match o with Some e => throw e | None => ret tt end.

(** [fs.rmSync(p, { recursive: true, force: true })]: [p] and all below. *)
Definition rmTree (p : Path) (m : gmap Path Node) : gmap Path Node :=
  filter (λ kv, ¬ p `prefix_of` kv.1) m.

Definition rmSync (f : Faults) (p : Path) : M unit :=
  failing (rmFault f);; modify (withFs (rmTree p)).

(** [fs.mkdirSync(p, { recursive: true })] *)
Definition mkdirSync (f : Faults) (p : Path) : M unit :=
  failing (mkdirFault f);;
  m <- gets fs;;
  match m !! p with
  | None => modify (withFs (insert p Dir))
  | Some Dir => ret tt
  | Some _ => throw (newError (str "EEXIST: file already exists, mkdir"))
  end.

(** The files an archive unpacks to under [target], overwriting. *)
Definition unpack (target : Path) (entries : list (Path * N))
    (m : gmap Path Node) : gmap Path Node :=
  foldl (λ acc e, <[target ++ e.1 := File e.2]> acc) m entries.

(** [new AdmZip(zip).extractAllTo(target, true)] *)
Definition extractAllTo (f : Faults) (zip target : Path) : M unit :=
  failing (unzipFault f);;
  m <- gets fs;;
  match m !! zip with
  | Some (Zip entries) => modify (withFs (unpack target entries))
  | _ => throw (newError (str "Invalid or unsupported zip format"))
  end.

(** [fs.copyFileSync(src, dst)] *)
Definition copyFileSync (f : Faults) (src dst : Path) : M unit :=
  failing (copyFault f);;
  m <- gets fs;;
  match m !! src with
  | Some n => modify (withFs (insert dst n))
  | None => throw (newError (str "ENOENT: no such file or directory, copyfile"))
  end.

(** [new Database(p)], [db.pragma('journal_mode = WAL')], [db.close()]:
    opening creates the file, empty (content [0]), when it is absent; the
    pragma rewrites the header of a database that is not in WAL mode, so
    that the file holds [sqliteWal c] where it held [c]; a directory
    cannot be opened and an archive is not a database. *)
Definition checkDatabase (f : Faults) (p : Path) : M unit :=
  failing (dbFault f);;
  h <- gets host;;
  m <- gets fs;;
  match m !! p with
  | None => modify (withFs (insert p (File (sqliteWal h 0))))
  | Some (File c) => modify (withFs (insert p (File (sqliteWal h c))))
  | Some Dir =>
      throw (mkErr (str "SqliteError") (str "unable to open database file"))
  | Some (Zip _) =>
      throw (mkErr (str "SqliteError") (str "file is not a database"))
  end.

(** [child_process.spawn]: the new child is the next entry of [procs]. *)
Definition spawn (f : Faults) (o : Owner) (cmd : Path) (a : list jsstring)
    (e : list (string * jsstring)) : M nat :=
  failing (spawnFault f);;
  n <- gets (λ w, List.length (procs w));;
  modify (withProcs (λ ps, ps ++ [mkProc o cmd a e Alive [] []]));;
  ret n.

Definition updProc (p : nat) (g : Proc → Proc) : M unit :=
  modify (withProcs (alter g p)).

(** [child.kill(sig)] *)
Definition kill (p : nat) (sig : Signal) : M unit :=
  updProc p (λ c, mkProc (owner c) (command c) (args c) (env c) (phase c)
                         (signals c ++ [sig]) (exitListeners c)).

(** [child.on('exit', listener)], the listener being the one of the
    [StopCall] numbered [k]. *)
Definition onExit (p k : nat) : M unit :=
  updProc p (λ c, mkProc (owner c) (command c) (args c) (env c) (phase c)
                         (signals c) (exitListeners c ++ [k])).

Definition setPhase (ph : Phase) (p : nat) : M unit :=
  updProc p (λ c, mkProc (owner c) (command c) (args c) (env c) ph
                         (signals c) (exitListeners c)).

(** [new Promise] together with [setTimeout(cb, ms)] of its executor. *)
Definition newStopCall (o : Owner) (ms : N) : M nat :=
  k <- gets (λ w, List.length (stops w));;
  modify (withStops (λ ss, ss ++ [mkStopCall o Pending ms 0]));;
  ret k.

(** [clearTimeout]: a timer that has not fired never will. *)
Definition clearTimeout (k : nat) : M unit :=
  modify (withStops (alter (λ s,
    mkStopCall (stop_owner s)
               (match timer s with Pending => Cleared | t => t end)
               (delay s) (resolved s)) k)).

(** [resolve()] of the promise numbered [k]. *)
Definition resolve (k : nat) : M unit :=
  modify (withStops (alter (λ s,
    mkStopCall (stop_owner s) (timer s) (delay s) (S (resolved s))) k)).

(** ** Paths of the installation

    [app.getPath('userData')] and the directory of the bundled resources
    ([process.resourcesPath] when packaged, [<app>/resources] otherwise)
    are two roots. *)

Definition userDataPath : Path := ["userData"]%string.
Definition serverZipPath : Path := ["resources"; "server.zip"]%string.
Definition serverExtractPath : Path := userDataPath ++ ["server"]%string.
Definition dbPath : Path := userDataPath ++ ["data.db"]%string.
Definition initialDbPath : Path := userDataPath ++ ["server"; "initial.db"]%string.

Definition exeName (h : Host) : string :=
  if win32 h then "main.exe"%string else "main"%string.
Definition cloudflaredName (h : Host) : string :=
  if win32 h then "cloudflared.exe"%string else "cloudflared"%string.

Definition exePath (h : Host) : Path := serverExtractPath ++ [exeName h].
Definition cloudflaredPath (h : Host) : Path :=
  serverExtractPath ++ ["cloudflared"%string; cloudflaredName h].

(** [code] of a ['close'] event inside a template literal. *)
Definition codeToString (code : option N) : jsstring :=
  match code with Some n => numToString n | None => str "null" end.

(** ** [class ServerManager] *)

Module ServerManager.
Import ServerStatus.

Definition status (w : World) : ServerStatus.t := s_status (server w).
Definition handle (w : World) : option nat := serverProcess (server w).
Definition emitted (w : World) : list (Event ServerStatus.t) :=
  s_emitted (server w).

Definition assignStatus (s : ServerStatus.t) : M unit :=
  modify (withServer (λ m, mkServerFields s (serverProcess m) (port m)
                              (s_emitted m) (s_errorListeners m))).
Definition assignProcess (p : option nat) : M unit :=
  modify (withServer (λ m, mkServerFields (s_status m) p (port m)
                              (s_emitted m) (s_errorListeners m))).
Definition assignPort (n : N) : M unit :=
  modify (withServer (λ m, mkServerFields (s_status m) (serverProcess m) n
                              (s_emitted m) (s_errorListeners m))).

(** [this.emit(name, arg)] for ['log'] and ['status-change']. *)
Definition emit (e : Event ServerStatus.t) : M unit :=
  modify (withServer (λ m, mkServerFields (s_status m) (serverProcess m)
                              (port m) (s_emitted m ++ [e])
                              (s_errorListeners m))).

(** [this.emit('error', err)]: an [EventEmitter] with no listener for
    ['error'] throws the error it is asked to emit. *)
Definition emitError (e : Err) : M unit :=
  n <- gets (λ w, s_errorListeners (server w));;
  match n with
  | O => throw e
  | S _ => emit (ErrorEvent e)
  end.

Definition setStatus (s : ServerStatus.t) : M unit :=
  assignStatus s;;
  emit (StatusChange s);;
  emit (Log (str "Status changed to: " ++ toUpperCase (name s)));;
  logger LInfo (str "Server status changed to: " ++ name s) None.

Definition extractServerIfNeeded (f : Faults) : M unit :=
  h <- gets host;;
  let currentAppVersion := appVersion h in
  lastExtractedVersion <- gets (λ w, get_serverVersion (config w));;
  emit (Log (str "Checking server resources (App Ver: " ++ currentAppVersion
             ++ str ", Extracted: " ++ lastExtractedVersion ++ str ")..."));;
  haveExe <- existsSync (exePath h);;
  haveCloudflared <- existsSync (cloudflaredPath h);;
  let needsExtraction :=
    negb haveExe || negb haveCloudflared
    || negb (bool_decide (currentAppVersion = lastExtractedVersion)) in
  if needsExtraction then
    logger LInfo (str "Extracting server from " ++ renderPath serverZipPath
                  ++ str " to " ++ renderPath serverExtractPath ++ str "...")
           None;;
    emit (Log (str "Extracting server resources... This may take a moment."));;
    setStatus extracting;;
    haveZip <- existsSync serverZipPath;;
    when (negb haveZip)
      (throw (newError (str "Server zip not found at: "
                        ++ renderPath serverZipPath)));;
    haveDir <- existsSync serverExtractPath;;
    when haveDir
      (emit (Log (str "Cleaning up old server files..."));;
       tryCatch (rmSync f serverExtractPath)
         (λ e, emit (Log (str "Warning: Failed to clean old files: "
                          ++ errToString e))));;
    mkdirSync f serverExtractPath;;
    emit (Log (str "Unzipping archive..."));;
    extractAllTo f serverZipPath serverExtractPath;;
    modify (withConfig (set_serverVersion currentAppVersion));;
    logger LInfo (str "Server extraction complete.") None;;
    emit (Log (str "Extraction complete."))
  else
    logger LInfo (str "Server already extracted and up to date.") None;;
    emit (Log (str "Server resources are up to date.")).

Definition ensureDatabase (f : Faults) : M unit :=
  setStatus migrating;;
  emit (Log (str "Checking database integrity..."));;
  haveDb <- existsSync dbPath;;
  when (negb haveDb)
    (haveTemplate <- existsSync initialDbPath;;
     if haveTemplate then
       logger LInfo (str "Initializing new database from template...") None;;
       emit (Log (str "Creating new database from template..."));;
       copyFileSync f initialDbPath dbPath
     else
       logger LWarn (str "initial.db not found, skipping database initialization. Server might create it.") None;;
       emit (Log (str "Warning: Initial database template not found.")));;
  tryCatch
    (emit (Log (str "Verifying database connection..."));;
     checkDatabase f dbPath;;
     logger LInfo (str "Database check complete.") None;;
     emit (Log (str "Database check passed.")))
    (λ err,
       logger LError (str "Database migration failed:") (Some err);;
       throw err).

Definition spawnServer (f : Faults) : M unit :=
  setStatus starting;;
  h <- gets host;;
  let executablePath := exePath h in
  haveExe <- existsSync executablePath;;
  when (negb haveExe)
    (throw (newError (str "Server executable not found at: "
                      ++ renderPath executablePath)));;
  p <- gets (λ w, port (server w));;
  chrome <- gets (λ w, get_chromePath (config w));;
  let env :=
    [("PORT"%string, numToString p);
     ("DATABASE_URL"%string, str "file:" ++ renderPath dbPath);
     ("CHROME_PATH"%string, chrome);
     ("NODE_ENV"%string, str "production");
     ("PUPPETEER_SKIP_DOWNLOAD"%string, str "true")] in
  logger LInfo (str "Spawning server: " ++ renderPath executablePath) None;;
  child <- spawn f OwnServer executablePath [] env;;
  assignProcess (Some child).

(** The listener of [stdout 'data'] that [spawnServer] registers. *)
Definition onStdout (data : jsstring) : M unit :=
  let msg := trim data in
  logger LDebug (str "[SERVER] " ++ msg) None;;
  emit (Log msg);;
  p <- gets (λ w, port (server w));;
  when (includes (str "Nest application successfully started") msg
        || includes (str "listening on port " ++ numToString p) msg)
    (setStatus running).

(** The listener of [stderr 'data']. *)
Definition onStderr (data : jsstring) : M unit :=
  let msg := trim data in
  logger LError (str "[SERVER ERR] " ++ msg) None;;
  emit (Log (str "ERROR: " ++ msg)).

(** The listener of the child's ['error']. *)
Definition onError (err : Err) : M unit :=
  logger LError (str "Server process failed to spawn:") (Some err);;
  setStatus error;;
  emitError err.

(** The listener of the child's ['close']. *)
Definition onClose (code : option N) : M unit :=
  logger LInfo (str "Server process exited with code " ++ codeToString code)
         None;;
  st <- gets status;;
  when (negb (bool_decide (st = stopping))) (setStatus idle);;
  assignProcess None.

(** The [try] block of [start()]. *)
Definition start_try (f : Faults) : M unit :=
  emit (Log (str "Starting initialization sequence..."));;
  extractServerIfNeeded f;;
  ensureDatabase f;;
  spawnServer f.

(** The [catch] block of [start()]. *)
Definition start_catch (err : Err) : M unit :=
  let errorMsg :=
    if truthy (err_message err) then err_message err else errToString err in
  logger LError (str "Failed to start server:") (Some err);;
  emit (Log (str "CRITICAL ERROR: " ++ errorMsg));;
  setStatus error;;
  emitError err.

Definition start (f : Faults) : M unit :=
  st <- gets status;;
  if bool_decide (st = running) || bool_decide (st = starting) then
    emit (Log (str "Server start requested but already running/starting."))
  else
    cfgPort <- gets (λ w, get_serverPort (config w));;
    assignPort (orNum cfgPort 4000);;
    tryCatch (start_try f) start_catch.

(** The callback of the timer armed by [stop()], for the [StopCall]
    numbered [k]. *)
Definition stop_onTimeout (k : nat) : M unit :=
  h <- gets handle;;
  match h with
  | Some p =>
      logger LWarn (str "Server did not stop gracefully, force killing...")
             None;;
      emit (Log (str "Server unresponsive, force killing..."));;
      kill p SIGKILL;;
      assignProcess None;;
      setStatus idle;;
      resolve k
  | None => ret tt
  end.

(** The listener of the child's ['exit'] registered by [stop()]. *)
Definition stop_onExit (k : nat) : M unit :=
  clearTimeout k;;
  assignProcess None;;
  emit (Log (str "Server stopped gracefully."));;
  setStatus idle;;
  resolve k.

Definition stop : M StopTicket :=
  h <- gets handle;;
  match h with
  | None => ret Immediately
  | Some p =>
      setStatus stopping;;
      emit (Log (str "Stopping server process..."));;
      logger LInfo (str "Stopping server...") None;;
      k <- newStopCall OwnServer 5000;;
      onExit p k;;
      kill p SIGTERM;;
      ret (Awaiting k)
  end.

(** [new ServerManager()] *)
Definition new (c : Config) : ServerFields :=
  mkServerFields idle None (orNum (get_serverPort c) 4000) [] 0.
End ServerManager.

(** ** [class TunnelManager] *)

Module TunnelManager.
Import TunnelStatus.

Definition status (w : World) : TunnelStatus.t := t_status (tunnel w).
Definition handle (w : World) : option nat := tunnelProcess (tunnel w).
Definition url (w : World) : option jsstring := tunnelUrl (tunnel w).
Definition emitted (w : World) : list (Event TunnelStatus.t) :=
  t_emitted (tunnel w).

Definition assignStatus (s : TunnelStatus.t) : M unit :=
  modify (withTunnel (λ m, mkTunnelFields s (tunnelProcess m) (tunnelUrl m)
                              (t_emitted m) (t_errorListeners m))).
Definition assignProcess (p : option nat) : M unit :=
  modify (withTunnel (λ m, mkTunnelFields (t_status m) p (tunnelUrl m)
                              (t_emitted m) (t_errorListeners m))).
Definition assignUrl (u : option jsstring) : M unit :=
  modify (withTunnel (λ m, mkTunnelFields (t_status m) (tunnelProcess m) u
                              (t_emitted m) (t_errorListeners m))).

Definition emit (e : Event TunnelStatus.t) : M unit :=
  modify (withTunnel (λ m, mkTunnelFields (t_status m) (tunnelProcess m)
                              (tunnelUrl m) (t_emitted m ++ [e])
                              (t_errorListeners m))).

(** [this.emit('error', err)], as for the server manager. *)
Definition emitError (e : Err) : M unit :=
  n <- gets (λ w, t_errorListeners (tunnel w));;
  match n with
  | O => throw e
  | S _ => emit (ErrorEvent e)
  end.

Definition setStatus (s : TunnelStatus.t) : M unit :=
  assignStatus s;;
  emit (StatusChange s);;
  logger LInfo (str "Tunnel status changed to: " ++ name s) None.

Definition getCloudflaredPath (h : Host) : Path := cloudflaredPath h.

Definition isCloudflaredAvailable : M bool :=
  h <- gets host;; existsSync (getCloudflaredPath h).

Definition parseTunnelOutput (msg : jsstring) : M unit :=
  match quickTunnelMatch msg with
  | Some u =>
      assignUrl (Some u);;
      emit (Log (str "Tunnel URL: " ++ u));;
      emit (UrlChange (Some u));;
      tunneling <- gets (λ w, default (mkTunneling false (str "cloudflare")
                                                   None None)
                                      (get_tunneling (config w)));;
      modify (withConfig (set_tunneling
        (mkTunneling (enabled tunneling) (provider tunneling)
                     (tunnelToken tunneling) (Some u))));;
      setStatus running
  | None => ret tt
  end;;
  when (includes (str "Connection") msg && includes (str "registered") msg)
    (savedUrl <- gets (λ w, match get_tunneling (config w) with
                            | Some t => cfgTunnelUrl t
                            | None => None
                            end);;
     match savedUrl with
     | Some saved =>
         when (truthy saved && negb (includes (str "trycloudflare") saved))
           (assignUrl (Some saved);; emit (UrlChange (Some saved)))
     | None => ret tt
     end;;
     setStatus running);;
  when (includes (str "failed") msg || includes (str "error") msg)
    (u <- gets url;;
     when (negb (truthyOpt u)) (setStatus error)).

(** The listener of [stdout 'data'] and of [stderr 'data']. *)
Definition onData (data : jsstring) : M unit :=
  let msg := trim data in
  logger LDebug (str "[TUNNEL] " ++ msg) None;;
  emit (Log (str "[Tunnel] " ++ msg));;
  parseTunnelOutput msg.

(** The listener of the child's ['error']. *)
Definition onError (err : Err) : M unit :=
  logger LError (str "Tunnel process failed:") (Some err);;
  emit (Log (str "Tunnel error: " ++ err_message err));;
  setStatus error;;
  emitError err.

(** The listener of the child's ['close']. *)
Definition onClose (code : option N) : M unit :=
  logger LInfo (str "Tunnel process exited with code " ++ codeToString code)
         None;;
  assignUrl None;;
  emit (UrlChange None);;
  st <- gets status;;
  when (negb (bool_decide (st = stopping))) (setStatus idle);;
  assignProcess None.

Definition start (port : N) (f : Faults) : M unit :=
  st <- gets status;;
  if bool_decide (st = running) || bool_decide (st = starting) then
    emit (Log (str "Tunnel already running or starting."))
  else
    h <- gets host;;
    let cloudflaredPath := getCloudflaredPath h in
    have <- existsSync cloudflaredPath;;
    if negb have then
      emit (Log (str "ERROR: cloudflared executable not found."));;
      emit (Log (str "Please ensure cloudflared.exe is bundled with the application."));;
      setStatus error;;
      throw (newError (str "cloudflared executable not found"))
    else
      setStatus starting;;
      emit (Log (str "Starting Cloudflare Tunnel..."));;
      tryCatch
        (token <- gets (λ w, match get_tunneling (config w) with
                             | Some t => tunnelToken t
                             | None => None
                             end);;
         args <- match token with
                 | Some tok =>
                     if truthy tok then
                       emit (Log (str "Using named tunnel with token..."));;
                       ret [str "tunnel"; str "run"; str "--token"; tok]
                     else
                       emit (Log (str "Using quick tunnel (trycloudflare.com)..."));;
                       ret [str "tunnel"; str "--url";
                            str "http://localhost:" ++ numToString port]
                 | None =>
                     emit (Log (str "Using quick tunnel (trycloudflare.com)..."));;
                     ret [str "tunnel"; str "--url";
                          str "http://localhost:" ++ numToString port]
                 end;;
         child <- spawn f OwnTunnel cloudflaredPath args [];;
         assignProcess (Some child))
        (λ err,
           logger LError (str "Failed to start tunnel:") (Some err);;
           emit (Log (str "Failed to start tunnel: " ++ err_message err));;
           setStatus error;;
           throw err).

(** The callback of the timer armed by [stop()]. *)
Definition stop_onTimeout (k : nat) : M unit :=
  h <- gets handle;;
  match h with
  | Some p =>
      logger LWarn (str "Tunnel did not stop gracefully, force killing...")
             None;;
      emit (Log (str "Force killing tunnel process..."));;
      kill p SIGKILL;;
      assignProcess None;;
      assignUrl None;;
      emit (UrlChange None);;
      setStatus idle;;
      resolve k
  | None => ret tt
  end.

(** The listener of the child's ['exit'] registered by [stop()]. *)
Definition stop_onExit (k : nat) : M unit :=
  clearTimeout k;;
  assignProcess None;;
  assignUrl None;;
  emit (UrlChange None);;
  emit (Log (str "Tunnel stopped."));;
  setStatus idle;;
  resolve k.

Definition stop : M StopTicket :=
  h <- gets handle;;
  match h with
  | None => ret Immediately
  | Some p =>
      setStatus stopping;;
      emit (Log (str "Stopping tunnel..."));;
      k <- newStopCall OwnTunnel 5000;;
      onExit p k;;
      kill p SIGTERM;;
      ret (Awaiting k)
  end.

(** [new TunnelManager()] *)
Definition new : TunnelFields := mkTunnelFields idle None None [] 0.
End TunnelManager.

(** ** The event loop

    What reaches the two managers: the calls of their public operations
    and the events of their children and timers. *)

Inductive Input :=
| ServerStart (f : Faults)
| ServerStop
| TunnelStart (port : N) (f : Faults)
| TunnelStop
| ProcStdout (p : nat) (data : jsstring)
| ProcStderr (p : nat) (data : jsstring)
| ProcError (p : nat) (e : Err)
| ProcExit (p : nat)
| ProcClose (p : nat) (code : option N)
| TimerFire (k : nat).

(** A call of a public operation: its outcome goes to the caller. *)
Definition call {A} (c : M A) (w : World) : World := (c w).2.

(** A listener run by the event loop: what it throws is an uncaught
    exception of the main process. *)
Definition dispatch (c : M unit) (w : World) : World :=
  match c w with
  | (Ok _, w') => w'
  | (Throw e, w') => withUncaught (λ u, u ++ [e]) w'
  end.

Definition exitListener (o : Owner) (k : nat) : M unit :=
  match o with
  | OwnServer => ServerManager.stop_onExit k
  | OwnTunnel => TunnelManager.stop_onExit k
  end.

(** One turn of the event loop.  An event that cannot occur (of a child
    that was never spawned or is closed, a second ['exit'], a timer that
    is not pending) changes nothing. *)
Definition step (i : Input) (w : World) : World :=
  match i with
  | ServerStart f => call (ServerManager.start f) w
  | ServerStop => call ServerManager.stop w
  | TunnelStart port f => call (TunnelManager.start port f) w
  | TunnelStop => call TunnelManager.stop w
  | ProcStdout p data =>
      match procs w !! p with
      | Some c =>
          match phase c, owner c with
          | Closed, _ => w
          | _, OwnServer => dispatch (ServerManager.onStdout data) w
          | _, OwnTunnel => dispatch (TunnelManager.onData data) w
          end
      | None => w
      end
  | ProcStderr p data =>
      match procs w !! p with
      | Some c =>
          match phase c, owner c with
          | Closed, _ => w
          | _, OwnServer => dispatch (ServerManager.onStderr data) w
          | _, OwnTunnel => dispatch (TunnelManager.onData data) w
          end
      | None => w
      end
  | ProcError p e =>
      match procs w !! p with
      | Some c =>
          match phase c, owner c with
          | Closed, _ => w
          | _, OwnServer => dispatch (ServerManager.onError e) w
          | _, OwnTunnel => dispatch (TunnelManager.onError e) w
          end
      | None => w
      end
  | ProcExit p =>
      match procs w !! p with
      | Some c =>
          match phase c with
          | Alive =>
              foldl (λ acc k, dispatch (exitListener (owner c) k) acc)
                    (call (setPhase Exited p) w) (exitListeners c)
          | _ => w
          end
      | None => w
      end
  | ProcClose p code =>
      match procs w !! p with
      | Some c =>
          match phase c, owner c with
          | Closed, _ => w
          | _, OwnServer =>
              dispatch (ServerManager.onClose code) (call (setPhase Closed p) w)
          | _, OwnTunnel =>
              dispatch (TunnelManager.onClose code) (call (setPhase Closed p) w)
          end
      | None => w
      end
  | TimerFire k =>
      match stops w !! k with
      | Some s =>
          match timer s with
          | Pending =>
              let w' := withStops (alter (λ s, mkStopCall (stop_owner s) Fired
                                                 (delay s) (resolved s)) k) w in
              match stop_owner s with
              | OwnServer => dispatch (ServerManager.stop_onTimeout k) w'
              | OwnTunnel => dispatch (TunnelManager.stop_onTimeout k) w'
              end
          | _ => w
          end
      | None => w
      end
  end.

Definition run (inputs : list Input) (w : World) : World :=
  foldl (λ acc i, step i acc) w inputs.

(** The application at launch: the two singletons just constructed, no
    child, no timer.  [setupIpcHandlers] registers listeners for ['log'],
    ['status-change'] and ['url-change'] only, so neither manager has a
    listener for ['error']. *)
Definition launch (h : Host) (files : gmap Path Node) (c : Config) : World :=
  mkWorld h files c [] [] [] [] (ServerManager.new c) TunnelManager.new.

Inductive reachable : World → Prop :=
| reachable_launch h files c : reachable (launch h files c)
| reachable_step i w : reachable w → reachable (step i w).

(** ** The IPC handlers ([src/main/ipc/index.ts])

    Each handler is what [ipcMain.handle] registers for the channel of
    its name; what it throws rejects the promise of the renderer's
    [invoke].  A port is a whole number here. *)

(** [configStore.set('serverPort', p)] *)
Definition set_serverPort (p : N) (c : Config) : Config :=
  mkConfig (chromePath c) (Some p) (serverVersion c) (tunneling c).

Module Ipc.

Definition server_start (f : Faults) : M unit := ServerManager.start f.
Definition server_stop : M StopTicket := ServerManager.stop.
Definition server_status : M ServerStatus.t := gets ServerManager.status.

Definition server_get_port : M N :=
  gets (λ w, orNum (get_serverPort (config w)) 4000).

Definition server_set_port (port : Z) : M bool :=
  if ((port <? 1) || (65535 <? port))%Z then
    throw (newError (str "Invalid port number"))
  else
    modify (withConfig (set_serverPort (Z.to_N port)));;
    logger LInfo (str "Server port changed to " ++ numToString (Z.to_N port))
           None;;
    ret true.

Definition tunnel_start (f : Faults) : M unit :=
  port <- gets (λ w, orNum (get_serverPort (config w)) 4000);;
  TunnelManager.start port f.

Definition tunnel_stop : M StopTicket := TunnelManager.stop.

Definition tunnel_status : M (TunnelStatus.t * option jsstring) :=
  gets (λ w, (TunnelManager.status w, TunnelManager.url w)).

Definition tunnel_is_available : M bool :=
  TunnelManager.isCloudflaredAvailable.

Definition tunnel_set_token (token : jsstring) : M bool :=
  tunneling <- gets (λ w, default (mkTunneling false (str "cloudflare")
                                               None None)
                                  (get_tunneling (config w)));;
  modify (withConfig (set_tunneling
    (mkTunneling (enabled tunneling) (provider tunneling) (Some token)
                 (cfgTunnelUrl tunneling))));;
  ret true.

Definition tunnel_get_token : M jsstring :=
  gets (λ w, match get_tunneling (config w) with
             | Some t =>
                 match tunnelToken t with
                 | Some tok => if truthy tok then tok else []
                 | None => []
                 end
             | None => []
             end).

End Ipc.

(** ** Registration of the IPC handlers ([setupIpcHandlers])

    The registry of [ipcMain] (the channels that have a handler, in the
    order of registration), the listeners the two singletons have (the
    event listened to and the channel its argument is broadcast on), the
    module's flag and the lines it logs. *)
Record IpcMain := mkIpcMain {
  handlersRegistered : bool;
  handled : list string;
  serverOn : list (string * string);
  tunnelOn : list (string * string);
  ipcLog : list jsstring
}.

Inductive Registration :=
| Handle (channel : string)
| ServerOn (event channel : string)
| TunnelOn (event channel : string).

(** [ipcMain.handle] throws when the channel has a handler already;
    [None] is that exception.  [emitter.on] adds a listener. *)
Definition register (m : IpcMain) (r : Registration) : option IpcMain :=
  match r with
  | Handle c =>
      if bool_decide (c ∈ handled m) then None
      else Some (mkIpcMain (handlersRegistered m) (handled m ++ [c])
                           (serverOn m) (tunnelOn m) (ipcLog m))
  | ServerOn e c =>
      Some (mkIpcMain (handlersRegistered m) (handled m)
                      (serverOn m ++ [(e, c)]) (tunnelOn m) (ipcLog m))
  | TunnelOn e c =>
      Some (mkIpcMain (handlersRegistered m) (handled m) (serverOn m)
                      (tunnelOn m ++ [(e, c)]) (ipcLog m))
  end.

(** The calls of [ipcMain.handle] and of [on] in the body of
    [setupIpcHandlers], in the order of the source. *)
Definition registrations : list Registration :=
  [ Handle "server:start"; Handle "server:stop"; Handle "server:restart";
    Handle "server:status"; Handle "server:get-port";
    Handle "server:set-port";
    ServerOn "log" "server:log"; ServerOn "status-change" "server:status";
    Handle "tunnel:start"; Handle "tunnel:stop"; Handle "tunnel:status";
    Handle "tunnel:is-available"; Handle "tunnel:set-token";
    Handle "tunnel:get-token";
    TunnelOn "log" "server:log"; TunnelOn "status-change" "tunnel:status";
    TunnelOn "url-change" "tunnel:url";
    Handle "license:validate"; Handle "license:check-saved";
    Handle "license:clear"; Handle "license:get-hwid";
    Handle "config:get"; Handle "config:set"; Handle "config:select-chrome";
    Handle "config:get-hosted-url"; Handle "config:set-hosted-url";
    Handle "window:minimize"; Handle "window:close"; Handle "app:version";
    Handle "app:renderer-ready"; Handle "shell:open" ]%string.

Definition logIpc (msg : jsstring) (m : IpcMain) : IpcMain :=
  mkIpcMain (handlersRegistered m) (handled m) (serverOn m) (tunnelOn m)
            (ipcLog m ++ [msg]).

Definition setupIpcHandlers (m : IpcMain) : option IpcMain :=
  if handlersRegistered m then
    Some (logIpc (str "IPC handlers already registered, skipping.") m)
  else
    m' ← foldl (λ acc r, acc ≫= λ a, register a r)
               (Some (logIpc (str "Registering IPC handlers...") m))
               registrations;
    Some (mkIpcMain true (handled m') (serverOn m') (tunnelOn m') (ipcLog m')).

(** The main process before [app.on('ready')]. *)
Definition newIpcMain : IpcMain := mkIpcMain false [] [] [] [].

(** [n] calls of [setupIpcHandlers], as long as none throws. *)
Fixpoint setupTimes (n : nat) (m : IpcMain) : option IpcMain :=
  match n with
  | O => Some m
  | S n => setupIpcHandlers m ≫= setupTimes n
  end.

(** ** The bridge of the preload script ([src/preload/index.ts]) *)

Module Preload.
(** The channels [ipcRenderer.invoke] is called with. *)
Definition invoked : list string :=
  [ "server:start"; "server:stop"; "server:status"; "server:get-port";
    "server:set-port";
    "tunnel:start"; "tunnel:stop"; "tunnel:status"; "tunnel:is-available";
    "tunnel:set-token"; "tunnel:get-token";
    "license:validate"; "license:get-hwid"; "license:check-saved";
    "license:clear";
    "config:get"; "config:set"; "config:select-chrome";
    "config:get-hosted-url"; "config:set-hosted-url";
    "window:minimize"; "window:close";
    "app:version"; "shell:open"; "app:renderer-ready" ]%string.

(** The channels [ipcRenderer.on] listens to. *)
Definition listened : list string :=
  [ "server:log"; "server:status"; "tunnel:status"; "tunnel:url" ]%string.
End Preload.

(** ** Quitting the application ([src/main/index.ts])

    The listener of ['before-quit'] is an [async] function: it runs up to
    its first [await] inside the turn of the event loop that delivers the
    event, and resumes after the turn in which the awaited promise is
    settled. *)

(** Where an invocation of the listener is suspended, with the local
    [serverStatus] it carries. *)
Inductive Suspended :=
| AwaitTunnelStop (serverStatus : ServerStatus.t)
| AwaitServerStop.

(** The main process: the two managers' world, the flag [isQuitting],
    the suspended invocations with the [StopCall] each one awaits, the
    number of ['before-quit'] events whose default was prevented and the
    number of calls of [app.quit()]. *)
Record App := mkApp {
  world : World;
  isQuitting : bool;
  suspended : list (nat * Suspended);
  prevented : nat;
  quitCalls : nat
}.

Definition withWorld (w : World) (a : App) : App :=
  mkApp w (isQuitting a) (suspended a) (prevented a) (quitCalls a).

Definition serverActive (s : ServerStatus.t) : bool :=
  bool_decide (s ∈ [ServerStatus.running; ServerStatus.starting;
                    ServerStatus.extracting; ServerStatus.migrating]).

Definition tunnelActive (s : TunnelStatus.t) : bool :=
  bool_decide (s ∈ [TunnelStatus.running; TunnelStatus.starting]).

(** The [finally] block. *)
Definition quit_finally (a : App) : App :=
  mkApp (world a) true (suspended a) (prevented a) (S (quitCalls a)).

(** [await stop()] inside the [try]: a promise that is settled already
    lets the invocation go on in the same turn, a pending one suspends
    it at [here], and an exception goes to the [catch] block and from
    there to the [finally] block. *)
Definition awaitStop (r : Res StopTicket * World) (here : Suspended)
    (next : App → App) (a : App) : App :=
  match r with
  | (Ok Immediately, w) => next (withWorld w a)
  | (Ok (Awaiting k), w) =>
      mkApp w (isQuitting a) (suspended a ++ [(k, here)]) (prevented a)
            (quitCalls a)
  | (Throw e, w) =>
      quit_finally
        (withWorld (call (logger LError (str "Error stopping services:")
                                 (Some e)) w) a)
  end.

(** From [// Then stop server] on. *)
Definition quit_stopServer (serverStatus : ServerStatus.t) (a : App) : App :=
  if serverActive serverStatus then
    awaitStop (ServerManager.stop (world a)) AwaitServerStop quit_finally a
  else quit_finally a.

(** The listener of ['before-quit'], up to its first suspension. *)
Definition beforeQuit (a : App) : App :=
  if isQuitting a then a
  else
    let serverStatus := ServerManager.status (world a) in
    let tunnelStatus := TunnelManager.status (world a) in
    if serverActive serverStatus || tunnelActive tunnelStatus then
      let a :=
        mkApp (call (logger LInfo
                       (str "Gracefully stopping services before quit...")
                       None) (world a))
              (isQuitting a) (suspended a) (S (prevented a)) (quitCalls a) in
      if tunnelActive tunnelStatus then
        awaitStop (TunnelManager.stop (world a)) (AwaitTunnelStop serverStatus)
                  (quit_stopServer serverStatus) a
      else quit_stopServer serverStatus a
    else mkApp (world a) true (suspended a) (prevented a) (quitCalls a).

(** A suspended invocation goes on. *)
Definition resume (s : Suspended) (a : App) : App :=
  match s with
  | AwaitTunnelStop serverStatus => quit_stopServer serverStatus a
  | AwaitServerStop => quit_finally a
  end.

(** The promise of the [StopCall] numbered [k] is settled. *)
Definition settled (w : World) (k : nat) : bool :=
  match stops w !! k with
  | Some s => bool_decide (0 < resolved s)%nat
  | None => false
  end.

(** The end of a turn: the invocations whose promise was settled in it
    resume, in the order in which they were suspended. *)
Definition settle (a : App) : App :=
  let ready := filter (λ ks, settled (world a) ks.1 = true) (suspended a) in
  let pending := filter (λ ks, settled (world a) ks.1 ≠ true) (suspended a) in
  foldl (λ acc ks, resume ks.2 acc)
        (mkApp (world a) (isQuitting a) pending (prevented a) (quitCalls a))
        ready.

Inductive AppInput :=
| Turn (i : Input)
| BeforeQuit.

Definition appStep (i : AppInput) (a : App) : App :=
  match i with
  | Turn i => settle (withWorld (step i (world a)) a)
  | BeforeQuit => beforeQuit a
  end.

(** ** The license manager ([src/main/license-manager.ts]) *)

Record LicenseStatus := mkLicenseStatus {
  valid : bool;
  reason : option jsstring;
  expiresAt : option jsstring;
  activated : option bool
}.

(** What [systeminformation] reports about the machine. *)
Record Hardware := mkHardware {
  cpuBrand : jsstring;
  uuidHardware : jsstring;
  macs : list jsstring;
  baseboardSerial : jsstring
}.

Inductive NtpAnswer :=
| NtpError (e : Err)
| NtpTime (ms : Z).

(** [fetch] rejects, or resolves with a response whose [json()] gives
    the status or rejects. *)
Inductive FetchAnswer :=
| FetchRejects (e : Err)
| FetchResponds (ok : bool) (status : N) (json : Res LicenseStatus).

(** What the environment answers during one validation: the time server
    and the clock of the machine (in milliseconds), the hardware query
    and the license server. *)
Record Answers := mkAnswers {
  ntp : NtpAnswer;
  systemTime : Z;
  hardware : Res Hardware;
  response : FetchAnswer
}.

(** The stored key, the log, and the requests sent to the license
    server, each with its [apiKey] and [hwid]. *)
Record LicenseWorld := mkLicenseWorld {
  licenseKey : option jsstring;
  licenseLog : list LogEntry;
  posted : list (jsstring * jsstring)
}.

Definition logLicense (l : Level) (msg : jsstring) (e : option Err)
    (s : LicenseWorld) : LicenseWorld :=
  mkLicenseWorld (licenseKey s) (licenseLog s ++ [(l, msg, e)]) (posted s).

Module LicenseManager.
Section WithHash.
(** [crypto.createHash('sha256').update(s).digest('hex')] *)
Variable sha256hex : jsstring → jsstring.

Definition rawId (h : Hardware) : jsstring :=
  cpuBrand h ++ str "|" ++ uuidHardware h ++ str "|"
  ++ default (str "undefined") (head (macs h)) ++ str "|"
  ++ baseboardSerial h.

Definition getHWID (o : Answers) (s : LicenseWorld)
    : Res jsstring * LicenseWorld :=
  match hardware o with
  | Ok h => (Ok (sha256hex (rawId h)), s)
  | Throw e =>
      (Throw e, logLicense LError (str "Failed to generate HWID:") (Some e) s)
  end.

Definition checkTime (o : Answers) (s : LicenseWorld)
    : bool * LicenseWorld :=
  match ntp o with
  | NtpError e =>
      (true, logLicense LWarn
               (str "NTP check failed, falling back to system time")
               (Some e) s)
  | NtpTime date =>
      let diff := Z.abs (systemTime o - date) in
      if (5 * 60 * 1000 <? diff)%Z then
        (false, logLicense LWarn
                  (str "System time drift too large: "
                   ++ numToString (Z.to_N diff) ++ str "ms") None s)
      else (true, s)
  end.

(** The [catch] block of [validateLicense]. *)
Definition validate_catch (e : Err) (s : LicenseWorld)
    : LicenseStatus * LicenseWorld :=
  (mkLicenseStatus false
     (Some (str "Connection error or invalid response from server."))
     None None,
   logLicense LError (str "License validation failed:") (Some e) s).

Definition validateLicense (o : Answers) (key : jsstring) (s : LicenseWorld)
    : LicenseStatus * LicenseWorld :=
  let '(timeValid, s) := checkTime o s in
  if negb timeValid then
    (mkLicenseStatus false
       (Some (str "System time is incorrect. Please sync your clock."))
       None None, s)
  else
    match getHWID o s with
    | (Throw e, s) => validate_catch e s
    | (Ok hwid, s) =>
        let s := logLicense LInfo
                   (str "Validating license: " ++ take 8 key ++ str "...")
                   None s in
        let s := mkLicenseWorld (licenseKey s) (licenseLog s)
                                (posted s ++ [(key, hwid)]) in
        match response o with
        | FetchRejects e => validate_catch e s
        | FetchResponds ok status json =>
            if negb ok then
              validate_catch
                (newError (str "License server returned "
                           ++ numToString status)) s
            else
              match json with
              | Throw e => validate_catch e s
              | Ok data =>
                  if valid data then
                    (data, mkLicenseWorld (Some key) (licenseLog s)
                                          (posted s))
                  else (data, s)
              end
        end
    end.

Definition checkSavedLicense (o : Answers) (s : LicenseWorld)
    : LicenseStatus * LicenseWorld :=
  match licenseKey s with
  | Some savedKey =>
      if truthy savedKey then validateLicense o savedKey s
      else (mkLicenseStatus false (Some (str "No license key found."))
                            None None, s)
  | None =>
      (mkLicenseStatus false (Some (str "No license key found.")) None None,
       s)
  end.

End WithHash.
End LicenseManager.

(** The handler of [license:clear]: [configStore.delete('licenseKey')]. *)
Definition license_clear (s : LicenseWorld) : LicenseWorld :=
  mkLicenseWorld None (licenseLog s) (posted s).

(** ** The dashboard of the renderer
    ([src/renderer/scripts/renderer.ts], [updateServerStatus])

    The elements the function writes: the text and the class list of the
    status indicator, the [style.display] of the three buttons and the
    [disabled] flag of the button that opens the application. *)
Record Dashboard := mkDashboard {
  statusText : jsstring;
  dotClasses : list string;
  startDisplay : string;
  stopDisplay : string;
  restartDisplay : string;
  openAppDisabled : bool
}.

(** [classList.add] *)
Definition addClass (c : string) (cs : list string) : list string :=
  if bool_decide (c ∈ cs) then cs else cs ++ [c].

Definition withDot (f : list string → list string) (d : Dashboard)
    : Dashboard :=
  mkDashboard (statusText d) (f (dotClasses d)) (startDisplay d)
              (stopDisplay d) (restartDisplay d) (openAppDisabled d).
Definition withStart (v : string) (d : Dashboard) : Dashboard :=
  mkDashboard (statusText d) (dotClasses d) v (stopDisplay d)
              (restartDisplay d) (openAppDisabled d).
Definition withStop (v : string) (d : Dashboard) : Dashboard :=
  mkDashboard (statusText d) (dotClasses d) (startDisplay d) v
              (restartDisplay d) (openAppDisabled d).
Definition withRestart (v : string) (d : Dashboard) : Dashboard :=
  mkDashboard (statusText d) (dotClasses d) (startDisplay d) (stopDisplay d)
              v (openAppDisabled d).
Definition withOpenAppDisabled (b : bool) (d : Dashboard) : Dashboard :=
  mkDashboard (statusText d) (dotClasses d) (startDisplay d) (stopDisplay d)
              (restartDisplay d) b.

(** The statuses the manager sends are ASCII names, for which
    [toUpperCase] is exact. *)
Definition updateServerStatus (status : jsstring) (d : Dashboard)
    : Dashboard :=
  let d := mkDashboard (toUpperCase status) (dotClasses d) (startDisplay d)
                       (stopDisplay d) (restartDisplay d)
                       (openAppDisabled d) in
  let d := withDot (λ _, ["dot"%string]) d in
  let d := withStart "none" d in
  let d := withStop "none" d in
  let d := withRestart "none" d in
  let d := withOpenAppDisabled true d in
  if bool_decide (status = str "running") then
    let d := withDot (addClass "running") d in
    let d := withStop "inline-block" d in
    let d := withRestart "inline-block" d in
    withOpenAppDisabled false d
  else if bool_decide (status = str "idle")
          || bool_decide (status = str "error")
          || bool_decide (status = str "stopped") then
    let d := withDot (addClass "stopped") d in
    withStart "inline-block" d
  else
    let d := withDot (addClass "loading") d in
    withStop "inline-block" d.

(** ** Vocabulary of the properties *)

Import ServerStatus.

(** *** What observers have seen *)

(** The status, URL and log events among the events of a manager. *)
Definition statusEvents {S} (es : list (Event S)) : list S :=
  omap (λ e, match e with StatusChange s => Some s | _ => None end) es.

Definition urlEvents {S} (es : list (Event S)) : list (option jsstring) :=
  omap (λ e, match e with UrlChange u => Some u | _ => None end) es.

Definition logEvents {S} (es : list (Event S)) : list jsstring :=
  omap (λ e, match e with Log m => Some m | _ => None end) es.

(** The events emitted since [base] are log lines only. *)
Definition onlyLogsSince (base : list (Event ServerStatus.t)) (w : World)
    : Prop :=
  ∃ rest, ServerManager.emitted w = base ++ rest ∧ statusEvents rest = [].

(** The URL the store holds for the tunnel. *)
Definition persistedUrl (w : World) : option jsstring :=
  match get_tunneling (config w) with
  | Some t => cfgTunnelUrl t
  | None => None
  end.

(** *** The quick-tunnel URL *)

(** The texts the quick-tunnel pattern matches: [https://], a non-empty
    label of letters, digits and hyphens, [.trycloudflare.com], the two
    literals in any mix of upper and lower case. *)
Definition sameCI (lit m : jsstring) : Prop :=
  Forall2 (λ a b, eqUnitCI a b = true) lit m.

Definition QuickUrl (u : jsstring) : Prop :=
  ∃ scheme label domain,
    u = scheme ++ label ++ domain
    ∧ sameCI (str "https://") scheme
    ∧ label ≠ []
    ∧ Forall (λ c, isLabelUnit c = true) label
    ∧ sameCI (str ".trycloudflare.com") domain.

(** [u] is the leftmost quick-tunnel URL of [line]. *)
Definition FirstQuickUrl (u line : jsstring) : Prop :=
  ∃ pre post,
    line = pre ++ u ++ post ∧ QuickUrl u
    ∧ ∀ pre' u' post',
        line = pre' ++ u' ++ post' → QuickUrl u' →
        (List.length pre ≤ List.length pre')%nat.

(** *** Provisioning *)

(** The executable and the tunnel binary are on disk and the stored
    version tag is the version of the running application. *)
Definition upToDate (w : World) : Prop :=
  is_Some (fs w !! exePath (host w))
  ∧ is_Some (fs w !! cloudflaredPath (host w))
  ∧ get_serverVersion (config w) = appVersion (host w).

(** The target directory as [extractServerIfNeeded] leaves it for the
    archive: deleted with all below it if it was there, then created. *)
Definition cleared (m : gmap Path Node) : gmap Path Node :=
  <[serverExtractPath := Dir]>
    (if bool_decide (is_Some (m !! serverExtractPath))
     then rmTree serverExtractPath m else m).

(** The first log line of [extractServerIfNeeded]. *)
Definition checkLine (w : World) : jsstring :=
  str "Checking server resources (App Ver: " ++ appVersion (host w)
  ++ str ", Extracted: " ++ get_serverVersion (config w) ++ str ")...".

(** *** The setup phase of [ServerManager.start] *)

(** What [start()] runs once it has passed its guard. *)
Definition startUnguarded (f : Faults) : M unit :=
  cfgPort <- gets (λ w, get_serverPort (config w));;
  ServerManager.assignPort (orNum cfgPort 4000);;
  tryCatch (ServerManager.start_try f) ServerManager.start_catch.

(** The world in which the [try] block begins: the port has been read
    again from the store. *)
Definition atTry (w : World) : World :=
  call (ServerManager.assignPort (orNum (get_serverPort (config w)) 4000)) w.

(** The world in which [extractServerIfNeeded] is called. *)
Definition atProvisioning (w : World) : World :=
  call (ServerManager.emit (Log (str "Starting initialization sequence...")))
       (atTry w).

(** [start()] fails with [e]: the call throws [e] to its caller, the
    status is [error] and that is the last status event the observers
    were given; the handle is the one held before and no child has been
    spawned. *)
Definition raised (f : Faults) (w : World) (e : Err) : Prop :=
  ∃ w', ServerManager.start f w = (Throw e, w')
        ∧ ServerManager.status w' = error
        ∧ last (statusEvents (ServerManager.emitted w')) = Some error
        ∧ ServerManager.handle w' = ServerManager.handle w
        ∧ procs w' = procs w.

(** *** Both managers, by the kind of child they own *)

Definition handleOf (o : Owner) (w : World) : option nat :=
  match o with
  | OwnServer => ServerManager.handle w
  | OwnTunnel => TunnelManager.handle w
  end.

Definition stopOf (o : Owner) : M StopTicket :=
  match o with
  | OwnServer => ServerManager.stop
  | OwnTunnel => TunnelManager.stop
  end.

Definition isStopping (o : Owner) (w : World) : Prop :=
  match o with
  | OwnServer => ServerManager.status w = ServerStatus.stopping
  | OwnTunnel => TunnelManager.status w = TunnelStatus.stopping
  end.

Definition isIdle (o : Owner) (w : World) : Prop :=
  match o with
  | OwnServer => ServerManager.status w = ServerStatus.idle
  | OwnTunnel => TunnelManager.status w = TunnelStatus.idle
  end.

(** The events of a child that carry output or an error. *)
Definition isOutput (i : Input) : Prop :=
  match i with
  | ProcStdout _ _ | ProcStderr _ _ | ProcError _ _ => True
  | _ => False
  end.

(** The timer of the [StopCall] numbered [k] has not fired. *)
Definition notFired (k : nat) (w : World) : Prop :=
  ∃ s, stops w !! k = Some s ∧ timer s ≠ Fired.

(** *** Children and promises *)

(** What [kill], [on('exit', ...)] and the events of a child do to its
    entry, and what [clearTimeout], [resolve] and a timer that fires do
    to a [StopCall]. *)
Definition signalled (sig : Signal) (c : Proc) : Proc :=
  mkProc (owner c) (command c) (args c) (env c) (phase c)
         (signals c ++ [sig]) (exitListeners c).

Definition listening (k : nat) (c : Proc) : Proc :=
  mkProc (owner c) (command c) (args c) (env c) (phase c) (signals c)
         (exitListeners c ++ [k]).

Definition inPhase (ph : Phase) (c : Proc) : Proc :=
  mkProc (owner c) (command c) (args c) (env c) ph (signals c)
         (exitListeners c).

Definition timerCleared (s : StopCall) : StopCall :=
  mkStopCall (stop_owner s)
             (match timer s with Pending => Cleared | t => t end)
             (delay s) (resolved s).

Definition timerFired (s : StopCall) : StopCall :=
  mkStopCall (stop_owner s) Fired (delay s) (resolved s).

Definition promiseResolved (s : StopCall) : StopCall :=
  mkStopCall (stop_owner s) (timer s) (delay s) (S (resolved s)).

(** The promises after the ['exit'] listeners numbered [ks] have run. *)
Definition exitsRun (ks : list nat) (ss : list StopCall) : list StopCall :=
  foldl (λ acc k, alter promiseResolved k (alter timerCleared k acc)) ss ks.

(** What one turn of the event loop does to the children and the
    promises: nothing; or a [start()] spawns children; or a [stop()]
    begins for the child a manager holds; or a child exits and the
    listeners of its ['exit'] run; or a child closes; or a timer fires
    and finds no handle, or kills the child the manager holds. *)
Inductive Effect (i : Input) (w w' : World) : Prop :=
| Spawned extra :
    procs w' = procs w ++ extra → stops w' = stops w →
    Forall (λ c, exitListeners c = []) extra → Effect i w w'
| StopBegun o p :
    handleOf o w = Some p →
    procs w'
    = alter (signalled SIGTERM) p
        (alter (listening (List.length (stops w))) p (procs w)) →
    stops w' = stops w ++ [mkStopCall o Pending 5000 0] → Effect i w w'
| ChildExited p c :
    i = ProcExit p → procs w !! p = Some c → phase c = Alive →
    procs w' = alter (inPhase Exited) p (procs w) →
    stops w' = exitsRun (exitListeners c) (stops w) → Effect i w w'
| ChildClosed p :
    procs w' = alter (inPhase Closed) p (procs w) → stops w' = stops w →
    Effect i w w'
| TimerLapsed k s :
    i = TimerFire k → stops w !! k = Some s → timer s = Pending →
    procs w' = procs w → stops w' = alter timerFired k (stops w) →
    Effect i w w'
| TimerKilled k s o p :
    i = TimerFire k → stops w !! k = Some s → timer s = Pending →
    handleOf o w = Some p →
    procs w' = alter (signalled SIGKILL) p (procs w) →
    stops w' = alter promiseResolved k (alter timerFired k (stops w)) →
    Effect i w w'.

(** The listeners of ['exit'] belong to promises that exist. *)
Definition listenersKnown (w : World) : Prop :=
  ∀ p c k, procs w !! p = Some c → k ∈ exitListeners c →
           (k < List.length (stops w))%nat.

(** The promise numbered [k] is pending and nothing is left to settle
    it: its timer is not armed any more, and no child that has yet to
    exit carries its listener. *)
Definition unsettled (k : nat) (w : World) : Prop :=
  (∃ s, stops w !! k = Some s ∧ timer s ≠ Pending ∧ resolved s = 0%nat)
  ∧ ∀ p c, procs w !! p = Some c → k ∈ exitListeners c → phase c ≠ Alive.

(** *** Invariants of the reachable worlds *)

(** No listener is registered for ['error'] on either manager. *)
Definition noErrorListener (w : World) : Prop :=
  s_errorListeners (server w) = 0%nat ∧ t_errorListeners (tunnel w) = 0%nat.

(** Between two turns of the event loop the primary service is not
    [idle] while it holds a handle, and it is never left in one of the
    two statuses of the setup phase. *)
Definition InvS (m : ServerFields) : Prop :=
  (s_status m = idle → serverProcess m = None)
  ∧ s_status m ≠ extracting ∧ s_status m ≠ migrating.

(** The tunnel is not [idle] while it holds a handle. *)
Definition InvT (m : TunnelFields) : Prop :=
  t_status m = TunnelStatus.idle → tunnelProcess m = None.

Definition Inv (w : World) : Prop := InvS (server w) ∧ InvT (tunnel w).

(** While the status is [starting] the manager holds a handle. *)
Definition StartS (m : ServerFields) : Prop :=
  s_status m = starting → is_Some (serverProcess m).

Definition StartT (m : TunnelFields) : Prop :=
  t_status m = TunnelStatus.starting → is_Some (tunnelProcess m).

Definition startingHeld (w : World) : Prop :=
  StartS (server w) ∧ StartT (tunnel w).

(** *** Hoare triples *)

(** A triple of the monad has a postcondition for the normal and one for
    the exceptional outcome. *)
Definition hoare {A} (P : World → Prop) (c : M A)
    (Q : A → World → Prop) (E : Err → World → Prop) : Prop :=
  ∀ w, P w →
    match c w with
    | (Ok a, w') => Q a w'
    | (Throw e, w') => E e w'
    end.

(** [c] keeps [P], however it ends. *)
Definition keeps {A} (P : World → Prop) (c : M A) : Prop :=
  hoare P c (λ _, P) (λ _, P).

(** [P] holds when [c] throws: the steps before the throwing one keep
    [P], whatever the last step assigns. *)
Definition keepsOnThrow {A} (P : World → Prop) (c : M A) : Prop :=
  hoare P c (λ _ _, True) (λ _, P).

(** *** What the renderer has been told *)

(** The status and the URL that the listeners of the renderer were told
    last; before the first event they show the initial values. *)
Definition shownStatus {S} (initial : S) (es : list (Event S)) : S :=
  default initial (last (statusEvents es)).

Definition shownUrl {S} (es : list (Event S)) : option jsstring :=
  default None (last (urlEvents es)).

(** What the observers of the two managers hold is what the managers
    hold. *)
Definition inSync (w : World) : Prop :=
  shownStatus idle (ServerManager.emitted w) = ServerManager.status w
  ∧ shownStatus TunnelStatus.idle (TunnelManager.emitted w)
    = TunnelManager.status w
  ∧ shownUrl (TunnelManager.emitted w) = TunnelManager.url w.

(** *** How a status is reached *)

(** The primary service is not [running]; the tunnel is not. *)
Definition notRunning (w : World) : Prop := ServerManager.status w ≠ running.

Definition tunnelNotRunning (w : World) : Prop :=
  TunnelManager.status w ≠ TunnelStatus.running.

(** *** The database and the children *)

(** [n'] is [n], or what [n] has become by conversions to WAL mode with
    the library of the host [h]. *)
Definition converted (h : Host) (n n' : Node) : Prop :=
  n' = n ∨ ∃ c k, n = File c ∧ n' = File (Nat.iter k (sqliteWal h) c).

(** On the host [h], the database file is there and holds what [n] has
    become. *)
Definition databaseFrom (h : Host) (n : Node) (w : World) : Prop :=
  host w = h ∧ ∃ n', fs w !! dbPath = Some n' ∧ converted h n n'.

(** An input other than a call of [ServerManager.start]. *)
Definition notServerStart (i : Input) : Prop :=
  match i with ServerStart _ => False | _ => True end.

(** The environment [spawnServer] hands to the child, for the port [p]
    and the browser path [chrome]. *)
Definition serverEnv (p : N) (chrome : jsstring) : list (string * jsstring) :=
  [("PORT"%string, numToString p);
   ("DATABASE_URL"%string, str "file:" ++ renderPath dbPath);
   ("CHROME_PATH"%string, chrome);
   ("NODE_ENV"%string, str "production");
   ("PUPPETEER_SKIP_DOWNLOAD"%string, str "true")].

(** What the steps of [start()] before [spawnServer] leave alone. *)
Definition beforeSpawn (ps : list Proc) (p : N) (chrome : jsstring) (h : Host)
    (w : World) : Prop :=
  procs w = ps ∧ port (server w) = p ∧ get_chromePath (config w) = chrome
  ∧ host w = h.

(** The token the store holds for a named tunnel. *)
Definition storedToken (w : World) : option jsstring :=
  match get_tunneling (config w) with
  | Some t => tunnelToken t
  | None => None
  end.

(** The command line of [cloudflared]: a named tunnel when there is a
    token, a quick tunnel to the local port otherwise. *)
Definition tunnelArgs (token : option jsstring) (port : N) : list jsstring :=
  match token with
  | Some tok =>
      if truthy tok then [str "tunnel"; str "run"; str "--token"; tok]
      else [str "tunnel"; str "--url";
            str "http://localhost:" ++ numToString port]
  | None => [str "tunnel"; str "--url";
             str "http://localhost:" ++ numToString port]
  end.

(** The stored URL that a named tunnel takes over: one that is not a
    quick-tunnel URL. *)
Definition namedUrl (w : World) : option jsstring :=
  match persistedUrl w with
  | Some s => if truthy s && negb (includes (str "trycloudflare") s)
              then Some s else None
  | None => None
  end.

(** *** Quitting *)

(** How a [stop()] ends: by the ['exit'] of the child [p] or by the timer
    of the [StopCall] numbered [k]. *)
Definition stopEnds (graceful : bool) (p k : nat) : Input :=
  if graceful then ProcExit p else TimerFire k.

(** What belongs to the other manager, and the children other than
    [p]. *)
Definition aside (o : Owner) (p : nat) (w0 w : World) : Prop :=
  match o with
  | OwnServer => tunnel w = tunnel w0
  | OwnTunnel => server w = server w0
  end
  ∧ List.length (procs w) = List.length (procs w0)
  ∧ ∀ p', p' ≠ p → procs w !! p' = procs w0 !! p'.

(** *** The license and the dashboard *)

(** A machine to validate on: the clock is off by the given number of
    milliseconds, the license server accepts the key. *)
Definition sampleAnswers (drift : Z) : Answers :=
  mkAnswers (NtpTime 1700000000000) (1700000000000 + drift)
            (Ok (mkHardware (str "Ryzen 7") (str "4c4c4544") [str "00:1a:2b"]
                            (str "SN123")))
            (FetchResponds true 200
               (Ok (mkLicenseStatus true None (Some (str "2027-01-01")) None))).

(** A button is visible. *)
Definition shown (display : string) : Prop := display ≠ "none"%string.

(** *** Worlds to run the managers in

    A Linux host on its first launch, where only the bundled archive
    exists; the same host after [start()] of the primary service; and
    with the tunnel started as well.  The child of the primary service is
    number 0, the child of the tunnel number 1.  On this host a database
    file is in WAL mode when its content is an odd number, and the
    conversion sets the lowest bit. *)
Module Sample.
Definition linux : Host := mkHost false (str "1.0.0") (λ c, N.lor c 1).
Definition bundle : Node :=
  Zip [(["main"], 1); (["cloudflared"; "cloudflared"], 2);
       (["initial.db"], 3)]%string.
Definition firstLaunch : World :=
  launch linux {[ serverZipPath := bundle ]} (mkConfig None None None None).
Definition serverUp : World := run [ServerStart noFaults] firstLaunch.
Definition bothUp : World := run [TunnelStart 4000 noFaults] serverUp.
Definition eacces : Err := mkErr (str "Error") (str "spawn EACCES").
End Sample.

(** * Properties *)

Example quickTunnelMatch_ex :
  quickTunnelMatch (str "INF |  https://abc-def-123.trycloudflare.com  |")
  = Some (str "https://abc-def-123.trycloudflare.com").
Proof. reflexivity. Qed.

(** ** Facts about strings *)

Section Strings.
Implicit Types s needle pre post u : jsstring.

Lemma startsWith_spec needle s :
  startsWith needle s = true ↔ ∃ post, s = needle ++ post.
Proof.
  revert s; induction needle as [|a needle IH]; intros [|b s]; simpl.
  - split; [by exists []|done].
  - split; [by eexists|done].
  - split; [done|by intros [? ?]].
  - rewrite andb_true_iff, N.eqb_eq, IH. split.
    + intros [-> [post ->]]. by exists post.
    + intros [post [= -> ->]]. eauto.
Qed.

Lemma includes_spec needle s :
  includes needle s = true ↔ ∃ pre post, s = pre ++ needle ++ post.
Proof.
  induction s as [|b s IH]; simpl; rewrite orb_true_iff, startsWith_spec.
  - split.
    + intros [[post ->]|?]; [|done]. by exists [], post.
    + intros (pre & post & H). left. destruct pre; simpl in H.
      * by exists post.
      * done.
  - rewrite IH. split.
    + intros [[post ->]|(pre & post & ->)].
      * by exists [], post.
      * by exists (b :: pre), post.
    + intros ([|c pre] & post & H); simpl in H.
      * left. by exists post.
      * right. injection H as -> ->. by exists pre, post.
Qed.

Lemma trimStart_app pre c rest :
  isWhiteSpace c = false →
  trimStart (pre ++ c :: rest) = trimStart pre ++ c :: rest.
Proof.
  intros Hc. induction pre as [|a pre IH]; simpl.
  - by rewrite Hc.
  - destruct (isWhiteSpace a); [done|by simpl].
Qed.

Lemma trimEnd_app init c post :
  isWhiteSpace c = false →
  trimEnd (init ++ c :: post) = init ++ c :: trimEnd post.
Proof.
  intros Hc. unfold trimEnd.
  rewrite rev_app_distr. simpl. rewrite <- app_assoc. simpl.
  rewrite trimStart_app by done.
  rewrite rev_app_distr. simpl. rewrite rev_involutive.
  by rewrite <- app_assoc.
Qed.

Lemma trimStart_suffix s : ∃ a, s = a ++ trimStart s.
Proof.
  induction s as [|c s [a IH]]; simpl.
  - by exists [].
  - destruct (isWhiteSpace c).
    + exists (c :: a). simpl. by f_equal.
    + by exists [].
Qed.

Lemma trimEnd_prefix s : ∃ b, s = trimEnd s ++ b.
Proof.
  unfold trimEnd. destruct (trimStart_suffix (rev s)) as [a Ha].
  exists (rev a). rewrite <- rev_app_distr, <- Ha. by rewrite rev_involutive.
Qed.

(** A text that begins and ends with something else than white space
    survives [trim] where it stands. *)
Lemma trim_keeps pre c mid d post :
  isWhiteSpace c = false → isWhiteSpace d = false →
  trim (pre ++ (c :: mid ++ [d]) ++ post)
  = trimStart pre ++ (c :: mid ++ [d]) ++ trimEnd post.
Proof.
  intros Hc Hd. unfold trim. simpl.
  rewrite trimStart_app by done.
  replace (trimStart pre ++ c :: (mid ++ [d]) ++ post)
    with ((trimStart pre ++ c :: mid) ++ d :: post)
    by (by rewrite <- !app_assoc).
  rewrite trimEnd_app by done. by rewrite <- !app_assoc.
Qed.

Lemma includes_trim needle data c mid d :
  needle = c :: mid ++ [d] →
  isWhiteSpace c = false → isWhiteSpace d = false →
  includes needle data = true → includes needle (trim data) = true.
Proof.
  intros -> Hc Hd. rewrite !includes_spec. intros (pre & post & ->).
  rewrite trim_keeps by done. eauto.
Qed.
End Strings.

(** ** The pattern against its description *)

(** Goals about ranges of code units: split every comparison, then
    arithmetic. *)
Ltac units :=
  repeat match goal with
         | |- context [?a <=? ?b] => destruct (N.leb_spec a b)
         | |- context [?a =? ?b] => destruct (N.eqb_spec a b)
         end;
  intros; cbn [andb orb negb] in *; try discriminate; try reflexivity;
  try lia.

Section Pattern.
Implicit Types s u lit m r pre post : jsstring.

Lemma matchLiteralCI_sound lit s m r :
  matchLiteralCI lit s = Some (m, r) → s = m ++ r ∧ sameCI lit m.
Proof.
  unfold sameCI. revert s m r.
  induction lit as [|a lit IH]; intros s m r; simpl.
  - destruct s; intros [= <- <-]; (split; [done|constructor]).
  - destruct s as [|b s]; [done|].
    destruct (eqUnitCI a b) eqn:Hab; [|done].
    destruct (matchLiteralCI lit s) as [[m' r']|] eqn:Hm; [|done].
    intros [= <- <-]. apply IH in Hm as [-> Hm].
    split; [done|by constructor].
Qed.

Lemma matchLiteralCI_complete lit m r :
  sameCI lit m → matchLiteralCI lit (m ++ r) = Some (m, r).
Proof.
  unfold sameCI. intros H.
  induction H as [|a b lit m Hab _ IH]; simpl.
  - by destruct r.
  - by rewrite Hab, IH.
Qed.

Lemma spanLabel_sound s l r :
  spanLabel s = (l, r) →
  s = l ++ r ∧ Forall (λ c, isLabelUnit c = true) l.
Proof.
  revert l r. induction s as [|c s IH]; intros l r; simpl.
  - intros [= <- <-]. split; [done|constructor].
  - destruct (isLabelUnit c) eqn:Hc.
    + destruct (spanLabel s) as [l' r'].
      intros [= <- <-]. destruct (IH l' r' eq_refl) as [-> Hl].
      split; [done|by constructor].
    + intros [= <- <-]. split; [done|constructor].
Qed.

Lemma spanLabel_app l d r :
  Forall (λ c, isLabelUnit c = true) l → isLabelUnit d = false →
  spanLabel (l ++ d :: r) = (l, d :: r).
Proof.
  intros Hl Hd. induction Hl as [|c l Hc _ IH]; simpl.
  - by rewrite Hd.
  - by rewrite Hc, IH.
Qed.

Lemma eqUnitCI_dot d : eqUnitCI 46 d = true → isLabelUnit d = false.
Proof. unfold eqUnitCI, upperUnit, isLabelUnit. units. Qed.

Lemma matchQuickAt_spec s u :
  matchQuickAt s = Some u ↔ QuickUrl u ∧ ∃ post, s = u ++ post.
Proof.
  unfold matchQuickAt. split.
  - destruct (matchLiteralCI _ s) as [[scheme r1]|] eqn:H1; [|done].
    apply matchLiteralCI_sound in H1 as [-> Hs].
    destruct (spanLabel r1) as [label r2] eqn:H2.
    apply spanLabel_sound in H2 as [-> Hl].
    destruct label as [|c label]; [done|].
    destruct (matchLiteralCI _ r2) as [[domain r3]|] eqn:H3; [|done].
    apply matchLiteralCI_sound in H3 as [-> Hd].
    intros [= <-]. split.
    + exists scheme, (c :: label), domain. done.
    + exists r3. by repeat (rewrite <- ?app_assoc; simpl).
  - intros [(scheme & label & domain & -> & Hs & Hne & Hl & Hd) [post ->]].
    rewrite <- !app_assoc.
    rewrite matchLiteralCI_complete by done.
    assert (∃ d domain', domain = d :: domain' ∧ isLabelUnit d = false)
      as (d & domain' & -> & Hdot).
    { inversion Hd; subst. eauto using eqUnitCI_dot. }
    change ((d :: domain') ++ post) with (d :: domain' ++ post).
    rewrite spanLabel_app by done.
    destruct label as [|c label]; [done|].
    change (d :: domain' ++ post) with ((d :: domain') ++ post).
    by rewrite matchLiteralCI_complete.
Qed.

Lemma quickTunnelMatch_unfold s :
  quickTunnelMatch s =
  match matchQuickAt s with
  | Some u => Some u
  | None => match s with [] => None | _ :: s' => quickTunnelMatch s' end
  end.
Proof. by destruct s. Qed.

Lemma quickTunnelMatch_complete pre u post :
  QuickUrl u → is_Some (quickTunnelMatch (pre ++ u ++ post)).
Proof.
  intros Hu. induction pre as [|c pre IH].
  - rewrite quickTunnelMatch_unfold.
    rewrite (proj2 (matchQuickAt_spec _ u)); [done|]. split; [done|].
    by exists post.
  - rewrite quickTunnelMatch_unfold.
    destruct (matchQuickAt _); [done|]. exact IH.
Qed.

Lemma quickTunnelMatch_sound s u :
  quickTunnelMatch s = Some u → FirstQuickUrl u s.
Proof.
  revert u. induction s as [|c s IH]; intros u; [done|].
  change (quickTunnelMatch (c :: s))
    with (match matchQuickAt (c :: s) with
          | Some u => Some u
          | None => quickTunnelMatch s
          end).
  destruct (matchQuickAt _) as [u'|] eqn:H.
  - intros [= ->]. apply matchQuickAt_spec in H as [Hu [post Hp]].
    exists [], post. split_and!; try done. intros; simpl; lia.
  - intros Hq. destruct (IH _ Hq) as (pre & post & -> & Hu & Hmin).
    exists (c :: pre), post. split_and!; try done.
    intros [|c' pre'] u' post' E Hu'; simpl in E.
    + assert (matchQuickAt (c :: pre ++ u ++ post) = Some u') as Hc.
      { apply matchQuickAt_spec. split; [done|]. by exists post'. }
      congruence.
    + injection E as <- E. simpl. apply le_n_S. by eapply Hmin.
Qed.
End Pattern.

(** ** White space around the pattern *)

Section TrimPattern.
Implicit Types s u : jsstring.

Lemma eqUnitCI_inv a c :
  eqUnitCI a c = true → c = upperUnit a ∨ c = upperUnit a + 32.
Proof.
  unfold eqUnitCI. generalize (upperUnit a) as b. intros b.
  unfold upperUnit. units.
Qed.

Lemma eqUnitCI_h c : eqUnitCI 104 c = true → isWhiteSpace c = false.
Proof. by intros [->| ->]%eqUnitCI_inv. Qed.

Lemma eqUnitCI_m c : eqUnitCI 109 c = true → isWhiteSpace c = false.
Proof. by intros [->| ->]%eqUnitCI_inv. Qed.

Lemma QuickUrl_ends u :
  QuickUrl u →
  ∃ c mid d, u = c :: mid ++ [d]
             ∧ isWhiteSpace c = false ∧ isWhiteSpace d = false.
Proof.
  intros (scheme & label & domain & -> & Hs & _ & _ & Hd).
  unfold sameCI in *.
  assert (∃ c scheme', scheme = c :: scheme' ∧ isWhiteSpace c = false)
    as (c & scheme' & -> & Hc).
  { inversion Hs; subst. eauto using eqUnitCI_h. }
  assert (∃ domain' d, domain = domain' ++ [d] ∧ isWhiteSpace d = false)
    as (domain' & d & -> & Hd').
  { change (str ".trycloudflare.com")
      with (str ".trycloudflare.co" ++ [109]) in Hd.
    apply Forall2_app_inv_l in Hd as (domain' & dl & _ & Hm & ->).
    inversion Hm as [|? d ? tl Hd Hnil]; subst. inversion Hnil; subst.
    eauto using eqUnitCI_m. }
  exists c, (scheme' ++ label ++ domain'), d. split; [|done].
  simpl. by rewrite <- !app_assoc.
Qed.
End TrimPattern.

Section TrimFirst.
Implicit Types s u data pre post : jsstring.

Lemma trimStart_length s : (List.length (trimStart s) ≤ List.length s)%nat.
Proof.
  destruct (trimStart_suffix s) as [a Ha].
  rewrite Ha at 2. rewrite length_app. lia.
Qed.

Lemma QuickUrl_trim pre u post :
  QuickUrl u →
  trim (pre ++ u ++ post) = trimStart pre ++ u ++ trimEnd post.
Proof.
  intros (c & mid & d & -> & Hc & Hd)%QuickUrl_ends. by apply trim_keeps.
Qed.

(** The white space [trim] strips in front of a line is the white
    space in front of whatever precedes a URL in it. *)
Lemma QuickUrl_leading pre u post :
  QuickUrl u →
  (List.length (pre ++ u ++ post)
   - List.length (trimStart (pre ++ u ++ post))
   = List.length pre - List.length (trimStart pre))%nat.
Proof.
  intros (c & mid & d & -> & Hc & Hd)%QuickUrl_ends.
  simpl. rewrite trimStart_app by done.
  pose proof (trimStart_length pre).
  rewrite !length_app. simpl. rewrite !length_app. simpl. lia.
Qed.

(** The pattern applied to the trimmed line finds the leftmost URL of
    the line as it was received. *)
Lemma quickTunnelMatch_trim data pre u post :
  data = pre ++ u ++ post → QuickUrl u →
  ∃ u', quickTunnelMatch (trim data) = Some u' ∧ FirstQuickUrl u' data.
Proof.
  intros -> Hu.
  destruct (quickTunnelMatch (trim (pre ++ u ++ post))) as [u'|] eqn:Hm.
  2: { rewrite QuickUrl_trim in Hm by done.
       pose proof (quickTunnelMatch_complete (trimStart pre) u
                     (trimEnd post) Hu) as [? Hs]. congruence. }
  exists u'. split; [done|].
  apply quickTunnelMatch_sound in Hm as (p & q & Htrim & Hu' & Hmin).
  set (data := pre ++ u ++ post) in *.
  destruct (trimStart_suffix data) as [a Ha].
  destruct (trimEnd_prefix (trimStart data)) as [b Hb].
  fold (trim data) in Hb. rewrite Htrim in Hb.
  exists (a ++ p), (q ++ b). split_and!.
  - rewrite Ha at 1. rewrite Hb. by rewrite <- !app_assoc.
  - done.
  - intros p2 u2 q2 E Hu2.
    assert (List.length p ≤ List.length (trimStart p2))%nat as Hle.
    { eapply Hmin; [|done]. rewrite E. by apply QuickUrl_trim. }
    pose proof (QuickUrl_leading p2 u2 q2 Hu2) as Hlead.
    rewrite <- E in Hlead.
    pose proof (trimStart_length p2).
    assert (List.length data
            = List.length a + List.length (trimStart data))%nat as Hla.
    { rewrite Ha at 1. by rewrite length_app. }
    rewrite length_app. lia.
Qed.
End TrimFirst.

(** The texts of the source are not computed with while reasoning. *)
Arguments str : simpl never.
Arguments includes : simpl never.
Arguments trim : simpl never.
Arguments toUpperCase : simpl never.
Arguments numToString : simpl never.
Arguments renderPath : simpl never.
Arguments quickTunnelMatch : simpl never.
Arguments codeToString : simpl never.
Arguments errToString : simpl never.
Arguments exePath : simpl never.
Arguments cloudflaredPath : simpl never.
Arguments serverExtractPath : simpl never.
Arguments serverZipPath : simpl never.
Arguments dbPath : simpl never.
Arguments initialDbPath : simpl never.
Arguments rmTree : simpl never.
Arguments unpack : simpl never.

(** ** Rules of the Hoare logic *)

Section Hoare.
Context {A B : Type}.
Implicit Types (P : World → Prop) (E : Err → World → Prop).

Lemma hoare_ret P (a : A) (Q : A → World → Prop) E :
  (∀ w, P w → Q a w) → hoare P (ret a) Q E.
Proof. intros H w Hw. by apply H. Qed.

Lemma hoare_throw P e (Q : A → World → Prop) E :
  (∀ w, P w → E e w) → hoare P (throw e) Q E.
Proof. intros H w Hw. by apply H. Qed.

Lemma hoare_gets P (f : World → A) (Q : A → World → Prop) E :
  (∀ w, P w → Q (f w) w) → hoare P (gets f) Q E.
Proof. intros H w Hw. by apply H. Qed.

Lemma hoare_modify P f (Q : unit → World → Prop) E :
  (∀ w, P w → Q tt (f w)) → hoare P (modify f) Q E.
Proof. intros H w Hw. by apply H. Qed.

Lemma hoare_bind P (R : A → World → Prop) (c : M A) (k : A → M B)
    (Q : B → World → Prop) E :
  hoare P c R E → (∀ a, hoare (R a) (k a) Q E) → hoare P (bind c k) Q E.
Proof.
  intros Hc Hk w Hw. unfold bind. specialize (Hc w Hw).
  destruct (c w) as [[a|e] w']; [by apply Hk|done].
Qed.

Lemma hoare_tryCatch P (body : M A) (h : Err → M A)
    (Q : A → World → Prop) (R : Err → World → Prop) E :
  hoare P body Q R → (∀ e, hoare (R e) (h e) Q E) →
  hoare P (tryCatch body h) Q E.
Proof.
  intros Hb Hh w Hw. unfold tryCatch. specialize (Hb w Hw).
  destruct (body w) as [[a|e] w']; [done|by apply Hh].
Qed.

Lemma hoare_conseq P P' (c : M A) (Q Q' : A → World → Prop) E E' :
  hoare P' c Q' E' →
  (∀ w, P w → P' w) → (∀ a w, Q' a w → Q a w) → (∀ e w, E' e w → E e w) →
  hoare P c Q E.
Proof.
  intros Hc HP HQ HE w Hw. specialize (Hc w (HP w Hw)).
  destruct (c w) as [[a|e] w']; auto.
Qed.
End Hoare.

Lemma hoare_when P b (c : M unit) (Q : unit → World → Prop) E :
  (b = true → hoare P c Q E) → (b = false → ∀ w, P w → Q tt w) →
  hoare P (when b c) Q E.
Proof. destruct b; intros H1 H2; [by apply H1|]. intros w Hw. by apply H2. Qed.

Lemma hoare_failing P o (Q : unit → World → Prop) E :
  (∀ w, P w → Q tt w) → (∀ e w, P w → E e w) → hoare P (failing o) Q E.
Proof. intros H1 H2 w Hw. destruct o; simpl; auto. Qed.

(** ** Frames: what an operation leaves alone *)

Section Keeps.
Context (P : World → Prop).

Lemma keeps_ret {A} (a : A) : keeps P (ret a).
Proof. by apply hoare_ret. Qed.
Lemma keeps_throw {A} e : keeps P (throw (A:=A) e).
Proof. by apply hoare_throw. Qed.
Lemma keeps_gets {A} (f : World → A) : keeps P (gets f).
Proof. by apply hoare_gets. Qed.
Lemma keeps_modify f : (∀ w, P w → P (f w)) → keeps P (modify f).
Proof. exact (hoare_modify P f (λ _, P) (λ _, P)). Qed.
Lemma keeps_bind {A B} (c : M A) (k : A → M B) :
  keeps P c → (∀ a, keeps P (k a)) → keeps P (bind c k).
Proof. intros. by eapply hoare_bind. Qed.
Lemma keeps_tryCatch {A} (body : M A) h :
  keeps P body → (∀ e, keeps P (h e)) → keeps P (tryCatch body h).
Proof. intros. by eapply hoare_tryCatch. Qed.
Lemma keeps_when b c : keeps P c → keeps P (when b c).
Proof. intros. apply hoare_when; auto. Qed.
Lemma keeps_failing o : keeps P (failing o).
Proof. apply hoare_failing; auto. Qed.
End Keeps.

(** An operation keeps a property of parts of the world it does not
    write: the rules are applied along the program, every branch on its
    own; an assignment keeps the property by computation. *)
Ltac keeps_step leaf :=
  lazymatch goal with
  | |- keeps _ (ret _) => apply keeps_ret
  | |- keeps _ (throw _) => apply keeps_throw
  | |- keeps _ (gets _) => apply keeps_gets
  | |- keeps _ (failing _) => apply keeps_failing
  | |- keeps _ (bind _ _) => apply keeps_bind
  | |- keeps _ (tryCatch _ _) => apply keeps_tryCatch
  | |- keeps _ (when _ _) => apply keeps_when
  | |- keeps _ (modify _) =>
      apply keeps_modify; let w := fresh "w" in let H := fresh "H" in
                          intros w H; leaf H
  | |- keeps _ (match ?x with _ => _ end) => destruct x
  | |- keeps _ (let _ := _ in _) => cbv zeta
  | |- ∀ _, _ => intro; cbv beta
  end.

Ltac unfold_runtime :=
  unfold logger, existsSync, rmSync, mkdirSync, extractAllTo, copyFileSync,
    checkDatabase, spawn, kill, onExit, setPhase, updProc, newStopCall,
    clearTimeout, resolve.

Ltac unfold_server :=
  unfold ServerManager.start, ServerManager.start_try,
    ServerManager.start_catch, ServerManager.stop, ServerManager.stop_onExit,
    ServerManager.stop_onTimeout, ServerManager.onClose,
    ServerManager.onError, ServerManager.onStderr, ServerManager.onStdout,
    ServerManager.spawnServer, ServerManager.ensureDatabase,
    ServerManager.extractServerIfNeeded, ServerManager.setStatus,
    ServerManager.emitError, ServerManager.emit,
    ServerManager.assignStatus, ServerManager.assignProcess,
    ServerManager.assignPort.

Ltac unfold_tunnel :=
  unfold TunnelManager.start, TunnelManager.stop, TunnelManager.stop_onExit,
    TunnelManager.stop_onTimeout, TunnelManager.onClose,
    TunnelManager.onError, TunnelManager.onData,
    TunnelManager.parseTunnelOutput, TunnelManager.isCloudflaredAvailable,
    TunnelManager.setStatus, TunnelManager.emitError, TunnelManager.emit,
    TunnelManager.assignStatus, TunnelManager.assignProcess,
    TunnelManager.assignUrl.

Ltac keeps_go_with leaf :=
  unfold_server; unfold_tunnel; unfold_runtime; repeat keeps_step leaf.

Ltac keeps_go := keeps_go_with ltac:(fun H => exact H).

(** Run a program of the monad on the world it is applied to. *)
Ltac exec :=
  cbv [bind gets modify ret when throw tryCatch failing]; cbn.

(** The same for an operation inside a triple. *)
Ltac run_op :=
  unfold keeps, hoare; intros w; unfold_server; unfold_tunnel;
  unfold_runtime; cbn.

Section KeepsOnThrow.
Context (P : World → Prop).

Lemma keepsOnThrow_ret {A} (a : A) : keepsOnThrow P (ret a).
Proof. by apply hoare_ret. Qed.
Lemma keepsOnThrow_throw {A} e : keepsOnThrow P (throw (A:=A) e).
Proof. by apply hoare_throw. Qed.
Lemma keepsOnThrow_modify f : keepsOnThrow P (modify f).
Proof. by apply hoare_modify. Qed.
Lemma keepsOnThrow_bind {A B} (c : M A) (k : A → M B) :
  keeps P c → (∀ a, keepsOnThrow P (k a)) → keepsOnThrow P (bind c k).
Proof. intros. by eapply hoare_bind. Qed.
End KeepsOnThrow.

Lemma hoare_True {A} P (c : M A) : hoare P c (λ _ _, True) (λ _ _, True).
Proof. intros w _. by destruct (c w) as [[?|?] ?]. Qed.

(** A postcondition established by [c] and kept by what follows. *)
Lemma hoare_then_keeps {A B} P R (c : M A) (k : A → M B) :
  hoare P c (λ _, R) (λ _, R) → (∀ a, keeps R (k a)) →
  hoare P (bind c k) (λ _, R) (λ _, R).
Proof. intros. by eapply hoare_bind. Qed.

(** ** The event loop keeps what every listener and operation keeps *)

Section StepKeeps.
Context (P : World → Prop).
Hypothesis server_start : ∀ f, keeps P (ServerManager.start f).
Hypothesis server_stop : keeps P ServerManager.stop.
Hypothesis server_onStdout : ∀ d, keeps P (ServerManager.onStdout d).
Hypothesis server_onStderr : ∀ d, keeps P (ServerManager.onStderr d).
Hypothesis server_onError : ∀ e, keeps P (ServerManager.onError e).
Hypothesis server_onClose : ∀ c, keeps P (ServerManager.onClose c).
Hypothesis server_onExit : ∀ k, keeps P (ServerManager.stop_onExit k).
Hypothesis server_onTimeout : ∀ k, keeps P (ServerManager.stop_onTimeout k).
Hypothesis tunnel_start : ∀ p f, keeps P (TunnelManager.start p f).
Hypothesis tunnel_stop : keeps P TunnelManager.stop.
Hypothesis tunnel_onData : ∀ d, keeps P (TunnelManager.onData d).
Hypothesis tunnel_onError : ∀ e, keeps P (TunnelManager.onError e).
Hypothesis tunnel_onClose : ∀ c, keeps P (TunnelManager.onClose c).
Hypothesis tunnel_onExit : ∀ k, keeps P (TunnelManager.stop_onExit k).
Hypothesis tunnel_onTimeout : ∀ k, keeps P (TunnelManager.stop_onTimeout k).
Hypothesis frame_uncaught : ∀ g w, P w → P (withUncaught g w).
Hypothesis frame_procs : ∀ g w, P w → P (withProcs g w).
Hypothesis frame_stops : ∀ g w, P w → P (withStops g w).

Lemma call_keeps {A} (c : M A) w : keeps P c → P w → P (call c w).
Proof.
  intros Hc Hw. specialize (Hc w Hw). unfold call.
  by destruct (c w) as [[?|?] ?].
Qed.

Lemma dispatch_keeps c w : keeps P c → P w → P (dispatch c w).
Proof using frame_uncaught.
  intros Hc Hw. specialize (Hc w Hw). unfold dispatch.
  destruct (c w) as [[?|?] ?]; auto.
Qed.

Lemma exitListeners_keep o ks w :
  P w → P (foldl (λ acc k, dispatch (exitListener o k) acc) w ks).
Proof using frame_uncaught server_onExit tunnel_onExit.
  revert w. induction ks as [|k ks IH]; intros w Hw; simpl; [done|].
  apply IH. apply dispatch_keeps; [|done]. destruct o; simpl; auto.
Qed.

Lemma step_keeps i w : P w → P (step i w).
Proof using All.
  intros Hw. destruct i; simpl;
    repeat match goal with
           | |- P (match ?x with _ => _ end) => destruct x
           end;
    try done;
    try (apply call_keeps; [|done]; auto);
    try (apply dispatch_keeps; [auto|]);
    try (apply exitListeners_keep);
    first [done | by apply frame_procs | by apply frame_stops].
Qed.
End StepKeeps.

Lemma step_noErrorListener i w : noErrorListener w → noErrorListener (step i w).
Proof.
  apply step_keeps; unfold noErrorListener; intros;
    first [assumption | by keeps_go].
Qed.

Lemma reachable_noErrorListener w : reachable w → noErrorListener w.
Proof.
  induction 1 as [h files c|i w _ IH]; [done|by apply step_noErrorListener].
Qed.

(** ** Status and handle

    The invariant of the reachable worlds, one operation at a time. *)

(** *** The server manager *)

Lemma onStdout_InvS d : keeps (λ w, InvS (server w)) (ServerManager.onStdout d).
Proof.
  run_op. unfold InvS. intros (H1 & H2 & H3).
  destruct (_ || _); cbn; split_and!; done.
Qed.

Lemma onClose_InvS c : keeps (λ w, InvS (server w)) (ServerManager.onClose c).
Proof.
  run_op. unfold InvS. intros (H1 & H2 & H3).
  case_bool_decide; cbn; split_and!; done.
Qed.

Lemma onError_InvS e : keeps (λ w, InvS (server w)) (ServerManager.onError e).
Proof.
  run_op. unfold InvS. intros (H1 & H2 & H3).
  destruct (s_errorListeners _); cbn; split_and!; done.
Qed.

Lemma stop_InvS : keeps (λ w, InvS (server w)) ServerManager.stop.
Proof.
  run_op. unfold InvS, ServerManager.handle. intros (H1 & H2 & H3).
  destruct (serverProcess _) eqn:E; cbn; split_and!; first [done|congruence].
Qed.

Lemma onExit_InvS k : keeps (λ w, InvS (server w)) (ServerManager.stop_onExit k).
Proof. run_op. unfold InvS. intros _. split_and!; done. Qed.

Lemma onTimeout_InvS k : keeps (λ w, InvS (server w)) (ServerManager.stop_onTimeout k).
Proof.
  run_op. unfold InvS, ServerManager.handle. intros (H1 & H2 & H3).
  destruct (serverProcess _) eqn:E; cbn; split_and!; first [done|congruence].
Qed.

Lemma server_setStatus_sets s :
  hoare (λ _, True) (ServerManager.setStatus s)
        (λ _ w, ServerManager.status w = s) (λ _ w, ServerManager.status w = s).
Proof. by run_op. Qed.

Lemma spawnServer_status f :
  hoare (λ _, True) (ServerManager.spawnServer f)
        (λ _ w, ServerManager.status w = starting)
        (λ _ w, ServerManager.status w = starting).
Proof.
  unfold ServerManager.spawnServer. apply hoare_then_keeps.
  - apply server_setStatus_sets.
  - intros ?. unfold ServerManager.status. keeps_go.
Qed.

Lemma server_start_unguarded f w :
  ServerManager.status w ≠ running → ServerManager.status w ≠ starting →
  ServerManager.start f w = startUnguarded f w.
Proof.
  intros Hr Hs. unfold ServerManager.start, bind at 1, gets at 1.
  by rewrite !bool_decide_eq_false_2.
Qed.

Lemma server_start_guarded f w :
  ServerManager.status w = running ∨ ServerManager.status w = starting →
  ServerManager.start f w
  = ServerManager.emit
      (Log (str "Server start requested but already running/starting.")) w.
Proof.
  intros H. unfold ServerManager.start, bind at 1, gets at 1.
  by destruct H as [-> | ->].
Qed.

Lemma hoare_pure {A} (c : M A) E :
  (∀ w, ∃ a w', c w = (Ok a, w')) → hoare (λ _, True) c (λ _ _, True) E.
Proof. intros H w _. by destruct (H w) as (a & w' & ->). Qed.

Ltac pure_step :=
  eapply hoare_bind;
  [apply hoare_pure; intros ?; eexists _, _; reflexivity|intros ?; cbv beta].

Lemma start_catch_status e :
  hoare (λ _, True) (ServerManager.start_catch e)
        (λ _ w, ServerManager.status w = error)
        (λ _ w, ServerManager.status w = error).
Proof.
  unfold ServerManager.start_catch. cbv zeta.
  pure_step. pure_step.
  apply hoare_then_keeps.
  - eapply hoare_conseq; [apply server_setStatus_sets|done..].
  - intros ?. unfold ServerManager.status. keeps_go.
Qed.

(** However [start()] ends once it has passed its guard, the status is
    [starting] or [error]. *)
Lemma startUnguarded_status f :
  hoare (λ _, True) (startUnguarded f)
        (λ _ w, ServerManager.status w = starting
                ∨ ServerManager.status w = error)
        (λ _ w, ServerManager.status w = error).
Proof.
  unfold startUnguarded.
  pure_step. pure_step.
  eapply hoare_tryCatch with (R := λ _ _, True).
  - unfold ServerManager.start_try.
    eapply hoare_bind; [apply hoare_True|intros ?; cbv beta].
    eapply hoare_bind; [apply hoare_True|intros ?; cbv beta].
    eapply hoare_bind; [apply hoare_True|intros ?; cbv beta].
    eapply hoare_conseq; [apply spawnServer_status|simpl; auto..].
  - intros e. eapply hoare_conseq; [apply start_catch_status|simpl; auto..].
Qed.

Lemma start_InvS f : keeps (λ w, InvS (server w)) (ServerManager.start f).
Proof.
  intros w Hw.
  destruct (decide (ServerManager.status w = running
                    ∨ ServerManager.status w = starting)) as [Hb|Hb].
  - rewrite server_start_guarded by done.
    assert (keeps (λ w, InvS (server w))
              (ServerManager.emit (Log (str "Server start requested but already running/starting."))))
      as H by keeps_go.
    exact (H w Hw).
  - rewrite server_start_unguarded by tauto.
    pose proof (startUnguarded_status f w I) as H.
    destruct (startUnguarded f w) as [[[]|e] w']; unfold InvS;
      unfold ServerManager.status in H.
    + destruct H as [H|H]; rewrite H; split_and!; done.
    + rewrite H; split_and!; done.
Qed.

(** *** The tunnel manager *)

Lemma tunnel_setStatus_sets s E :
  hoare (λ _, True) (TunnelManager.setStatus s)
        (λ _ w, TunnelManager.status w = s) E.
Proof. by run_op. Qed.

Lemma tunnel_onData_InvT d : keeps (λ w, InvT (tunnel w)) (TunnelManager.onData d).
Proof.
  keeps_go_with ltac:(fun H => first [exact H | by cbn]).
Qed.

Lemma tunnel_onError_InvT e : keeps (λ w, InvT (tunnel w)) (TunnelManager.onError e).
Proof.
  keeps_go_with ltac:(fun H => first [exact H | by cbn]).
Qed.

Lemma tunnel_onClose_InvT c : keeps (λ w, InvT (tunnel w)) (TunnelManager.onClose c).
Proof. run_op. unfold InvT. intros H. case_bool_decide; cbn; done. Qed.

Lemma tunnel_stop_InvT : keeps (λ w, InvT (tunnel w)) TunnelManager.stop.
Proof.
  run_op. unfold InvT, TunnelManager.handle. intros H.
  destruct (tunnelProcess _) eqn:E; cbn; first [done|congruence].
Qed.

Lemma tunnel_onExit_InvT k : keeps (λ w, InvT (tunnel w)) (TunnelManager.stop_onExit k).
Proof. by run_op. Qed.

Lemma tunnel_onTimeout_InvT k :
  keeps (λ w, InvT (tunnel w)) (TunnelManager.stop_onTimeout k).
Proof.
  run_op. unfold InvT, TunnelManager.handle. intros H.
  destruct (tunnelProcess _) eqn:E; cbn; first [done|congruence].
Qed.

Lemma keeps_intro {A} P (c : M A) : keeps P c → hoare P c (λ _, P) (λ _, P).
Proof. done. Qed.

(** However [TunnelManager.start] ends, the status is not [idle]. *)
Lemma tunnel_start_status p f :
  hoare (λ _, True) (TunnelManager.start p f)
        (λ _ w, TunnelManager.status w ≠ TunnelStatus.idle)
        (λ _ w, TunnelManager.status w ≠ TunnelStatus.idle).
Proof.
  unfold TunnelManager.start.
  eapply hoare_bind with (R := λ st w, st = TunnelManager.status w).
  { by apply hoare_gets. }
  intros st. destruct (bool_decide (st = _) || bool_decide (st = _)) eqn:Hg.
  - intros w ->. cbn.
    apply orb_true_iff in Hg as [Hg|Hg]; apply bool_decide_eq_true in Hg;
      unfold TunnelManager.status in Hg; by rewrite Hg.
  - eapply hoare_conseq with (P' := λ _, True)
      (Q' := λ _ w, TunnelManager.status w = TunnelStatus.starting
                    ∨ TunnelManager.status w = TunnelStatus.error)
      (E' := λ _ w, TunnelManager.status w = TunnelStatus.error);
      [|done|intros ? ? [->| ->]; done|by intros ? ? ->].
    pure_step. pure_step.
    match goal with |- hoare _ (if ?b then _ else _) _ _ => destruct b end.
    + by run_op.
    + eapply hoare_bind
        with (R := λ _ w, TunnelManager.status w = TunnelStatus.starting).
      { apply tunnel_setStatus_sets. }
      intros ?; cbv beta.
      eapply hoare_bind
        with (R := λ _ w, TunnelManager.status w = TunnelStatus.starting).
      { apply hoare_modify. intros w H. exact H. }
      intros ?; cbv beta.
      eapply hoare_tryCatch with (R := λ _ _, True).
      * eapply hoare_conseq
          with (P' := λ w, TunnelManager.status w = TunnelStatus.starting)
               (Q' := λ _ w, TunnelManager.status w = TunnelStatus.starting)
               (E' := λ _ w, TunnelManager.status w = TunnelStatus.starting);
          [|done|by left|done].
        apply keeps_intro. unfold TunnelManager.status. keeps_go.
      * intros e. by run_op.
Qed.

Lemma tunnel_start_InvT p f :
  keeps (λ w, InvT (tunnel w)) (TunnelManager.start p f).
Proof.
  intros w _. pose proof (tunnel_start_status p f w I) as H.
  destruct (TunnelManager.start p f w) as [[[]|e] w']; by intros ?.
Qed.

Lemma keeps_and {A} P Q (c : M A) : keeps P c → keeps Q c → keeps (λ w, P w ∧ Q w) c.
Proof.
  intros HP HQ w [Hp Hq]. specialize (HP w Hp). specialize (HQ w Hq).
  by destruct (c w) as [[?|?] ?].
Qed.

Lemma step_Inv i w : Inv w → Inv (step i w).
Proof.
  apply step_keeps; unfold Inv; intros; try assumption; apply keeps_and;
    first [ by keeps_go
          | auto using start_InvS, stop_InvS, onStdout_InvS, onError_InvS,
              onClose_InvS, onExit_InvS, onTimeout_InvS, tunnel_start_InvT,
              tunnel_stop_InvT, tunnel_onData_InvT, tunnel_onError_InvT,
              tunnel_onClose_InvT, tunnel_onExit_InvT, tunnel_onTimeout_InvT ].
Qed.

Lemma reachable_Inv w : reachable w → Inv w.
Proof.
  induction 1 as [h files c|i w _ IH]; [|by apply step_Inv].
  split; [split_and!|]; done.
Qed.

Lemma reachable_run inputs w : reachable w → reachable (run inputs w).
Proof.
  revert w. induction inputs as [|i inputs IH]; intros w Hw; [done|].
  apply IH. by constructor.
Qed.

(** *** A handle while [starting] *)

Lemma spawnServer_handle f :
  hoare (λ _, True) (ServerManager.spawnServer f)
        (λ _ w, is_Some (ServerManager.handle w)) (λ _ _, True).
Proof.
  intros w _. unfold_server; unfold_runtime; exec.
  destruct (bool_decide _); exec; [|done].
  destruct (spawnFault f); exec; done.
Qed.

Lemma startUnguarded_handle f :
  hoare (λ _, True) (startUnguarded f)
        (λ _ w, is_Some (ServerManager.handle w)
                ∨ ServerManager.status w = error)
        (λ _ w, ServerManager.status w = error).
Proof.
  unfold startUnguarded.
  pure_step. pure_step.
  eapply hoare_tryCatch with (R := λ _ _, True).
  - unfold ServerManager.start_try.
    eapply hoare_bind; [apply hoare_True|intros ?; cbv beta].
    eapply hoare_bind; [apply hoare_True|intros ?; cbv beta].
    eapply hoare_bind; [apply hoare_True|intros ?; cbv beta].
    eapply hoare_conseq; [apply spawnServer_handle|simpl; auto..].
  - intros e. eapply hoare_conseq; [apply start_catch_status|simpl; auto..].
Qed.

Lemma start_StartS f : keeps (λ w, StartS (server w)) (ServerManager.start f).
Proof.
  intros w Hw.
  destruct (decide (ServerManager.status w = running
                    ∨ ServerManager.status w = starting)) as [Hb|Hb].
  - rewrite server_start_guarded by done.
    assert (keeps (λ w, StartS (server w))
              (ServerManager.emit (Log (str "Server start requested but already running/starting."))))
      as H by keeps_go.
    exact (H w Hw).
  - rewrite server_start_unguarded by tauto.
    pose proof (startUnguarded_handle f w I) as H.
    destruct (startUnguarded f w) as [[[]|e] w']; unfold StartS;
      unfold ServerManager.status, ServerManager.handle in H.
    + destruct H as [H|H]; [done|]. by rewrite H.
    + by rewrite H.
Qed.

Lemma server_ops_StartS :
  keeps (λ w, StartS (server w)) ServerManager.stop
  ∧ (∀ d, keeps (λ w, StartS (server w)) (ServerManager.onStdout d))
  ∧ (∀ d, keeps (λ w, StartS (server w)) (ServerManager.onStderr d))
  ∧ (∀ e, keeps (λ w, StartS (server w)) (ServerManager.onError e))
  ∧ (∀ c, keeps (λ w, StartS (server w)) (ServerManager.onClose c))
  ∧ (∀ k, keeps (λ w, StartS (server w)) (ServerManager.stop_onExit k))
  ∧ (∀ k, keeps (λ w, StartS (server w)) (ServerManager.stop_onTimeout k)).
Proof.
  split_and!; intros; run_op; unfold StartS, ServerManager.handle; intros H.
  - destruct (serverProcess _) eqn:E; cbn; [done|intros Hs; by destruct (H Hs)].
  - destruct (_ || _); cbn; done.
  - done.
  - destruct (s_errorListeners _); cbn; done.
  - case_bool_decide as Hst; cbn; [|done].
    unfold ServerManager.status in Hst. cbn in Hst. congruence.
  - done.
  - destruct (serverProcess _) eqn:E; cbn; [done|intros Hs; by destruct (H Hs)].
Qed.

Lemma tunnel_start_StartT p f :
  keeps (λ w, StartT (tunnel w)) (TunnelManager.start p f).
Proof.
  run_op. unfold StartT. intros H.
  destruct (_ || _); exec; [done|].
  destruct (bool_decide (is_Some _)); exec; [|done].
  destruct (tunneling (config w)) as [[? ? [tok|] ?]|]; exec;
    try destruct (truthy tok); exec;
    destruct (spawnFault f); exec; done.
Qed.

Lemma tunnel_ops_StartT :
  keeps (λ w, StartT (tunnel w)) TunnelManager.stop
  ∧ (∀ d, keeps (λ w, StartT (tunnel w)) (TunnelManager.onData d))
  ∧ (∀ e, keeps (λ w, StartT (tunnel w)) (TunnelManager.onError e))
  ∧ (∀ c, keeps (λ w, StartT (tunnel w)) (TunnelManager.onClose c))
  ∧ (∀ k, keeps (λ w, StartT (tunnel w)) (TunnelManager.stop_onExit k))
  ∧ (∀ k, keeps (λ w, StartT (tunnel w)) (TunnelManager.stop_onTimeout k)).
Proof.
  split_and!; intros.
  - run_op. unfold StartT, TunnelManager.handle. intros H.
    destruct (tunnelProcess _) eqn:E; cbn; [done|intros Hs; by destruct (H Hs)].
  - keeps_go_with ltac:(fun H => first [exact H | by cbn]).
  - keeps_go_with ltac:(fun H => first [exact H | by cbn]).
  - run_op. unfold StartT. intros H. case_bool_decide as Hst; cbn; [|done].
    unfold TunnelManager.status in Hst. cbn in Hst. congruence.
  - by run_op.
  - run_op. unfold StartT, TunnelManager.handle. intros H.
    destruct (tunnelProcess _) eqn:E; cbn; [done|intros Hs; by destruct (H Hs)].
Qed.

Lemma step_startingHeld i w : startingHeld w → startingHeld (step i w).
Proof.
  destruct server_ops_StartS as (? & ? & ? & ? & ? & ? & ?).
  destruct tunnel_ops_StartT as (? & ? & ? & ? & ? & ?).
  apply step_keeps; unfold startingHeld; intros; try assumption;
    apply keeps_and;
    first [ by keeps_go
          | auto using start_StartS, tunnel_start_StartT ].
Qed.

Lemma reachable_startingHeld w : reachable w → startingHeld w.
Proof.
  induction 1 as [h files c|i w _ IH]; [|by apply step_startingHeld].
  split; by intros ?.
Qed.




(** ** Unexpected exit *)

(** C7: when a child closes while the status is not [stopping], the
    status becomes [idle], never [error], whatever the exit code, and the
    handle is cleared; the tunnel forgets its URL as well. *)
Theorem close_while_not_stopping (w : World) (code : option N) :
  (ServerManager.status w ≠ stopping →
     ∃ w', ServerManager.onClose code w = (Ok tt, w')
           ∧ ServerManager.status w' = idle
           ∧ ServerManager.handle w' = None
           ∧ ServerManager.emitted w'
             = ServerManager.emitted w
               ++ [StatusChange idle; Log (str "Status changed to: IDLE")])
  ∧ (TunnelManager.status w ≠ TunnelStatus.stopping →
       ∃ w', TunnelManager.onClose code w = (Ok tt, w')
             ∧ TunnelManager.status w' = TunnelStatus.idle
             ∧ TunnelManager.handle w' = None
             ∧ TunnelManager.url w' = None
             ∧ TunnelManager.emitted w'
               = TunnelManager.emitted w
                 ++ [UrlChange None; StatusChange TunnelStatus.idle]).
Proof.
  split; intros H; eexists; unfold_server; unfold_tunnel; unfold_runtime; cbn;
    rewrite bool_decide_eq_false_2 by done; cbn;
    (split; [reflexivity|]); cbn; split_and!; try done;
    by rewrite <- ?app_assoc.
Qed.

Lemma close_while_not_stopping_witness :
  ServerManager.status Sample.bothUp ≠ stopping
  ∧ ServerManager.status
      (step (ProcClose 0 (Some 1)) Sample.bothUp) = idle
  ∧ ∃ w', ServerManager.onClose (Some 1) Sample.bothUp = (Ok tt, w')
          ∧ ServerManager.status w' = idle.
Proof.
  assert (ServerManager.status Sample.bothUp ≠ stopping) as Hs
    by (vm_compute; discriminate).
  split; [exact Hs|]. split; [vm_compute; reflexivity|].
  destruct (proj1 (close_while_not_stopping Sample.bothUp (Some 1)) Hs)
    as (w' & Hw & Hi & _).
  exists w'. split; [exact Hw|exact Hi].
Defined.

(** ** A second [start()] *)

(** C8: [start()] called while the status is [running] or [starting]
    returns normally and changes nothing but the list of emitted events,
    which gains one log line: no child is spawned, no file is touched. *)
Theorem start_while_active_is_noop (w : World) (f : Faults) (p : N) :
  (ServerManager.status w = running ∨ ServerManager.status w = starting →
     ServerManager.start f w
     = (Ok tt,
        mkWorld (host w) (fs w) (config w) (logfile w) (procs w) (stops w)
          (uncaught w)
          (mkServerFields (s_status (server w)) (serverProcess (server w))
             (port (server w))
             (s_emitted (server w)
              ++ [Log (str "Server start requested but already running/starting.")])
             (s_errorListeners (server w)))
          (tunnel w)))
  ∧ (TunnelManager.status w = TunnelStatus.running
     ∨ TunnelManager.status w = TunnelStatus.starting →
       TunnelManager.start p f w
       = (Ok tt,
          mkWorld (host w) (fs w) (config w) (logfile w) (procs w) (stops w)
            (uncaught w) (server w)
            (mkTunnelFields (t_status (tunnel w)) (tunnelProcess (tunnel w))
               (tunnelUrl (tunnel w))
               (t_emitted (tunnel w)
                ++ [Log (str "Tunnel already running or starting.")])
               (t_errorListeners (tunnel w))))).
Proof.
  split; intros H.
  - by rewrite server_start_guarded.
  - unfold TunnelManager.start, bind at 1, gets at 1.
    by destruct H as [-> | ->].
Qed.

Lemma start_while_active_is_noop_witness :
  ServerManager.status Sample.bothUp = starting
  ∧ procs (call (ServerManager.start noFaults) Sample.bothUp)
    = procs Sample.bothUp
  ∧ fs (call (ServerManager.start noFaults) Sample.bothUp)
    = fs Sample.bothUp.
Proof.
  assert (ServerManager.status Sample.bothUp = starting) as Hs
    by (vm_compute; reflexivity).
  split; [exact Hs|]. unfold call.
  rewrite (proj1 (start_while_active_is_noop Sample.bothUp noFaults 4000)
             (or_intror Hs)).
  split; reflexivity.
Defined.

(** ** Readiness of the primary service *)

(** What the [stdout] listener does with a chunk whose trimmed text has
    one of the two markers. *)
Lemma onStdout_marker w data :
  includes (str "Nest application successfully started") (trim data)
  || includes (str "listening on port " ++ numToString (port (server w)))
              (trim data) = true →
  ∃ w', ServerManager.onStdout data w = (Ok tt, w')
        ∧ ServerManager.status w' = running
        ∧ ServerManager.handle w' = ServerManager.handle w
        ∧ ServerManager.emitted w'
          = ServerManager.emitted w
            ++ [Log (trim data); StatusChange running;
                Log (str "Status changed to: RUNNING")].
Proof.
  intros H. eexists. unfold_server; unfold_runtime; cbn. rewrite H. cbn.
  split; [reflexivity|]. cbn. split_and!; try done.
  by rewrite <- !app_assoc.
Qed.

(** C10: a chunk of the primary service's [stdout] that contains
    [Nest application successfully started] promotes the status to
    [running], whether or not it has the [listening on port] phrase. *)
Theorem nest_marker_promotes (w : World) (data : jsstring) :
  includes (str "Nest application successfully started") data = true →
  ∃ w', ServerManager.onStdout data w = (Ok tt, w')
        ∧ ServerManager.status w' = running
        ∧ StatusChange running ∈ drop (List.length (ServerManager.emitted w))
                                      (ServerManager.emitted w').
Proof.
  intros H.
  (* the marker begins with [N] and ends with [d]: trimming keeps it *)
  eapply (includes_trim _ _ 78 (str "est application successfully starte") 100)
    in H; [|done..].
  destruct (onStdout_marker w data) as (w' & Hr & Hs & _ & He).
  { by rewrite H. }
  exists w'. split_and!; try done.
  rewrite He, drop_app_length. set_solver.
Qed.

Lemma nest_marker_promotes_witness :
  let line := str "[Nest] 4242  - LOG Nest application successfully started" in
  includes (str "listening on port " ++ numToString 4000) line = false
  ∧ ServerManager.status (step (ProcStdout 0 line) Sample.bothUp) = running
  ∧ ∃ w', ServerManager.onStdout line Sample.bothUp = (Ok tt, w')
          ∧ ServerManager.status w' = running.
Proof.
  intros line. split; [reflexivity|]. split; [reflexivity|].
  destruct (nest_marker_promotes Sample.bothUp line) as (w' & Hr & Hs & _).
  { reflexivity. }
  by exists w'.
Defined.

(** ** Readiness of the tunnel *)

Lemma quickTunnelMatch_truthy s u : quickTunnelMatch s = Some u → truthy u = true.
Proof.
  intros (_ & _ & _ & Hu & _)%quickTunnelMatch_sound.
  by apply QuickUrl_ends in Hu as (c & mid & d & -> & _).
Qed.

(** What the output listener of the tunnel does with a chunk in whose
    trimmed text the pattern finds [u]. *)
Lemma onData_quick w data u :
  quickTunnelMatch (trim data) = Some u →
  ∃ w' rest,
    TunnelManager.onData data w = (Ok tt, w')
    ∧ TunnelManager.status w' = TunnelStatus.running
    ∧ TunnelManager.url w' = Some u
    ∧ persistedUrl w' = Some u
    ∧ TunnelManager.emitted w'
      = TunnelManager.emitted w
        ++ [Log (str "[Tunnel] " ++ trim data); Log (str "Tunnel URL: " ++ u);
            UrlChange (Some u); StatusChange TunnelStatus.running]
        ++ rest.
Proof.
  intros Hm. pose proof (quickTunnelMatch_truthy _ _ Hm) as Hu.
  unfold_tunnel; unfold_runtime; exec. rewrite Hm. exec.
  destruct (includes (str "Connection") (trim data)
            && includes (str "registered") (trim data)); exec;
    rewrite ?Hu; exec;
    try destruct (includes (str "trycloudflare") u); exec;
    (destruct (includes (str "failed") (trim data)
               || includes (str "error") (trim data)); exec;
     rewrite ?Hu; exec);
    eexists _, _; (split; [reflexivity|]); cbn; split_and!; try done;
    rewrite <- ?app_assoc; cbn; repeat f_equal.
  all: try by instantiate (1 := []).
  all: reflexivity.
Qed.

(** What the output listener of the tunnel does with a chunk whose
    trimmed text has the marker of a named tunnel. *)
Lemma onData_registered w data :
  includes (str "Connection") (trim data)
  && includes (str "registered") (trim data) = true →
  ∃ w', TunnelManager.onData data w = (Ok tt, w')
        ∧ StatusChange TunnelStatus.running
          ∈ drop (List.length (TunnelManager.emitted w))
                 (TunnelManager.emitted w')
        ∧ TunnelManager.status w'
          = if (includes (str "failed") (trim data)
                || includes (str "error") (trim data))
               && negb (truthyOpt (TunnelManager.url w'))
            then TunnelStatus.error else TunnelStatus.running.
Proof.
  unfold TunnelManager.url. intros Hc.
  unfold_tunnel; unfold_runtime; exec.
  destruct (quickTunnelMatch (trim data)) as [u'|] eqn:Hm; exec; rewrite Hc;
    exec.
  - pose proof (quickTunnelMatch_truthy _ _ Hm) as Hu'.
    rewrite Hu'. exec.
    destruct (includes (str "trycloudflare") u'); exec;
      (destruct (includes (str "failed") (trim data)
                 || includes (str "error") (trim data)); exec;
       rewrite ?Hu'; exec);
      (eexists; split; [reflexivity|]); cbn; rewrite ?Hu'; cbn;
      (split; [|done]); rewrite <- !app_assoc, drop_app_length; cbn;
      rewrite !elem_of_cons; tauto.
  - destruct (cfgTunnelUrl _) as [saved|]; exec;
      [destruct (truthy saved) eqn:Hts; exec;
       [destruct (includes (str "trycloudflare") saved); exec|]|];
      (destruct (includes (str "failed") (trim data)
                 || includes (str "error") (trim data)); exec;
       rewrite ?Hts; exec;
       try (destruct (truthyOpt (tunnelUrl (tunnel w))) eqn:Hu; exec));
      (eexists; split; [reflexivity|]); cbn; rewrite ?Hts, ?Hu; cbn;
      (split; [|done]); rewrite <- !app_assoc, drop_app_length; cbn;
      rewrite !elem_of_cons; tauto.
Qed.




(** C9: from a chunk of the tunnel's output that contains a URL of the
    quick-tunnel form, the leftmost such URL is taken as it stands, kept
    as the tunnel's endpoint and written to the configuration store, and
    the status becomes [running]. *)
Theorem quick_tunnel_url_extracted (w : World) (data pre u post : jsstring) :
  data = pre ++ u ++ post → QuickUrl u →
  ∃ u' w',
    FirstQuickUrl u' data
    ∧ TunnelManager.onData data w = (Ok tt, w')
    ∧ TunnelManager.url w' = Some u'
    ∧ persistedUrl w' = Some u'
    ∧ TunnelManager.status w' = TunnelStatus.running
    ∧ UrlChange (Some u')
      ∈ drop (List.length (TunnelManager.emitted w)) (TunnelManager.emitted w').
Proof.
  intros Hd Hu.
  destruct (quickTunnelMatch_trim data pre u post Hd Hu) as (u' & Hm & Hfirst).
  destruct (onData_quick w data u' Hm)
    as (w' & rest & Hr & Hs & Hurl & Hcfg & He).
  exists u', w'. split_and!; try done.
  rewrite He, drop_app_length. set_solver.
Qed.

Lemma quick_tunnel_url_extracted_witness :
  let u := str "https://abc-def-123.trycloudflare.com" in
  let line := str "INF |  " ++ u ++ str "  |" in
  QuickUrl u
  ∧ TunnelManager.url (step (ProcStderr 1 line) Sample.bothUp) = Some u
  ∧ ∃ u' w', FirstQuickUrl u' line
             ∧ TunnelManager.onData line Sample.bothUp = (Ok tt, w')
             ∧ TunnelManager.url w' = Some u'
             ∧ persistedUrl w' = Some u'.
Proof.
  intros u line.
  assert (QuickUrl u) as Hu.
  { exists (str "https://"), (str "abc-def-123"), (str ".trycloudflare.com").
    split_and!; [reflexivity| | |  |]; try done;
      repeat constructor. }
  split; [done|]. split; [reflexivity|].
  destruct (quick_tunnel_url_extracted Sample.bothUp line (str "INF |  ") u
              (str "  |") eq_refl Hu)
    as (u' & w' & Hf & Hr & Hurl & Hcfg & _).
  by exists u', w'.
Defined.


(** ** Shutdown *)

Section Shutdown.
Implicit Types (w : World) (o : Owner) (p k : nat).

(** Output leaves the children, the timers and the handles alone. *)
Lemma output_keeps ps ss hs ht i w :
  isOutput i →
  procs w = ps ∧ stops w = ss ∧ serverProcess (server w) = hs
    ∧ tunnelProcess (tunnel w) = ht →
  let w' := step i w in
  procs w' = ps ∧ stops w' = ss ∧ serverProcess (server w') = hs
    ∧ tunnelProcess (tunnel w') = ht.
Proof.
  intros Hi Hw. destruct i; try done; simpl;
    repeat match goal with
           | |- context [match ?x with _ => _ end] => destruct x
           end;
    try done;
    (apply (dispatch_keeps
              (λ w, procs w = ps ∧ stops w = ss
                    ∧ serverProcess (server w) = hs
                    ∧ tunnelProcess (tunnel w) = ht));
     [done|by keeps_go|done]).
Qed.

Lemma outputs_keep ps ss hs ht outs w :
  Forall isOutput outs →
  procs w = ps ∧ stops w = ss ∧ serverProcess (server w) = hs
    ∧ tunnelProcess (tunnel w) = ht →
  let w' := run outs w in
  procs w' = ps ∧ stops w' = ss ∧ serverProcess (server w') = hs
    ∧ tunnelProcess (tunnel w') = ht.
Proof.
  intros Houts. revert w.
  induction Houts as [|i outs Hi _ IH]; intros w Hw; [done|].
  apply IH. by apply output_keeps.
Qed.

Lemma stop_live o w p :
  handleOf o w = Some p →
  ∃ w1, stopOf o w = (Ok (Awaiting (List.length (stops w))), w1)
        ∧ isStopping o w1
        ∧ handleOf o w1 = Some p
        ∧ stops w1 = stops w ++ [mkStopCall o Pending 5000 0]
        ∧ procs w1
          = alter (λ c, mkProc (owner c) (command c) (args c) (env c)
                          (phase c) (signals c ++ [SIGTERM])
                          (exitListeners c))
              p (alter (λ c, mkProc (owner c) (command c) (args c) (env c)
                               (phase c) (signals c)
                               (exitListeners c ++ [List.length (stops w)]))
                   p (procs w)).
Proof.
  destruct o; simpl; intros H; unfold_server; unfold_tunnel; unfold_runtime;
    unfold ServerManager.handle, TunnelManager.handle in *; exec;
    rewrite H; exec; eexists; (split; [reflexivity|]); done.
Qed.

(** The ['exit'] listener of a [stop()], wherever it runs. *)
Lemma exitListener_runs o k w :
  let w' := dispatch (exitListener o k) w in
  isIdle o w' ∧ handleOf o w' = None ∧ procs w' = procs w
  ∧ stops w'
    = alter (λ s, mkStopCall (stop_owner s) (timer s) (delay s)
                    (S (resolved s)))
        k (alter (λ s, mkStopCall (stop_owner s)
                         (match timer s with Pending => Cleared | t => t end)
                         (delay s) (resolved s))
             k (stops w)).
Proof. by destruct o. Qed.

Lemma exitListener_notFired o k k' w :
  notFired k w → notFired k (dispatch (exitListener o k') w).
Proof.
  intros (s & Hs & Ht).
  destruct (exitListener_runs o k' w) as (_ & _ & _ & Hst).
  unfold notFired. rewrite Hst. destruct (decide (k' = k)) as [->|Hne].
  - rewrite !list_lookup_alter_eq, Hs. simpl. eexists; split; [reflexivity|].
    simpl. by destruct (timer s).
  - rewrite !list_lookup_alter_ne by done. eauto.
Qed.

Lemma exitListeners_notFired o k ks w :
  notFired k w →
  notFired k (foldl (λ acc k', dispatch (exitListener o k') acc) w ks).
Proof.
  revert w. induction ks as [|k' ks IH]; intros w Hw; simpl; [done|].
  by apply IH, exitListener_notFired.
Qed.

Lemma exitListener_clears o k w :
  notFired k w →
  ∃ s, stops (dispatch (exitListener o k) w) !! k = Some s
       ∧ timer s = Cleared.
Proof.
  intros (s & Hs & Ht).
  destruct (exitListener_runs o k w) as (_ & _ & _ & ->).
  rewrite !list_lookup_alter_eq, Hs. simpl. eexists; split; [reflexivity|].
  simpl. by destruct (timer s).
Qed.

(** The callback of the timer, run while the handle is still set. *)
Lemma onTimeout_runs o k p w :
  handleOf o w = Some p →
  let w' := dispatch (match o with
                      | OwnServer => ServerManager.stop_onTimeout k
                      | OwnTunnel => TunnelManager.stop_onTimeout k
                      end) w in
  isIdle o w' ∧ handleOf o w' = None
  ∧ procs w'
    = alter (λ c, mkProc (owner c) (command c) (args c) (env c) (phase c)
                    (signals c ++ [SIGKILL]) (exitListeners c))
        p (procs w)
  ∧ stops w'
    = alter (λ s, mkStopCall (stop_owner s) (timer s) (delay s)
                    (S (resolved s)))
        k (stops w).
Proof.
  destruct o; simpl; intros H; unfold dispatch;
    unfold_server; unfold_tunnel; unfold_runtime;
    unfold ServerManager.handle, TunnelManager.handle in *; exec;
    rewrite H; exec; done.
Qed.
End Shutdown.



(** C4 fails on the code: after the timer of [stop()] has force-killed
    the child, the child's ['exit'] still runs the listener that
    [stop()] registered, so both completion paths run: [idle] is emitted
    twice, the log announces a graceful stop after the forced kill, and
    [resolve] is called a second time. *)
Theorem stop_both_paths_run :
  let w := run [ServerStop; TimerFire 0; ProcExit 0] Sample.bothUp in
  let v := run [TunnelStop; TimerFire 0; ProcExit 1] Sample.bothUp in
  statusEvents (drop (List.length (ServerManager.emitted Sample.bothUp))
                     (ServerManager.emitted w))
  = [stopping; idle; idle]
  ∧ logEvents (drop (List.length (ServerManager.emitted Sample.bothUp))
                    (ServerManager.emitted w))
    = [str "Status changed to: STOPPING"; str "Stopping server process...";
       str "Server unresponsive, force killing...";
       str "Status changed to: IDLE"; str "Server stopped gracefully.";
       str "Status changed to: IDLE"]
  ∧ resolved <$> stops w !! 0%nat = Some 2%nat
  ∧ statusEvents (drop (List.length (TunnelManager.emitted Sample.bothUp))
                       (TunnelManager.emitted v))
    = [TunnelStatus.stopping; TunnelStatus.idle; TunnelStatus.idle]
  ∧ logEvents (drop (List.length (TunnelManager.emitted Sample.bothUp))
                    (TunnelManager.emitted v))
    = [str "Stopping tunnel..."; str "Force killing tunnel process...";
       str "Tunnel stopped."]
  ∧ resolved <$> stops v !! 0%nat = Some 2%nat.
Proof. intros w v. split_and!; vm_compute; reflexivity. Qed.

(** ** What a turn does to the children and the promises *)

Section Children.
Implicit Types (w : World) (o : Owner) (p k : nat) (i : Input).

Lemma starts_spawn ps ss :
  let P := λ w, stops w = ss
                ∧ ∃ extra, procs w = ps ++ extra
                           ∧ Forall (λ c, exitListeners c = []) extra in
  (∀ f, keeps P (ServerManager.start f))
  ∧ (∀ port f, keeps P (TunnelManager.start port f)).
Proof.
  intros P. subst P.
  split; intros; keeps_go_with ltac:(fun H =>
    first [ exact H
          | let E := fresh "E" in let extra := fresh "extra" in
            let F := fresh "F" in let Hp := fresh "Hp" in
            destruct H as (E & extra & Hp & F); split; [exact E|];
            eexists (extra ++ [_]); cbn [procs withProcs];
            split; [rewrite Hp; by rewrite app_assoc|];
            apply Forall_app; split; [exact F|by repeat constructor] ]).
Qed.

Lemma stop_none o w : handleOf o w = None → stopOf o w = (Ok Immediately, w).
Proof.
  destruct o; simpl; unfold ServerManager.stop, TunnelManager.stop,
    ServerManager.handle, TunnelManager.handle, bind, gets; by intros ->.
Qed.

Lemma exitListeners_run o ks w :
  let w' := foldl (λ acc k, dispatch (exitListener o k) acc) w ks in
  procs w' = procs w ∧ stops w' = exitsRun ks (stops w).
Proof.
  revert w. induction ks as [|k ks IH]; intros w; simpl; [done|].
  destruct (IH (dispatch (exitListener o k) w)) as [-> ->].
  destruct (exitListener_runs o k w) as (_ & _ & -> & ->). done.
Qed.

Lemma onTimeout_none o k w :
  handleOf o w = None →
  dispatch (match o with
            | OwnServer => ServerManager.stop_onTimeout k
            | OwnTunnel => TunnelManager.stop_onTimeout k
            end) w = w.
Proof.
  destruct o; simpl; unfold dispatch, ServerManager.stop_onTimeout,
    TunnelManager.stop_onTimeout, ServerManager.handle,
    TunnelManager.handle, bind, gets; by intros ->.
Qed.

Lemma onClose_keeps ps ss :
  (∀ code, keeps (λ w, procs w = ps ∧ stops w = ss)
                 (ServerManager.onClose code))
  ∧ (∀ code, keeps (λ w, procs w = ps ∧ stops w = ss)
                   (TunnelManager.onClose code)).
Proof. split; intros; keeps_go. Qed.

(** One turn of the event loop, seen from the children and the
    promises. *)
Lemma step_effect i w : Effect i w (step i w).
Proof.
  assert (Effect i w w) as Same.
  { apply (Spawned i w w []); [by rewrite app_nil_r|done|done]. }
  destruct i as [f| |port f| |p d|p d|p e|p|p code|k]; simpl.
  - destruct (starts_spawn (procs w) (stops w)) as [K _].
    pose proof (call_keeps _ (ServerManager.start f) w (K f)) as H.
    destruct H as (E & extra & Hp & F).
    { split; [done|]. exists []. by rewrite app_nil_r. }
    by apply (Spawned _ _ _ extra).
  - destruct (handleOf OwnServer w) as [p|] eqn:Hh.
    + destruct (stop_live OwnServer w p Hh) as (w1 & Hs & _ & _ & Hst & Hpr).
      unfold call. simpl in Hs. rewrite Hs.
      by apply (StopBegun _ _ _ OwnServer p).
    + unfold call. pose proof (stop_none OwnServer w Hh) as Hs.
      simpl in Hs. by rewrite Hs.
  - destruct (starts_spawn (procs w) (stops w)) as [_ K].
    pose proof (call_keeps _ (TunnelManager.start port f) w (K port f)) as H.
    destruct H as (E & extra & Hp & F).
    { split; [done|]. exists []. by rewrite app_nil_r. }
    by apply (Spawned _ _ _ extra).
  - destruct (handleOf OwnTunnel w) as [p|] eqn:Hh.
    + destruct (stop_live OwnTunnel w p Hh) as (w1 & Hs & _ & _ & Hst & Hpr).
      unfold call. simpl in Hs. rewrite Hs.
      by apply (StopBegun _ _ _ OwnTunnel p).
    + unfold call. pose proof (stop_none OwnTunnel w Hh) as Hs.
      simpl in Hs. by rewrite Hs.
  - destruct (output_keeps (procs w) (stops w) (serverProcess (server w))
                (tunnelProcess (tunnel w)) (ProcStdout p d) w)
      as (Hp & Hs & _); [done..|].
    apply (Spawned _ _ _ []); [by rewrite app_nil_r|done|done].
  - destruct (output_keeps (procs w) (stops w) (serverProcess (server w))
                (tunnelProcess (tunnel w)) (ProcStderr p d) w)
      as (Hp & Hs & _); [done..|].
    apply (Spawned _ _ _ []); [by rewrite app_nil_r|done|done].
  - destruct (output_keeps (procs w) (stops w) (serverProcess (server w))
                (tunnelProcess (tunnel w)) (ProcError p e) w)
      as (Hp & Hs & _); [done..|].
    apply (Spawned _ _ _ []); [by rewrite app_nil_r|done|done].
  - destruct (procs w !! p) as [c|] eqn:Hp; [|done].
    destruct (phase c) eqn:Hph; try done.
    destruct (exitListeners_run (owner c) (exitListeners c)
                (call (setPhase Exited p) w)) as [Hpr Hst].
    by apply (ChildExited _ _ _ p c).
  - destruct (procs w !! p) as [c|] eqn:Hp; [|done].
    destruct (onClose_keeps (alter (inPhase Closed) p (procs w)) (stops w))
      as [Ks Kt].
    set (w1 := call (setPhase Closed p) w).
    assert (procs w1 = alter (inPhase Closed) p (procs w)
            ∧ stops w1 = stops w) as H1 by done.
    clearbody w1.
    destruct (phase c), (owner c); try done.
    all: apply (ChildClosed _ _ _ p);
      first [ apply (dispatch_keeps
                       (λ u, procs u = alter (inPhase Closed) p (procs w)
                             ∧ stops u = stops w) (λ g v H, H)
                       (ServerManager.onClose code) w1 (Ks code) H1)
            | apply (dispatch_keeps
                       (λ u, procs u = alter (inPhase Closed) p (procs w)
                             ∧ stops u = stops w) (λ g v H, H)
                       (TunnelManager.onClose code) w1 (Kt code) H1) ].
  - destruct (stops w !! k) as [s|] eqn:Hk; [|done].
    destruct (timer s) eqn:Ht; try done.
    set (w1 := withStops _ w).
    assert (procs w1 = procs w
            ∧ stops w1 = alter timerFired k (stops w)) as [Hp1 Hs1] by done.
    assert (∀ o, handleOf o w1 = handleOf o w) as Hh by (by intros []).
    clearbody w1.
    assert (∀ o, Effect (TimerFire k) w
                   (dispatch (match o with
                              | OwnServer => ServerManager.stop_onTimeout k
                              | OwnTunnel => TunnelManager.stop_onTimeout k
                              end) w1)) as H.
    { intros o. destruct (handleOf o w1) as [p|] eqn:Hh1.
      - destruct (onTimeout_runs o k p w1 Hh1) as (_ & _ & Hpr & Hst).
        apply (TimerKilled _ _ _ k s o p); try done.
        + by rewrite <- Hh.
        + by rewrite Hpr, Hp1.
        + by rewrite Hst, Hs1.
      - rewrite (onTimeout_none o k w1 Hh1).
        by apply (TimerLapsed _ _ _ k s). }
    destruct (stop_owner s); [exact (H OwnServer)|exact (H OwnTunnel)].
Qed.
Lemma alter_lookup_inv {A} (g : A → A) p (l : list A) q y :
  alter g p l !! q = Some y → ∃ x, l !! q = Some x ∧ (y = x ∨ y = g x).
Proof.
  destruct (decide (p = q)) as [->|Hne].
  - rewrite list_lookup_alter_eq. destruct (l !! q) as [x|]; [|done].
    intros [= <-]. eauto.
  - rewrite list_lookup_alter_ne by done. eauto.
Qed.

Lemma exitsRun_length ks ss : List.length (exitsRun ks ss) = List.length ss.
Proof.
  revert ss. induction ks as [|k ks IH]; intros ss; simpl; [done|].
  unfold exitsRun in *. simpl. by rewrite IH, !length_alter.
Qed.

Lemma exitsRun_lookup ks ss k :
  k ∉ ks → exitsRun ks ss !! k = ss !! k.
Proof.
  revert ss. induction ks as [|k' ks IH]; intros ss Hk; [done|].
  apply not_elem_of_cons in Hk as [Hne Hk].
  unfold exitsRun in *. simpl. rewrite IH by done.
  by rewrite !list_lookup_alter_ne.
Qed.

Lemma step_listenersKnown i w : listenersKnown w → listenersKnown (step i w).
Proof.
  intros H. unfold listenersKnown.
  destruct (step_effect i w)
    as [extra Hp Hs F|o p Hh Hp Hs|p c _ Hc Hph Hp Hs|p Hp Hs
       |k s _ Hk Ht Hp Hs|k s o p _ Hk Ht Hh Hp Hs];
    rewrite Hp, Hs; clear Hp Hs; intros q c' k' Hq Hk'.
  - apply lookup_app_Some in Hq as [Hq|[_ Hq]]; [by eapply H|].
    apply list_elem_of_lookup_2 in Hq.
    rewrite Forall_forall in F. rewrite (F _ Hq) in Hk'.
    by apply elem_of_nil in Hk'.
  - rewrite length_app. simpl.
    apply alter_lookup_inv in Hq as (c1 & Hq & Hc1).
    apply alter_lookup_inv in Hq as (c0 & Hq & Hc0).
    assert (k' ∈ exitListeners c0 ∨ k' = List.length (stops w)) as [Hin| ->];
      [|specialize (H q c0 k' Hq Hin); lia|lia].
    destruct Hc1 as [->| ->], Hc0 as [->| ->]; simpl in Hk';
      rewrite ?elem_of_app, ?list_elem_of_singleton in Hk'; tauto.
  - rewrite exitsRun_length.
    apply alter_lookup_inv in Hq as (c0 & Hq & [->| ->]); by eapply H.
  - apply alter_lookup_inv in Hq as (c0 & Hq & [->| ->]); by eapply H.
  - rewrite length_alter. by eapply H.
  - rewrite !length_alter.
    apply alter_lookup_inv in Hq as (c0 & Hq & [->| ->]); by eapply H.
Qed.

Lemma reachable_listenersKnown w : reachable w → listenersKnown w.
Proof.
  induction 1 as [h files c|i w _ IH]; [|by apply step_listenersKnown].
  by intros p c' k H.
Qed.

Lemma step_unsettled k i w : unsettled k w → unsettled k (step i w).
Proof.
  intros [(s0 & Hs0 & Ht0 & Hr0) HL]. unfold unsettled.
  destruct (step_effect i w)
    as [extra Hp Hs F|o p Hh Hp Hs|p c _ Hc Hph Hp Hs|p Hp Hs
       |k' s _ Hk Ht Hp Hs|k' s o p _ Hk Ht Hh Hp Hs];
    rewrite Hp, Hs; clear Hp Hs.
  - split; [by exists s0|]. intros q c' Hq Hk'.
    apply lookup_app_Some in Hq as [Hq|[_ Hq]]; [by eapply HL|].
    apply list_elem_of_lookup_2 in Hq.
    rewrite Forall_forall in F. rewrite (F _ Hq) in Hk'.
    by apply elem_of_nil in Hk'.
  - split.
    + exists s0. split; [|done]. by apply lookup_app_l_Some.
    + intros q c' Hq Hk'.
      apply alter_lookup_inv in Hq as (c1 & Hq & Hc1).
      apply alter_lookup_inv in Hq as (c0 & Hq & Hc0).
      apply lookup_lt_Some in Hs0.
      assert (phase c' = phase c0) as Eph
        by (by destruct Hc1 as [->| ->], Hc0 as [->| ->]).
      assert (k ∈ exitListeners c0) as Hin.
      { destruct Hc1 as [->| ->], Hc0 as [->| ->]; simpl in Hk'; try done;
          apply elem_of_app in Hk' as [?|Hk']; try done;
          apply list_elem_of_singleton in Hk'; lia. }
      rewrite Eph. by eapply HL.
  - assert (k ∉ exitListeners c) as Hnot.
    { intros Hin. by apply (HL p c Hc Hin). }
    split.
    + exists s0. by rewrite exitsRun_lookup.
    + intros q c' Hq Hk'.
      apply alter_lookup_inv in Hq as (c0 & Hq & [->| ->]);
        [by eapply HL|done].
  - split; [by exists s0|]. intros q c' Hq Hk'.
    apply alter_lookup_inv in Hq as (c0 & Hq & [->| ->]);
      [by eapply HL|done].
  - assert (k' ≠ k) as Hne by (intros ->; congruence).
    split; [|done]. exists s0. by rewrite list_lookup_alter_ne.
  - assert (k' ≠ k) as Hne by (intros ->; congruence).
    split.
    + exists s0. by rewrite !list_lookup_alter_ne.
    + intros q c' Hq Hk'.
      apply alter_lookup_inv in Hq as (c0 & Hq & [->| ->]); simpl in *;
        by eapply HL.
Qed.

Lemma run_unsettled k inputs w : unsettled k w → unsettled k (run inputs w).
Proof.
  revert w. induction inputs as [|i inputs IH]; intros w Hw; [done|].
  by apply IH, step_unsettled.
Qed.
End Children.

Lemma onClose_while_stopping o code w :
  isStopping o w →
  let w' := dispatch (match o with
                      | OwnServer => ServerManager.onClose code
                      | OwnTunnel => TunnelManager.onClose code
                      end) w in
  isStopping o w' ∧ handleOf o w' = None ∧ procs w' = procs w
  ∧ stops w' = stops w.
Proof.
  destruct o; simpl; intros H; unfold dispatch;
    unfold_server; unfold_tunnel; unfold_runtime;
    unfold ServerManager.status, TunnelManager.status in *; exec;
    rewrite H; exec; done.
Qed.

(** C5 fails on the code for a child that has exited but not closed
    when [stop()] is called (the handle is still held): [stop()] sets the
    status [stopping], signals the child and registers its ['exit']
    listener too late for it ever to run; the ['close'] of the child then
    clears the handle without touching the status, and when the timer
    fires its callback finds no handle and does nothing: no [SIGKILL],
    the status stays [stopping], and the promise of [stop()] is not
    resolved then or by anything that happens later. *)
Theorem stop_after_exit_never_settles (o : Owner) (w : World) (p : nat)
    (c : Proc) (code : option N) (later : list Input) :
  reachable w →
  handleOf o w = Some p → procs w !! p = Some c → owner c = o →
  phase c = Exited →
  let k := List.length (stops w) in
  ∃ w1,
    stopOf o w = (Ok (Awaiting k), w1)
    ∧ isStopping o w1
    ∧ signals <$> procs w1 !! p = Some (signals c ++ [SIGTERM])
    ∧ stops w1 !! k = Some (mkStopCall o Pending 5000 0)
    ∧ step (ProcExit p) w1 = w1
    ∧ (let w2 := step (TimerFire k) (step (ProcClose p code) w1) in
       isStopping o w2 ∧ handleOf o w2 = None
       ∧ signals <$> procs w2 !! p = Some (signals c ++ [SIGTERM])
       ∧ stops w2 !! k = Some (mkStopCall o Fired 5000 0)
       ∧ resolved <$> stops (run later w2) !! k = Some 0%nat).
Proof.
  intros Hw Hh Hp Ho Hph k.
  apply reachable_listenersKnown in Hw.
  destruct (stop_live o w p Hh) as (w1 & Hstop & Hst & Hh1 & Hstops & Hprocs).
  exists w1.
  assert (procs w1 !! p
          = Some (mkProc o (command c) (args c) (env c) Exited
                    (signals c ++ [SIGTERM]) (exitListeners c ++ [k])))
    as Hp1.
  { rewrite Hprocs, !list_lookup_alter_eq, Hp. simpl. by rewrite Ho, Hph. }
  assert (stops w1 !! k = Some (mkStopCall o Pending 5000 0)) as Hk1.
  { rewrite Hstops. by apply list_lookup_middle. }
  split_and!; try done.
  { by rewrite Hp1. }
  { unfold step. by rewrite Hp1. }
  (* the child closes *)
  set (w1' := call (setPhase Closed p) w1).
  assert (isStopping o w1') as Hst1' by (by destruct o).
  destruct (onClose_while_stopping o code w1' Hst1')
    as (Hst2 & Hh2 & Hp2 & Hs2).
  assert (step (ProcClose p code) w1
          = dispatch (match o with
                      | OwnServer => ServerManager.onClose code
                      | OwnTunnel => TunnelManager.onClose code
                      end) w1') as ->.
  { unfold step. rewrite Hp1. cbn [phase owner]. by destruct o. }
  set (w2 := dispatch _ w1') in *.
  assert (procs w2 = alter (inPhase Closed) p (procs w1)) as Hp2'
    by (by rewrite Hp2).
  assert (stops w2 = stops w1) as Hs2' by (by rewrite Hs2).
  clearbody w2. clear Hp2 Hs2 Hst1'. clearbody w1'.
  (* the timer fires *)
  set (w2' := withStops (alter (λ s, mkStopCall (stop_owner s) Fired
                                       (delay s) (resolved s)) k) w2).
  assert (handleOf o w2' = None) as Hh2' by (by destruct o).
  intros w3.
  assert (w3 = w2') as ->.
  { subst w3. unfold step. rewrite Hs2', Hk1. cbn [timer stop_owner].
    fold w2'. pose proof (onTimeout_none o k w2' Hh2') as E.
    by destruct o. }
  assert (procs w2' = alter (inPhase Closed) p (procs w1)) as Hp3 by done.
  assert (stops w2' !! k = Some (mkStopCall o Fired 5000 0)) as Hk3.
  { subst w2'. cbn [withStops stops].
    by rewrite list_lookup_alter_eq, Hs2', Hk1. }
  assert (isStopping o w2') as Hst3 by (by destruct o).
  clearbody w2'.
  split_and!; try done.
  { by rewrite Hp3, list_lookup_alter_eq, Hp1. }
  assert (unsettled k w2') as Hu.
  { split; [by eexists|]. intros q c' Hq Hk'. rewrite Hp3 in Hq.
    destruct (decide (q = p)) as [->|Hne].
    - rewrite list_lookup_alter_eq, Hp1 in Hq. by injection Hq as <-.
    - exfalso. rewrite list_lookup_alter_ne, Hprocs,
        !list_lookup_alter_ne in Hq by done.
      specialize (Hw q c' k Hq Hk'). unfold k in Hw. lia. }
  destruct (run_unsettled k later w2' Hu) as [(s & Hs & _ & Hr) _].
  rewrite Hs. simpl. by rewrite Hr.
Qed.

Lemma stop_after_exit_never_settles_witness :
  let w := run [ProcExit 0] Sample.bothUp in
  let v := run [ServerStop; ProcClose 0 (Some 1); TimerFire 0] w in
  handleOf OwnServer w = Some 0%nat
  ∧ phase <$> procs w !! 0%nat = Some Exited
  ∧ isStopping OwnServer v
  ∧ resolved <$> stops (run [TimerFire 0; ProcExit 0; ProcClose 0 None] v)
                   !! 0%nat = Some 0%nat.
Proof.
  intros w v.
  assert (handleOf OwnServer w = Some 0%nat) as Hh by (vm_compute; reflexivity).
  split; [exact Hh|]. split; [vm_compute; reflexivity|].
  destruct (stop_after_exit_never_settles OwnServer w 0
              (mkProc OwnServer (exePath Sample.linux) []
                 [("PORT"%string, numToString 4000);
                  ("DATABASE_URL"%string, str "file:" ++ renderPath dbPath);
                  ("CHROME_PATH"%string, []);
                  ("NODE_ENV"%string, str "production");
                  ("PUPPETEER_SKIP_DOWNLOAD"%string, str "true")]
                 Exited [] [])
              (Some 1) [TimerFire 0; ProcExit 0; ProcClose 0 None])
    as (w1 & Hstop & _ & _ & _ & _ & (Hst & _ & _ & _ & Hr));
    [apply reachable_run, reachable_run, reachable_run, reachable_launch
    |exact Hh|vm_compute; reflexivity|reflexivity|reflexivity|].
  assert (w1 = step ServerStop w) as ->.
  { unfold step, call. simpl in Hstop. by rewrite Hstop. }
  split; [exact Hst|exact Hr].
Defined.

(** ** Failures of the setup phase *)

Ltac keepsOnThrow_step :=
  lazymatch goal with
  | |- keepsOnThrow _ (bind _ _) =>
      apply keepsOnThrow_bind; [by keeps_go|intro; cbv beta]
  | |- keepsOnThrow _ (modify _) => apply keepsOnThrow_modify
  | |- keepsOnThrow _ (ret _) => apply keepsOnThrow_ret
  | |- keepsOnThrow _ (throw _) => apply keepsOnThrow_throw
  end.

(** Until it throws, the setup phase has neither assigned the handle nor
    touched the listeners. *)
Lemma start_try_keepsOnThrow h :
  ∀ f, keepsOnThrow (λ w, serverProcess (server w) = h ∧ noErrorListener w)
                    (ServerManager.start_try f).
Proof.
  intros f. unfold noErrorListener, ServerManager.start_try.
  do 3 keepsOnThrow_step.
  unfold ServerManager.spawnServer. cbv zeta.
  repeat keepsOnThrow_step.
  unfold ServerManager.assignProcess. keepsOnThrow_step.
Qed.

Lemma startUnguarded_atTry f w :
  startUnguarded f w = tryCatch (ServerManager.start_try f) ServerManager.start_catch (atTry w).
Proof. reflexivity. Qed.

Lemma start_catch_runs e w :
  s_errorListeners (server w) = 0%nat →
  ∃ w', ServerManager.start_catch e w = (Throw e, w')
        ∧ ServerManager.status w' = error
        ∧ ServerManager.handle w' = ServerManager.handle w
        ∧ ServerManager.emitted w'
          = ServerManager.emitted w
            ++ [Log (str "CRITICAL ERROR: "
                     ++ (if truthy (err_message e) then err_message e
                         else errToString e));
                StatusChange error; Log (str "Status changed to: ERROR")].
Proof.
  intros H. unfold ServerManager.start_catch. unfold_server; unfold_runtime; exec.
  rewrite H. eexists; split; [reflexivity|]. cbn. split_and!; try done.
  by rewrite <- !app_assoc.
Qed.

Lemma onError_runs e w :
  s_errorListeners (server w) = 0%nat →
  ∃ w', ServerManager.onError e w = (Throw e, w')
        ∧ ServerManager.status w' = error
        ∧ ServerManager.handle w' = ServerManager.handle w
        ∧ uncaught w' = uncaught w
        ∧ ServerManager.emitted w'
          = ServerManager.emitted w
            ++ [StatusChange error; Log (str "Status changed to: ERROR")].
Proof.
  intros H. unfold_server; unfold_runtime; exec.
  rewrite H. eexists; split; [reflexivity|]. cbn. split_and!; try done.
  by rewrite <- !app_assoc.
Qed.

(** ** Provisioning *)

Section Provisioning.
Implicit Types (w : World) (f : Faults) (m : gmap Path Node).

Lemma needsExtraction_false w :
  upToDate w →
  negb (bool_decide (is_Some (fs w !! exePath (host w))))
  || negb (bool_decide (is_Some (fs w !! cloudflaredPath (host w))))
  || negb (bool_decide (appVersion (host w) = get_serverVersion (config w)))
  = false.
Proof.
  intros (H1 & H2 & H3). by rewrite !bool_decide_eq_true_2.
Qed.

Lemma needsExtraction_true w :
  ¬ upToDate w →
  negb (bool_decide (is_Some (fs w !! exePath (host w))))
  || negb (bool_decide (is_Some (fs w !! cloudflaredPath (host w))))
  || negb (bool_decide (appVersion (host w) = get_serverVersion (config w)))
  = true.
Proof.
  intros H. repeat case_bool_decide; try done.
  destruct H. by split_and!.
Qed.

Lemma rmTree_lookup_below m q :
  serverExtractPath `prefix_of` q → rmTree serverExtractPath m !! q = None.
Proof.
  intros H. unfold rmTree. apply map_lookup_filter_None. right.
  intros x _ Hn. by apply Hn.
Qed.

Lemma rmTree_lookup_other m q :
  ¬ serverExtractPath `prefix_of` q → rmTree serverExtractPath m !! q = m !! q.
Proof.
  intros H. unfold rmTree. destruct (m !! q) as [x|] eqn:E.
  - by apply map_lookup_filter_Some.
  - apply map_lookup_filter_None. by left.
Qed.

(** What the archive does to a path depends on what was at that path
    only. *)
Lemma unpack_lookup_ext target entries m1 m2 q :
  m1 !! q = m2 !! q →
  unpack target entries m1 !! q = unpack target entries m2 !! q.
Proof.
  unfold unpack. revert m1 m2.
  induction entries as [|e entries IH]; intros m1 m2 H; simpl; [done|].
  apply IH. destruct (decide (target ++ e.1 = q)) as [->|Hne].
  - by rewrite !lookup_insert_eq.
  - by rewrite !lookup_insert_ne.
Qed.
Lemma extract_skipped w f :
  upToDate w →
  ∃ w', ServerManager.extractServerIfNeeded f w = (Ok tt, w')
        ∧ fs w' = fs w ∧ config w' = config w
        ∧ ServerManager.emitted w'
          = ServerManager.emitted w
            ++ [Log (checkLine w);
                Log (str "Server resources are up to date.")].
Proof.
  intros H. unfold_server. unfold_runtime. exec.
  rewrite needsExtraction_false by done. exec.
  eexists. split; [reflexivity|]. cbn. split_and!; try done.
  by rewrite <- !app_assoc.
Qed.

Lemma extract_no_archive w f :
  ¬ upToDate w → fs w !! serverZipPath = None →
  ∃ w', ServerManager.extractServerIfNeeded f w
        = (Throw (newError (str "Server zip not found at: "
                            ++ renderPath serverZipPath)), w')
        ∧ fs w' = fs w ∧ config w' = config w
        ∧ ServerManager.emitted w'
          = ServerManager.emitted w
            ++ [Log (checkLine w);
                Log (str "Extracting server resources... This may take a moment.");
                StatusChange extracting;
                Log (str "Status changed to: EXTRACTING")].
Proof.
  intros H Hz. unfold_server. unfold_runtime. exec.
  rewrite needsExtraction_true by done. exec.
  rewrite Hz. rewrite bool_decide_eq_false_2 by (by intros [? ?]). exec.
  eexists. split; [reflexivity|]. cbn. split_and!; try done.
  by rewrite <- !app_assoc.
Qed.

Lemma extract_done w f entries :
  ¬ upToDate w → fs w !! serverZipPath = Some (Zip entries) →
  rmFault f = None → mkdirFault f = None → unzipFault f = None →
  ∃ w' rest,
    ServerManager.extractServerIfNeeded f w = (Ok tt, w')
    ∧ fs w' = unpack serverExtractPath entries (cleared (fs w))
    ∧ serverVersion (config w') = Some (appVersion (host w))
    ∧ ServerManager.emitted w'
      = ServerManager.emitted w
        ++ [Log (checkLine w);
            Log (str "Extracting server resources... This may take a moment.");
            StatusChange extracting;
            Log (str "Status changed to: EXTRACTING")]
        ++ rest
    ∧ statusEvents rest = [].
Proof.
  intros H Hz Hrm Hmk Hun. unfold_server. unfold_runtime. exec.
  rewrite needsExtraction_true by done. exec.
  rewrite Hz, Hrm, Hmk, Hun. rewrite bool_decide_eq_true_2 by done. exec.
  unfold cleared.
  assert (¬ serverExtractPath `prefix_of` serverZipPath) as Hnp
    by (by intros [? ?]).
  destruct (bool_decide (is_Some (fs w !! serverExtractPath))) eqn:Hd; exec.
  - rewrite rmTree_lookup_below by done. exec.
    rewrite lookup_insert_ne, rmTree_lookup_other, Hz by done. exec.
    eexists _, _. split; [reflexivity|]. cbn.
    split; [done|]. split; [done|].
    split; [rewrite <- !app_assoc; cbn; repeat f_equal; try reflexivity
           |reflexivity].
  - apply bool_decide_eq_false in Hd. apply eq_None_not_Some in Hd.
    rewrite Hd. exec. rewrite lookup_insert_ne, Hz by done. exec.
    eexists _, _. split; [reflexivity|]. cbn.
    split; [done|]. split; [done|].
    split; [rewrite <- !app_assoc; cbn; repeat f_equal; try reflexivity
           |reflexivity].
Qed.

Lemma unpack_below_from_archive m entries q :
  is_Some (m !! serverExtractPath) →
  serverExtractPath `prefix_of` q → q ≠ serverExtractPath →
  unpack serverExtractPath entries (cleared m) !! q
  = unpack serverExtractPath entries ∅ !! q.
Proof.
  intros Hd Hq Hne. apply unpack_lookup_ext. unfold cleared.
  rewrite bool_decide_eq_true_2 by done.
  rewrite lookup_insert_ne by done.
  by rewrite rmTree_lookup_below, lookup_empty.
Qed.
End Provisioning.

Lemma bind_gets {A B} (g : World → A) (k : A → M B) w :
  bind (gets g) k w = k (g w) w.
Proof. reflexivity. Qed.

Lemma bind_modify {B} (g : World → World) (k : unit → M B) w :
  bind (modify g) k w = k tt (g w).
Proof. reflexivity. Qed.

Lemma bind_assoc {A B C} (c : M A) (k1 : A → M B) (k2 : B → M C) w :
  bind (bind c k1) k2 w = bind c (λ a, bind (k1 a) k2) w.
Proof. unfold bind. by destruct (c w) as [[?|?] ?]. Qed.

Lemma keeps_snd {A} P (c : M A) w : keeps P c → P w → P (c w).2.
Proof. intros H Hw. specialize (H w Hw). by destruct (c w) as [[?|?] ?]. Qed.

Lemma extract_attempted w f :
  ¬ upToDate w →
  onlyLogsSince
    (ServerManager.emitted w
     ++ [Log (checkLine w);
         Log (str "Extracting server resources... This may take a moment.");
         StatusChange extracting;
         Log (str "Status changed to: EXTRACTING")])
    (ServerManager.extractServerIfNeeded f w).2.
Proof.
  intros H. unfold ServerManager.extractServerIfNeeded.
  unfold ServerManager.setStatus, ServerManager.emit,
    ServerManager.assignStatus, logger, existsSync.
  repeat first [rewrite bind_gets | rewrite bind_modify | rewrite bind_assoc].
  cbv zeta. cbn [fs host config withServer withLogfile].
  rewrite needsExtraction_true by done.
  repeat first [rewrite bind_gets | rewrite bind_modify | rewrite bind_assoc].
  apply keeps_snd.
  - unfold onlyLogsSince, ServerManager.emitted.
    keeps_go_with ltac:(fun H =>
      let r := fresh "r" in let E := fresh "E" in let S := fresh "S" in
      destruct H as (r & E & S);
      first [ by exists r
            | eexists (r ++ [Log _]); cbn; rewrite E, <- !app_assoc;
              split; [reflexivity|];
              unfold statusEvents in *; rewrite omap_app, S; reflexivity ]).
  - exists []. split; [|done]. cbn. by rewrite <- !app_assoc.
Qed.

(** C6, as amended: [extractServerIfNeeded] skips the extraction exactly
    when the executable and the tunnel binary exist and the stored tag is
    the current version: then nothing on disk or in the store changes and
    no status is emitted; in every other case the status [extracting] is
    emitted.  If the bundled archive is missing the call then fails
    before anything is deleted; if the archive is there and deleting,
    creating and unpacking do not fail, the target directory is deleted
    with all below it when it exists, created again, and the whole
    archive is unpacked into it, after which the current version is the
    stored tag and nothing below the directory is older than the
    archive. *)
Theorem extraction_decision (w : World) (f : Faults) :
  let fresh w' :=
    statusEvents (drop (List.length (ServerManager.emitted w))
                       (ServerManager.emitted w')) in
  (upToDate w →
     ∃ w', ServerManager.extractServerIfNeeded f w = (Ok tt, w')
           ∧ fs w' = fs w ∧ config w' = config w ∧ fresh w' = [])
  ∧ (¬ upToDate w →
       fresh (ServerManager.extractServerIfNeeded f w).2 = [extracting]
       ∧ (fs w !! serverZipPath = None →
            ∃ w', ServerManager.extractServerIfNeeded f w
                  = (Throw (newError (str "Server zip not found at: "
                                      ++ renderPath serverZipPath)), w')
                  ∧ fs w' = fs w ∧ config w' = config w)
       ∧ (∀ entries,
            fs w !! serverZipPath = Some (Zip entries) →
            rmFault f = None → mkdirFault f = None → unzipFault f = None →
            ∃ w', ServerManager.extractServerIfNeeded f w = (Ok tt, w')
                  ∧ fs w' = unpack serverExtractPath entries (cleared (fs w))
                  ∧ serverVersion (config w') = Some (appVersion (host w))
                  ∧ (is_Some (fs w !! serverExtractPath) →
                     ∀ q, serverExtractPath `prefix_of` q →
                          q ≠ serverExtractPath →
                          fs w' !! q
                          = unpack serverExtractPath entries ∅ !! q))).
Proof.
  intros fresh. split; [|intros H; split_and!].
  - intros H. destruct (extract_skipped w f H) as (w' & Hr & Hf & Hc & He).
    exists w'. split_and!; try done.
    unfold fresh. by rewrite He, drop_app_length.
  - destruct (extract_attempted w f H) as (rest & He & Hs).
    unfold fresh. rewrite He, <- app_assoc, drop_app_length.
    unfold statusEvents in *. rewrite omap_app, Hs. reflexivity.
  - intros Hz. destruct (extract_no_archive w f H Hz) as (w' & ? & ? & ? & _).
    by exists w'.
  - intros entries Hz Hrm Hmk Hun.
    destruct (extract_done w f entries H Hz Hrm Hmk Hun)
      as (w' & rest & Hr & Hf & Hv & _).
    exists w'. split_and!; try done.
    intros Hd q Hq Hne. rewrite Hf. by apply unpack_below_from_archive.
Qed.

Lemma extraction_decision_witness :
  ¬ upToDate Sample.firstLaunch
  ∧ statusEvents
      (drop (List.length (ServerManager.emitted Sample.firstLaunch))
            (ServerManager.emitted
               (ServerManager.extractServerIfNeeded noFaults
                  Sample.firstLaunch).2))
    = [extracting].
Proof.
  assert (¬ upToDate Sample.firstLaunch) as H.
  { intros ([x Hx] & _). vm_compute in Hx. discriminate. }
  split; [exact H|].
  exact (proj1 (proj2 (extraction_decision Sample.firstLaunch noFaults) H)).
Defined.

(** C6 as stated fails: with a stale version tag and the bundled archive
    missing, the call throws and the old files stay where they are:
    nothing is deleted and nothing extracted. *)
Lemma no_archive_no_wipe :
  let old : gmap Path Node :=
    {[ serverExtractPath := Dir;
       exePath Sample.linux := File 7;
       cloudflaredPath Sample.linux := File 8 ]} in
  let w := launch Sample.linux old
             (mkConfig None None (Some (str "0.9.0")) None) in
  let r := ServerManager.extractServerIfNeeded noFaults w in
  get_serverVersion (config w) ≠ appVersion (host w)
  ∧ r.1 = Throw (newError (str "Server zip not found at: resources/server.zip"))
  ∧ fs r.2 !! serverExtractPath = Some Dir
  ∧ fs r.2 !! exePath Sample.linux = Some (File 7)
  ∧ fs r.2 !! cloudflaredPath Sample.linux = Some (File 8)
  ∧ get_serverVersion (config r.2) = str "0.9.0".
Proof.
  cbv zeta. split_and!; [vm_compute; discriminate|vm_compute; reflexivity..].
Qed.

(** ** Failures of the setup phase, by their cause *)

Section SetupFailures.
Implicit Types (w : World) (f : Faults) (e : Err).

(** The [try] block, one call after the other. *)
Lemma start_try_extract f w :
  ServerManager.start_try f (atTry w)
  = bind (ServerManager.extractServerIfNeeded f)
         (λ _, ServerManager.ensureDatabase f;; ServerManager.spawnServer f)
         (atProvisioning w).
Proof. reflexivity. Qed.

Lemma spawnServer_throws f v v' e :
  ServerManager.spawnServer f v = (Throw e, v') → procs v' = procs v.
Proof.
  unfold_server; unfold_runtime; exec.
  destruct (bool_decide _); exec; [|by intros [= _ <-]].
  destruct (spawnFault f); exec; [by intros [= _ <-]|done].
Qed.

Lemma start_try_throws_procs f v v' e :
  ServerManager.start_try f v = (Throw e, v') → procs v' = procs v.
Proof.
  intros H.
  assert (ServerManager.start_try f v
          = bind (ServerManager.emit (Log (str "Starting initialization sequence..."));;
                  ServerManager.extractServerIfNeeded f;;
                  ServerManager.ensureDatabase f)
                 (λ _, ServerManager.spawnServer f) v) as E.
  { unfold ServerManager.start_try, bind.
    destruct (ServerManager.emit _ v) as [[?|?] ?]; [|done].
    by destruct (ServerManager.extractServerIfNeeded f _) as [[?|?] ?]. }
  rewrite E in H. unfold bind at 1 in H.
  assert (keeps (λ u, procs u = procs v)
            (ServerManager.emit (Log (str "Starting initialization sequence..."));;
             ServerManager.extractServerIfNeeded f;;
             ServerManager.ensureDatabase f)) as K by keeps_go.
  specialize (K v eq_refl).
  destruct (bind _ _ v) as [[[]|e'] u].
  - apply spawnServer_throws in H. congruence.
  - injection H as _ <-. exact K.
Qed.

(** Whatever the [try] block throws is thrown on and announced. *)
Lemma try_block_raises f w e w1 :
  noErrorListener w →
  ServerManager.status w ≠ running → ServerManager.status w ≠ starting →
  ServerManager.start_try f (atTry w) = (Throw e, w1) → raised f w e.
Proof.
  intros Hw Hr Hs Hthrow. unfold raised.
  rewrite server_start_unguarded, startUnguarded_atTry by done.
  unfold tryCatch. rewrite Hthrow.
  pose proof (start_try_keepsOnThrow (ServerManager.handle w) f (atTry w))
    as H.
  rewrite Hthrow in H. destruct H as [Hh [Hl _]]; [by split|].
  assert (keeps (λ u, procs u = procs w1) (ServerManager.start_catch e)) as K
    by keeps_go.
  specialize (K w1 eq_refl).
  destruct (start_catch_runs e w1 Hl) as (w' & Hc & Hst & Hh' & He).
  rewrite Hc in K |- *.
  exists w'. split_and!; try done.
  - unfold statusEvents. rewrite He, omap_app. cbn. by rewrite last_snoc.
  - by rewrite Hh'.
  - apply start_try_throws_procs in Hthrow. by rewrite K, Hthrow.
Qed.

(** The causes, each in the call where it arises. *)
Lemma extract_mkdir_fails w f e :
  ¬ upToDate w → is_Some (fs w !! serverZipPath) → mkdirFault f = Some e →
  (ServerManager.extractServerIfNeeded f w).1 = Throw e.
Proof.
  intros H Hz Hmk. unfold_server. unfold_runtime. exec.
  rewrite needsExtraction_true by done. exec.
  rewrite bool_decide_eq_true_2 by done. exec.
  destruct (bool_decide (is_Some (fs w !! serverExtractPath))); exec;
    [destruct (rmFault f); exec|]; by rewrite Hmk.
Qed.

Lemma extract_unzip_fails w f e :
  ¬ upToDate w → is_Some (fs w !! serverZipPath) →
  rmFault f = None ∨ fs w !! serverExtractPath = None
    ∨ fs w !! serverExtractPath = Some Dir →
  mkdirFault f = None → unzipFault f = Some e →
  (ServerManager.extractServerIfNeeded f w).1 = Throw e.
Proof.
  intros H Hz Hdir Hmk Hun. unfold_server. unfold_runtime. exec.
  rewrite needsExtraction_true by done. exec.
  rewrite bool_decide_eq_true_2 by done. exec.
  destruct (bool_decide (is_Some (fs w !! serverExtractPath))) eqn:Hb; exec.
  - destruct (rmFault f) as [e'|] eqn:Hrm; exec; rewrite Hmk; exec.
    + apply bool_decide_eq_true in Hb as [d Hd].
      destruct Hdir as [?|[?|Hdir]]; [done|congruence|].
      rewrite Hdir. exec. by rewrite Hun.
    + rewrite rmTree_lookup_below by done. exec. by rewrite Hun.
  - apply bool_decide_eq_false in Hb. apply eq_None_not_Some in Hb.
    rewrite Hmk. exec. rewrite Hb. exec. by rewrite Hun.
Qed.

Lemma ensureDatabase_copy_fails v f e :
  fs v !! dbPath = None → is_Some (fs v !! initialDbPath) →
  copyFault f = Some e →
  (ServerManager.ensureDatabase f v).1 = Throw e.
Proof.
  intros Hdb Ht Hc. unfold_server; unfold_runtime; exec.
  rewrite Hdb. rewrite bool_decide_eq_false_2 by (by intros [? ?]). exec.
  rewrite bool_decide_eq_true_2 by done. exec. by rewrite Hc.
Qed.

Lemma ensureDatabase_check_fails v f e :
  is_Some (fs v !! dbPath) ∨ fs v !! initialDbPath = None
    ∨ copyFault f = None →
  dbFault f = Some e →
  (ServerManager.ensureDatabase f v).1 = Throw e.
Proof.
  intros Hcopy Hf. unfold_server; unfold_runtime; exec.
  destruct (fs v !! dbPath) as [n|] eqn:Hdb; exec; [by rewrite Hf|].
  destruct (fs v !! initialDbPath) as [t|] eqn:Ht; exec; [|by rewrite Hf].
  destruct Hcopy as [[? ?]|[?|Hc]]; try done.
  rewrite Hc. exec. rewrite Ht. exec. by rewrite Hf.
Qed.

Lemma spawnServer_no_exe v f :
  fs v !! exePath (host v) = None →
  (ServerManager.spawnServer f v).1
  = Throw (newError (str "Server executable not found at: "
                     ++ renderPath (exePath (host v)))).
Proof.
  intros H. unfold_server; unfold_runtime; exec. rewrite H.
  by rewrite bool_decide_eq_false_2 by (by intros [? ?]).
Qed.

Lemma spawnServer_fault v f e :
  is_Some (fs v !! exePath (host v)) → spawnFault f = Some e →
  (ServerManager.spawnServer f v).1 = Throw e.
Proof.
  intros H Hf. unfold_server; unfold_runtime; exec.
  rewrite bool_decide_eq_true_2 by done. exec. by rewrite Hf.
Qed.

(** A throw of one of the three calls is a throw of the [try] block. *)
Lemma try_block_throws f w e :
  (ServerManager.extractServerIfNeeded f (atProvisioning w)).1 = Throw e
  ∨ (∃ w1, ServerManager.extractServerIfNeeded f (atProvisioning w)
           = (Ok tt, w1)
           ∧ ((ServerManager.ensureDatabase f w1).1 = Throw e
              ∨ ∃ w2, ServerManager.ensureDatabase f w1 = (Ok tt, w2)
                      ∧ (ServerManager.spawnServer f w2).1 = Throw e)) →
  ∃ w', ServerManager.start_try f (atTry w) = (Throw e, w').
Proof.
  rewrite start_try_extract. unfold bind.
  intros [H|(w1 & -> & [H|(w2 & -> & H)])].
  - destruct (ServerManager.extractServerIfNeeded f _) as [r v].
    simpl in H. subst r. by eexists.
  - destruct (ServerManager.ensureDatabase f _) as [r v].
    simpl in H. subst r. by eexists.
  - destruct (ServerManager.spawnServer f _) as [r v].
    simpl in H. subst r. by eexists.
Qed.
End SetupFailures.

(** C1, as amended: every failure of the setup phase that [start()] can
    catch is thrown on to its caller and announced by an [error] status
    event, and [start()] has then assigned no handle and spawned no
    child.  By its cause: the bundled archive is missing, or the target
    directory cannot be created, or the archive cannot be unpacked; the
    template cannot be copied, or the database check fails; the
    executable is missing, or [spawn] throws; and in general whatever
    the [try] block throws.  A launch failure that the child reports
    through its ['error'] event is announced by an [error] status event
    too, but goes to the event loop as an uncaught exception, not to a
    caller of [start()], and leaves the handle set. *)
Theorem setup_failure_reported (w : World) :
  reachable w →
  (∀ f,
     ServerManager.status w ≠ running → ServerManager.status w ≠ starting →
     (¬ upToDate w →
        (fs w !! serverZipPath = None →
           raised f w (newError (str "Server zip not found at: "
                                 ++ renderPath serverZipPath)))
        ∧ (∀ e, is_Some (fs w !! serverZipPath) → mkdirFault f = Some e →
                raised f w e)
        ∧ (∀ e, is_Some (fs w !! serverZipPath) →
                rmFault f = None ∨ fs w !! serverExtractPath = None
                  ∨ fs w !! serverExtractPath = Some Dir →
                mkdirFault f = None → unzipFault f = Some e →
                raised f w e))
     ∧ (∀ w1,
          ServerManager.extractServerIfNeeded f (atProvisioning w)
          = (Ok tt, w1) →
          (∀ e, fs w1 !! dbPath = None → is_Some (fs w1 !! initialDbPath) →
                copyFault f = Some e → raised f w e)
          ∧ (∀ e, is_Some (fs w1 !! dbPath) ∨ fs w1 !! initialDbPath = None
                    ∨ copyFault f = None →
                  dbFault f = Some e → raised f w e)
          ∧ (∀ w2,
               ServerManager.ensureDatabase f w1 = (Ok tt, w2) →
               (fs w2 !! exePath (host w) = None →
                  raised f w
                    (newError (str "Server executable not found at: "
                               ++ renderPath (exePath (host w)))))
               ∧ (∀ e, is_Some (fs w2 !! exePath (host w)) →
                       spawnFault f = Some e → raised f w e)))
     ∧ (∀ e w1,
          ServerManager.start_try f (atTry w) = (Throw e, w1) →
          raised f w e))
  ∧ (∀ p c e,
       procs w !! p = Some c → owner c = OwnServer → phase c ≠ Closed →
       let w' := step (ProcError p e) w in
       ServerManager.status w' = error
       ∧ statusEvents (drop (List.length (ServerManager.emitted w))
                            (ServerManager.emitted w')) = [error]
       ∧ ServerManager.handle w' = ServerManager.handle w
       ∧ uncaught w' = uncaught w ++ [e]).
Proof.
  intros Hw%reachable_noErrorListener. split.
  - intros f Hr Hs.
    assert (∀ e, (∃ w', ServerManager.start_try f (atTry w) = (Throw e, w')) →
                 raised f w e) as Hraise.
    { intros e [w' H]. by apply (try_block_raises f w e w'). }
    split_and!.
    + intros Hn. split_and!.
      * intros Hz. apply Hraise, try_block_throws. left.
        destruct (extract_no_archive (atProvisioning w) f Hn Hz)
          as (w' & -> & _). done.
      * intros e Hz Hmk. apply Hraise, try_block_throws. left.
        by apply extract_mkdir_fails.
      * intros e Hz Hd Hmk Hun. apply Hraise, try_block_throws. left.
        by apply extract_unzip_fails.
    + intros w1 H1. split_and!.
      * intros e Hdb Ht Hc. apply Hraise, try_block_throws. right.
        exists w1. split; [done|]. left.
        by apply ensureDatabase_copy_fails.
      * intros e Hc Hf. apply Hraise, try_block_throws. right.
        exists w1. split; [done|]. left.
        by apply ensureDatabase_check_fails.
      * intros w2 H2.
        assert (host w2 = host w) as Hh.
        { assert (keeps (λ u, host u = host w)
                    (ServerManager.extractServerIfNeeded f;;
                     ServerManager.ensureDatabase f)) as K by keeps_go.
          specialize (K (atProvisioning w) eq_refl).
          unfold bind in K. by rewrite H1, H2 in K. }
        rewrite <- Hh. split.
        -- intros He. apply Hraise, try_block_throws. right.
           exists w1. split; [done|]. right. exists w2. split; [done|].
           by apply spawnServer_no_exe.
        -- intros e He Hf. apply Hraise, try_block_throws. right.
           exists w1. split; [done|]. right. exists w2. split; [done|].
           by apply spawnServer_fault.
    + intros e w1 H. by apply (try_block_raises f w e w1).
  - intros p c e Hp Ho Hph w'. subst w'. unfold step. rewrite Hp, Ho.
    destruct Hw as [Hl _].
    destruct (onError_runs e w Hl) as (w' & Hrun & Hst & Hh & Hu & He).
    assert (dispatch (ServerManager.onError e) w
            = withUncaught (λ u, u ++ [e]) w') as ->.
    { unfold dispatch. by rewrite Hrun. }
    destruct (phase c); try done;
      (split_and!; [exact Hst| |exact Hh|by rewrite <- Hu]);
      change (ServerManager.emitted (withUncaught (λ u, u ++ [e]) w'))
        with (ServerManager.emitted w');
      by rewrite He, drop_app_length.
Qed.

Lemma setup_failure_reported_witness :
  let w := launch Sample.linux ∅ (mkConfig None None None None) in
  let sqlite := mkErr (str "SqliteError")
                      (str "database disk image is malformed") in
  let enomem := mkErr (str "Error") (str "spawn ENOMEM") in
  raised noFaults w
    (newError (str "Server zip not found at: resources/server.zip"))
  ∧ raised (mkFaults None None None None (Some sqlite) None)
           Sample.firstLaunch sqlite
  ∧ raised (mkFaults None None None None None (Some enomem))
           Sample.firstLaunch enomem.
Proof.
  intros w sqlite enomem. split_and!.
  - destruct (setup_failure_reported w (reachable_launch _ _ _)) as [H _].
    destruct (H noFaults) as ((H1 & _) & _); [discriminate|discriminate| |].
    + intros ([x Hx] & _). vm_compute in Hx. discriminate.
    + apply H1. vm_compute. reflexivity.
  - destruct (setup_failure_reported Sample.firstLaunch
                (reachable_launch _ _ _)) as [H _].
    set (f := mkFaults None None None None (Some sqlite) None).
    destruct (H f) as (_ & H2 & _); [discriminate|discriminate|].
    destruct (H2 (ServerManager.extractServerIfNeeded f
                    (atProvisioning Sample.firstLaunch)).2) as (_ & H3 & _).
    + assert ((ServerManager.extractServerIfNeeded f
                 (atProvisioning Sample.firstLaunch)).1 = Ok tt) as E
        by (vm_compute; reflexivity).
      rewrite <- E. apply surjective_pairing.
    + apply H3; [|reflexivity]. right. right. reflexivity.
  - destruct (setup_failure_reported Sample.firstLaunch
                (reachable_launch _ _ _)) as [H _].
    set (f := mkFaults None None None None None (Some enomem)).
    destruct (H f) as (_ & H2 & _); [discriminate|discriminate|].
    set (w1 := (ServerManager.extractServerIfNeeded f
                  (atProvisioning Sample.firstLaunch)).2).
    destruct (H2 w1) as (_ & _ & H3).
    + assert ((ServerManager.extractServerIfNeeded f
                 (atProvisioning Sample.firstLaunch)).1 = Ok tt) as E
        by (vm_compute; reflexivity).
      rewrite <- E. apply surjective_pairing.
    + destruct (H3 (ServerManager.ensureDatabase f w1).2) as (_ & H4).
      * assert ((ServerManager.ensureDatabase f w1).1 = Ok tt) as E
          by (vm_compute; reflexivity).
        rewrite <- E. apply surjective_pairing.
      * apply H4; [|reflexivity]. vm_compute. eexists. reflexivity.
Defined.

(** C1 as stated fails for a spawn failure: the executable is there but
    cannot be launched; [start()] has returned normally when the child's
    ['error'] event sets the status [error], and the error ends as an
    uncaught exception of the event loop. *)
Lemma spawn_failure_not_raised :
  (ServerManager.start noFaults Sample.firstLaunch).1 = Ok tt
  ∧ (ServerManager.start noFaults Sample.firstLaunch).2 = Sample.serverUp
  ∧ ServerManager.status Sample.serverUp = starting
  ∧ let w := step (ProcError 0 Sample.eacces) Sample.serverUp in
    ServerManager.status w = error
    ∧ uncaught w = [Sample.eacces]
    ∧ ServerManager.handle w = Some 0%nat.
Proof.
  cbv zeta. split; [vm_compute; reflexivity|]. split; [reflexivity|].
  split_and!; vm_compute; reflexivity.
Qed.

(** * Further properties

    Of the two managers first, then of the IPC handlers, of the quit
    sequence, of the license manager and of the dashboard. *)

Arguments shownStatus : simpl never.
Arguments shownUrl : simpl never.

(** ** The observers are in step with the managers *)

Lemma shownStatus_snoc_status {S} (i : S) es s :
  shownStatus i (es ++ [StatusChange s]) = s.
Proof.
  unfold shownStatus, statusEvents. rewrite omap_app. simpl.
  by rewrite last_snoc.
Qed.

Lemma shownStatus_snoc_other {S} (i : S) es e :
  (∀ s, e ≠ StatusChange s) →
  shownStatus i (es ++ [e]) = shownStatus i es.
Proof.
  intros H. unfold shownStatus, statusEvents. rewrite omap_app. simpl.
  destruct e; rewrite ?app_nil_r; try done. by destruct (H s).
Qed.

Lemma shownUrl_snoc_url {S} (es : list (Event S)) u :
  shownUrl (es ++ [UrlChange u]) = u.
Proof.
  unfold shownUrl, urlEvents. rewrite omap_app. simpl. by rewrite last_snoc.
Qed.

Lemma shownUrl_snoc_other {S} (es : list (Event S)) e :
  (∀ u, e ≠ UrlChange u) → shownUrl (es ++ [e]) = shownUrl es.
Proof.
  intros H. unfold shownUrl, urlEvents. rewrite omap_app. simpl.
  destruct e; rewrite ?app_nil_r; try done. by destruct (H url).
Qed.

Lemma sync_server_setStatus s : keeps inSync (ServerManager.setStatus s).
Proof.
  run_op. unfold inSync, ServerManager.emitted, ServerManager.status.
  cbn. intros (_ & H2 & H3). split; [|done].
  rewrite shownStatus_snoc_other by done. apply shownStatus_snoc_status.
Qed.

Lemma sync_server_emit e :
  (∀ s, e ≠ StatusChange s) → keeps inSync (ServerManager.emit e).
Proof.
  intros He. run_op. unfold inSync, ServerManager.emitted, ServerManager.status.
  cbn. intros (H1 & H2 & H3). split; [|done].
  by rewrite shownStatus_snoc_other.
Qed.

Lemma sync_tunnel_setStatus s : keeps inSync (TunnelManager.setStatus s).
Proof.
  run_op. unfold inSync, TunnelManager.emitted, TunnelManager.status,
    TunnelManager.url.
  cbn. intros (H1 & _ & H3). split; [done|]. split.
  - apply shownStatus_snoc_status.
  - by rewrite shownUrl_snoc_other.
Qed.

Lemma sync_tunnel_emit e :
  (∀ s, e ≠ StatusChange s) → (∀ u, e ≠ UrlChange u) →
  keeps inSync (TunnelManager.emit e).
Proof.
  intros He Hu. run_op. unfold inSync, TunnelManager.emitted,
    TunnelManager.status, TunnelManager.url.
  cbn. intros (H1 & H2 & H3). split; [done|]. split.
  - by rewrite shownStatus_snoc_other.
  - by rewrite shownUrl_snoc_other.
Qed.

(** The operations that announce what they assign, taken as units. *)
Ltac sync_step :=
  lazymatch goal with
  | |- keeps _ (ServerManager.setStatus _) => apply sync_server_setStatus
  | |- keeps _ (TunnelManager.setStatus _) => apply sync_tunnel_setStatus
  | |- keeps _ (ServerManager.emit _) => apply sync_server_emit; by intros ?
  | |- keeps _ (TunnelManager.emit _) =>
      apply sync_tunnel_emit; by intros ?
  | _ => keeps_step ltac:(fun H => exact H)
  end.

Ltac sync_go :=
  unfold ServerManager.start, ServerManager.start_try,
    ServerManager.start_catch, ServerManager.stop, ServerManager.stop_onExit,
    ServerManager.stop_onTimeout, ServerManager.onClose,
    ServerManager.onError, ServerManager.onStderr, ServerManager.onStdout,
    ServerManager.spawnServer, ServerManager.ensureDatabase,
    ServerManager.extractServerIfNeeded, ServerManager.emitError,
    ServerManager.assignProcess, ServerManager.assignPort,
    TunnelManager.start, TunnelManager.stop, TunnelManager.onError,
    TunnelManager.emitError, TunnelManager.assignProcess;
  unfold_runtime;
  repeat sync_step.

Lemma sync_server_ops :
  (∀ f, keeps inSync (ServerManager.start f))
  ∧ keeps inSync ServerManager.stop
  ∧ (∀ d, keeps inSync (ServerManager.onStdout d))
  ∧ (∀ d, keeps inSync (ServerManager.onStderr d))
  ∧ (∀ e, keeps inSync (ServerManager.onError e))
  ∧ (∀ c, keeps inSync (ServerManager.onClose c))
  ∧ (∀ k, keeps inSync (ServerManager.stop_onExit k))
  ∧ (∀ k, keeps inSync (ServerManager.stop_onTimeout k)).
Proof. split_and!; intros; sync_go. Qed.

(** The URL is assigned and announced in one go. *)
Lemma sync_url_logged {A} u m (k : M A) :
  keeps inSync k →
  keeps inSync (TunnelManager.assignUrl u;;
                TunnelManager.emit (Log m);;
                TunnelManager.emit (UrlChange u);; k).
Proof.
  intros Hk w (H1 & H2 & H3).
  unfold TunnelManager.assignUrl, TunnelManager.emit, bind, modify.
  apply Hk. unfold inSync, TunnelManager.emitted, TunnelManager.status,
    TunnelManager.url in *. cbn. split; [done|]. split.
  - by rewrite !shownStatus_snoc_other.
  - apply shownUrl_snoc_url.
Qed.

Lemma sync_url_announced {A} u (k : M A) :
  keeps inSync k →
  keeps inSync (TunnelManager.assignUrl u;;
                TunnelManager.emit (UrlChange u);; k).
Proof.
  intros Hk w (H1 & H2 & H3).
  unfold TunnelManager.assignUrl, TunnelManager.emit, bind, modify.
  apply Hk. unfold inSync, TunnelManager.emitted, TunnelManager.status,
    TunnelManager.url in *. cbn. split; [done|]. split.
  - by rewrite !shownStatus_snoc_other.
  - apply shownUrl_snoc_url.
Qed.

Lemma sync_url_announced_last u :
  keeps inSync (TunnelManager.assignUrl u;;
                TunnelManager.emit (UrlChange u)).
Proof.
  intros w (H1 & H2 & H3).
  unfold TunnelManager.assignUrl, TunnelManager.emit, bind, modify.
  unfold inSync, TunnelManager.emitted, TunnelManager.status,
    TunnelManager.url in *. cbn. split; [done|]. split.
  - by rewrite !shownStatus_snoc_other.
  - apply shownUrl_snoc_url.
Qed.

Ltac sync_url_step :=
  lazymatch goal with
  | |- keeps _ (bind (TunnelManager.assignUrl _)
                     (λ _, bind (TunnelManager.emit (Log _)) _)) =>
      apply sync_url_logged
  | |- keeps _ (bind (TunnelManager.assignUrl _)
                     (λ _, bind (TunnelManager.emit (UrlChange _)) _)) =>
      apply sync_url_announced
  | |- keeps _ (bind (TunnelManager.assignUrl _)
                     (λ _, TunnelManager.emit (UrlChange _))) =>
      apply sync_url_announced_last
  | _ => sync_step
  end.

Lemma sync_tunnel_ops :
  (∀ p f, keeps inSync (TunnelManager.start p f))
  ∧ keeps inSync TunnelManager.stop
  ∧ (∀ d, keeps inSync (TunnelManager.onData d))
  ∧ (∀ e, keeps inSync (TunnelManager.onError e))
  ∧ (∀ c, keeps inSync (TunnelManager.onClose c))
  ∧ (∀ k, keeps inSync (TunnelManager.stop_onExit k))
  ∧ (∀ k, keeps inSync (TunnelManager.stop_onTimeout k)).
Proof.
  split_and!; intros;
    unfold TunnelManager.start, TunnelManager.stop, TunnelManager.onError,
      TunnelManager.onData, TunnelManager.parseTunnelOutput,
      TunnelManager.onClose, TunnelManager.stop_onExit,
      TunnelManager.stop_onTimeout,
      TunnelManager.emitError, TunnelManager.assignProcess;
    unfold_runtime; repeat sync_url_step.
Qed.

(** X1: between two turns of the event loop the last status event each
    manager has emitted carries the status the manager holds, and the
    last URL event of the tunnel carries the URL it holds: what the
    renderer was told last is never stale. *)
Theorem observers_in_sync (w : World) : reachable w → inSync w.
Proof.
  induction 1 as [h files c|i w _ IH]; [done|].
  destruct sync_server_ops as (? & ? & ? & ? & ? & ? & ? & ?).
  destruct sync_tunnel_ops as (? & ? & ? & ? & ? & ? & ?).
  revert IH. by apply step_keeps.
Qed.

Lemma observers_in_sync_witness :
  inSync (run [ProcStderr 1 (str "INF |  https://abc-def-123.trycloudflare.com  |");
               ProcStdout 0 (str "Server listening on port 4000");
               TunnelStop; ProcExit 1]
              Sample.bothUp).
Proof.
  apply observers_in_sync.
  apply reachable_run, reachable_run, reachable_run, reachable_launch.
Defined.

(** ** How [running] is reached *)

Lemma notRunning_ops :
  (∀ f, keeps notRunning (ServerManager.start f))
  ∧ keeps notRunning ServerManager.stop
  ∧ (∀ d, keeps notRunning (ServerManager.onStderr d))
  ∧ (∀ e, keeps notRunning (ServerManager.onError e))
  ∧ (∀ c, keeps notRunning (ServerManager.onClose c))
  ∧ (∀ k, keeps notRunning (ServerManager.stop_onExit k))
  ∧ (∀ k, keeps notRunning (ServerManager.stop_onTimeout k))
  ∧ (∀ p f, keeps notRunning (TunnelManager.start p f))
  ∧ keeps notRunning TunnelManager.stop
  ∧ (∀ d, keeps notRunning (TunnelManager.onData d))
  ∧ (∀ e, keeps notRunning (TunnelManager.onError e))
  ∧ (∀ c, keeps notRunning (TunnelManager.onClose c))
  ∧ (∀ k, keeps notRunning (TunnelManager.stop_onExit k))
  ∧ (∀ k, keeps notRunning (TunnelManager.stop_onTimeout k)).
Proof.
  unfold notRunning, ServerManager.status.
  split_and!; intros;
    keeps_go_with ltac:(fun H => first [exact H | by cbn]).
Qed.

Lemma onStdout_plain w data :
  includes (str "Nest application successfully started") (trim data)
  || includes (str "listening on port " ++ numToString (port (server w)))
              (trim data) = false →
  ∃ w', ServerManager.onStdout data w = (Ok tt, w')
        ∧ ServerManager.status w' = ServerManager.status w.
Proof.
  intros H. eexists. unfold_server; unfold_runtime; cbn. rewrite H. cbn.
  split; reflexivity.
Qed.

(** X2: the status of the primary service becomes [running] in a turn of
    the event loop only when that turn delivers a chunk of the child's
    [stdout] whose trimmed text has one of the two readiness markers;
    neither [start()], [stop()], [stderr] nor any event of the tunnel
    sets it. *)
Theorem running_only_by_marker (i : Input) (w : World) :
  ServerManager.status w ≠ running →
  ServerManager.status (step i w) = running →
  ∃ p c data,
    i = ProcStdout p data ∧ procs w !! p = Some c ∧ owner c = OwnServer
    ∧ phase c ≠ Closed
    ∧ (includes (str "Nest application successfully started") (trim data)
       || includes (str "listening on port "
                    ++ numToString (port (server w))) (trim data)) = true.
Proof.
  intros Hw Hr.
  destruct notRunning_ops
    as (? & ? & ? & ? & ? & ? & ? & ? & ? & ? & ? & ? & ? & ?).
  assert (∀ g v, notRunning v → notRunning (withUncaught g v)) as Hu by done.
  assert (∀ c v, keeps notRunning c → notRunning v →
                 notRunning (dispatch c v)) as Hd
    by (intros; by apply dispatch_keeps).
  assert (∀ data,
            ServerManager.status (dispatch (ServerManager.onStdout data) w)
            = running →
            includes (str "Nest application successfully started") (trim data)
            || includes (str "listening on port "
                         ++ numToString (port (server w))) (trim data)
            = true) as Hout.
  { intros data Hrun. destruct (_ || _) eqn:E; [done|].
    destruct (onStdout_plain w data E) as (w' & Hrun' & Hst).
    unfold dispatch in Hrun. rewrite Hrun' in Hrun. congruence. }
  destruct i; simpl in Hr.
  all: try (exfalso; revert Hr; fold (notRunning (call (ServerManager.start f) w));
            by apply call_keeps).
  all: try (exfalso; revert Hr; by apply (call_keeps notRunning)).
  all: repeat match type of Hr with
              | context [match ?x with _ => _ end] => destruct x eqn:?
              end; try done.
  all: try (exfalso; revert Hr; by apply Hd).
  all: try (eexists _, _, _; split_and!;
            [reflexivity|eassumption|done|congruence|by apply Hout]).
  all: try (exfalso; revert Hr; apply (exitListeners_keep notRunning); try done;
            by apply (call_keeps notRunning); [unfold notRunning, ServerManager.status; keeps_go|]).
Qed.

Lemma tunnelNotRunning_ops :
  (∀ f, keeps tunnelNotRunning (ServerManager.start f))
  ∧ keeps tunnelNotRunning ServerManager.stop
  ∧ (∀ d, keeps tunnelNotRunning (ServerManager.onStdout d))
  ∧ (∀ d, keeps tunnelNotRunning (ServerManager.onStderr d))
  ∧ (∀ e, keeps tunnelNotRunning (ServerManager.onError e))
  ∧ (∀ c, keeps tunnelNotRunning (ServerManager.onClose c))
  ∧ (∀ k, keeps tunnelNotRunning (ServerManager.stop_onExit k))
  ∧ (∀ k, keeps tunnelNotRunning (ServerManager.stop_onTimeout k))
  ∧ (∀ p f, keeps tunnelNotRunning (TunnelManager.start p f))
  ∧ keeps tunnelNotRunning TunnelManager.stop
  ∧ (∀ e, keeps tunnelNotRunning (TunnelManager.onError e))
  ∧ (∀ c, keeps tunnelNotRunning (TunnelManager.onClose c))
  ∧ (∀ k, keeps tunnelNotRunning (TunnelManager.stop_onExit k))
  ∧ (∀ k, keeps tunnelNotRunning (TunnelManager.stop_onTimeout k)).
Proof.
  unfold tunnelNotRunning, TunnelManager.status.
  split_and!; intros;
    keeps_go_with ltac:(fun H => first [exact H | by cbn]).
Qed.

Lemma onData_plain w data :
  quickTunnelMatch (trim data) = None →
  includes (str "Connection") (trim data)
  && includes (str "registered") (trim data) = false →
  ∃ w', TunnelManager.onData data w = (Ok tt, w')
        ∧ (TunnelManager.status w' = TunnelManager.status w
           ∨ TunnelManager.status w' = TunnelStatus.error).
Proof.
  intros Hm Hc. unfold_tunnel; unfold_runtime; exec. rewrite Hm, Hc. exec.
  destruct (includes (str "failed") (trim data)
            || includes (str "error") (trim data)); exec;
    [destruct (truthyOpt (tunnelUrl (tunnel w))); exec|];
    (eexists; split; [reflexivity|]); auto.
Qed.

(** X3: the status of the tunnel becomes [running] in a turn of the
    event loop only when that turn delivers a chunk of the tunnel's
    output in which the pattern finds a quick-tunnel URL or which has
    both [Connection] and [registered]. *)
Theorem tunnel_running_only_by_output (i : Input) (w : World) :
  TunnelManager.status w ≠ TunnelStatus.running →
  TunnelManager.status (step i w) = TunnelStatus.running →
  ∃ p c data,
    (i = ProcStdout p data ∨ i = ProcStderr p data)
    ∧ procs w !! p = Some c ∧ owner c = OwnTunnel ∧ phase c ≠ Closed
    ∧ (is_Some (quickTunnelMatch (trim data))
       ∨ includes (str "Connection") (trim data)
         && includes (str "registered") (trim data) = true).
Proof.
  intros Hw Hr.
  destruct tunnelNotRunning_ops
    as (? & ? & ? & ? & ? & ? & ? & ? & ? & ? & ? & ? & ? & ?).
  assert (∀ g v, tunnelNotRunning v → tunnelNotRunning (withUncaught g v))
    as Hu by done.
  assert (∀ c v, keeps tunnelNotRunning c → tunnelNotRunning v →
                 tunnelNotRunning (dispatch c v)) as Hd
    by (intros; by apply dispatch_keeps).
  assert (∀ data,
            TunnelManager.status (dispatch (TunnelManager.onData data) w)
            = TunnelStatus.running →
            is_Some (quickTunnelMatch (trim data))
            ∨ includes (str "Connection") (trim data)
              && includes (str "registered") (trim data) = true) as Hout.
  { intros data Hrun.
    destruct (quickTunnelMatch (trim data)) eqn:Em; [left; by eexists|].
    destruct (_ && _) eqn:Ec; [by right|].
    destruct (onData_plain w data Em Ec) as (w' & Hrun' & Hst).
    unfold dispatch in Hrun. rewrite Hrun' in Hrun.
    destruct Hst as [Hst|Hst]; congruence. }
  destruct i; simpl in Hr.
  all: try (exfalso; revert Hr; by apply (call_keeps tunnelNotRunning)).
  all: repeat match type of Hr with
              | context [match ?x with _ => _ end] => destruct x eqn:?
              end; try done.
  all: try (exfalso; revert Hr; by apply Hd).
  all: try (eexists _, _, _; split_and!;
            [by left|eassumption|done|congruence|by apply Hout]).
  all: try (eexists _, _, _; split_and!;
            [by right|eassumption|done|congruence|by apply Hout]).
  all: try (exfalso; revert Hr;
            apply (exitListeners_keep tunnelNotRunning); try done;
            by apply (call_keeps tunnelNotRunning);
              [unfold tunnelNotRunning, TunnelManager.status; keeps_go|]).
Qed.

Lemma running_only_by_marker_witness :
  let line := str "Server listening on port 4000" in
  ServerManager.status Sample.bothUp ≠ running
  ∧ ServerManager.status (step (ProcStdout 0 line) Sample.bothUp) = running
  ∧ ∃ p c data, ProcStdout 0 line = ProcStdout p data
                ∧ procs Sample.bothUp !! p = Some c ∧ owner c = OwnServer.
Proof.
  intros line.
  assert (ServerManager.status Sample.bothUp ≠ running) as H1
    by (vm_compute; discriminate).
  assert (ServerManager.status (step (ProcStdout 0 line) Sample.bothUp)
          = running) as H2 by (vm_compute; reflexivity).
  split; [exact H1|]. split; [exact H2|].
  destruct (running_only_by_marker (ProcStdout 0 line) Sample.bothUp H1 H2)
    as (p & c & data & Hi & Hp & Ho & _).
  exists p, c, data. split; [exact Hi|]. split; [exact Hp|exact Ho].
Defined.

Lemma tunnel_running_only_by_output_witness :
  let line := str "INF Connection 7f3a registered connIndex=0" in
  TunnelManager.status Sample.bothUp ≠ TunnelStatus.running
  ∧ TunnelManager.status (step (ProcStderr 1 line) Sample.bothUp)
    = TunnelStatus.running
  ∧ ∃ p c data, (ProcStderr 1 line = ProcStdout p data
                 ∨ ProcStderr 1 line = ProcStderr p data)
                ∧ procs Sample.bothUp !! p = Some c ∧ owner c = OwnTunnel.
Proof.
  intros line.
  assert (TunnelManager.status Sample.bothUp ≠ TunnelStatus.running) as H1
    by (vm_compute; discriminate).
  assert (TunnelManager.status (step (ProcStderr 1 line) Sample.bothUp)
          = TunnelStatus.running) as H2 by (vm_compute; reflexivity).
  split; [exact H1|]. split; [exact H2|].
  destruct (tunnel_running_only_by_output (ProcStderr 1 line) Sample.bothUp
              H1 H2)
    as (p & c & data & Hi & Hp & Ho & _).
  exists p, c, data. split; [exact Hi|]. split; [exact Hp|exact Ho].
Defined.

(** ** [stop()] with nothing to stop *)

(** X4: [stop()] of a manager whose status is [idle] settles at once and
    changes nothing: no status event, no signal, no timer. *)
Theorem stop_when_idle_is_noop (o : Owner) (w : World) :
  reachable w → isIdle o w → stopOf o w = (Ok Immediately, w).
Proof.
  intros [(Hs & _) Ht]%reachable_Inv Hi.
  destruct o; simpl in *; unfold ServerManager.stop, TunnelManager.stop,
    ServerManager.handle, TunnelManager.handle, bind, gets.
  - unfold ServerManager.status in Hi. by rewrite (Hs Hi).
  - unfold TunnelManager.status in Hi. by rewrite (Ht Hi).
Qed.

Lemma stop_when_idle_is_noop_witness :
  isIdle OwnTunnel Sample.serverUp
  ∧ stopOf OwnTunnel Sample.serverUp = (Ok Immediately, Sample.serverUp).
Proof.
  assert (isIdle OwnTunnel Sample.serverUp) as H by (vm_compute; reflexivity).
  split; [exact H|].
  apply (stop_when_idle_is_noop OwnTunnel Sample.serverUp); [|exact H].
  apply reachable_run, reachable_launch.
Defined.

(** ** What a successful start leaves behind *)

Lemma spawnServer_ok f v v' :
  ServerManager.spawnServer f v = (Ok tt, v') →
  procs v'
  = procs v ++ [mkProc OwnServer (exePath (host v)) []
                  (serverEnv (port (server v)) (get_chromePath (config v)))
                  Alive [] []]
  ∧ ServerManager.handle v' = Some (List.length (procs v))
  ∧ ServerManager.status v' = starting
  ∧ port (server v') = port (server v).
Proof.
  unfold_server; unfold_runtime; exec.
  destruct (bool_decide _); exec; [|done].
  destruct (spawnFault f); exec; [done|].
  by intros [= <-].
Qed.

Lemma setup_keeps_beforeSpawn ps p chrome h f :
  keeps (beforeSpawn ps p chrome h)
        (ServerManager.emit (Log (str "Starting initialization sequence..."));;
         ServerManager.extractServerIfNeeded f;;
         ServerManager.ensureDatabase f).
Proof. unfold beforeSpawn. keeps_go. Qed.

Lemma start_try_ok f w w' :
  ServerManager.start_try f w = (Ok tt, w') →
  procs w'
  = procs w ++ [mkProc OwnServer (exePath (host w)) []
                  (serverEnv (port (server w)) (get_chromePath (config w)))
                  Alive [] []]
  ∧ ServerManager.handle w' = Some (List.length (procs w))
  ∧ ServerManager.status w' = starting
  ∧ port (server w') = port (server w).
Proof.
  intros H.
  assert (ServerManager.start_try f w
          = bind (ServerManager.emit (Log (str "Starting initialization sequence..."));;
                  ServerManager.extractServerIfNeeded f;;
                  ServerManager.ensureDatabase f)
                 (λ _, ServerManager.spawnServer f) w) as E.
  { unfold ServerManager.start_try, bind.
    destruct (ServerManager.emit _ w) as [[?|?] ?]; [|done].
    by destruct (ServerManager.extractServerIfNeeded f _) as [[?|?] ?]. }
  rewrite E in H. unfold bind at 1 in H.
  pose proof (setup_keeps_beforeSpawn (procs w) (port (server w))
                (get_chromePath (config w)) (host w) f w) as K.
  destruct (bind _ _ w) as [[[]|e] v]; [|done].
  destruct K as (K1 & K2 & K3 & K4); [done|].
  pose proof (spawnServer_ok _ _ _ H) as S.
  by rewrite K1, K2, K3, K4 in S.
Qed.

Lemma start_ok_spawns (w w' : World) (f : Faults) :
  noErrorListener w →
  ServerManager.status w ≠ running → ServerManager.status w ≠ starting →
  ServerManager.start f w = (Ok tt, w') →
  let p := orNum (get_serverPort (config w)) 4000 in
  procs w'
  = procs w ++ [mkProc OwnServer (exePath (host w)) []
                  (serverEnv p (get_chromePath (config w))) Alive [] []]
  ∧ ServerManager.handle w' = Some (List.length (procs w))
  ∧ ServerManager.status w' = starting
  ∧ port (server w') = p.
Proof.
  intros Hw Hr Hs Hok p.
  rewrite server_start_unguarded, startUnguarded_atTry in Hok by done.
  unfold tryCatch in Hok.
  destruct (ServerManager.start_try f (atTry w)) as [[[]|e] v] eqn:Ht.
  - injection Hok as <-. exact (start_try_ok _ _ _ Ht).
  - pose proof (start_try_keepsOnThrow (ServerManager.handle w) f (atTry w))
      as K.
    rewrite Ht in K. destruct K as [_ [Hl _]]; [by split|].
    destruct (start_catch_runs e v Hl) as (v' & Hc & _).
    by rewrite Hc in Hok.
Qed.

(** X5: a [start()] that passes its guard and returns normally has
    spawned exactly one child, the extracted executable without
    arguments, with [PORT] set to the stored port (4000 when none is
    stored or zero is), [DATABASE_URL], [CHROME_PATH], [NODE_ENV] and
    [PUPPETEER_SKIP_DOWNLOAD]; it holds the handle of that child and the
    status is [starting]. *)
Theorem start_spawns_server (w w' : World) (f : Faults) :
  reachable w →
  ServerManager.status w ≠ running → ServerManager.status w ≠ starting →
  ServerManager.start f w = (Ok tt, w') →
  let p := orNum (get_serverPort (config w)) 4000 in
  procs w'
  = procs w ++ [mkProc OwnServer (exePath (host w)) []
                  (serverEnv p (get_chromePath (config w))) Alive [] []]
  ∧ ServerManager.handle w' = Some (List.length (procs w))
  ∧ ServerManager.status w' = starting
  ∧ port (server w') = p.
Proof. intros Hw%reachable_noErrorListener. by apply start_ok_spawns. Qed.

Lemma start_spawns_server_witness :
  let w := launch Sample.linux {[ serverZipPath := Sample.bundle ]}
             (mkConfig (Some (str "/usr/bin/chromium")) (Some 0) None None) in
  ∃ w', ServerManager.start noFaults w = (Ok tt, w')
        ∧ env <$> procs w' !! 0%nat
          = Some (serverEnv 4000 (str "/usr/bin/chromium")).
Proof.
  intros w. exists (ServerManager.start noFaults w).2.
  assert (ServerManager.start noFaults w
          = (Ok tt, (ServerManager.start noFaults w).2)) as H.
  { assert ((ServerManager.start noFaults w).1 = Ok tt) as H1
      by (vm_compute; reflexivity).
    rewrite <- H1. apply surjective_pairing. }
  split; [exact H|].
  destruct (start_spawns_server w (ServerManager.start noFaults w).2 noFaults)
    as (Hp & _);
    [apply reachable_launch|discriminate|discriminate|exact H|].
  rewrite Hp. reflexivity.
Defined.

(** ** Provisioning, again and after a failure *)

Lemma unpack_keeps_entry (target : Path) (entries : list (Path * N))
    (m : gmap Path Node) (q : Path) :
  is_Some (m !! q) → is_Some (unpack target entries m !! q).
Proof.
  unfold unpack. revert m.
  induction entries as [|e entries IH]; intros m H; simpl; [done|].
  apply IH. destruct (decide (target ++ e.1 = q)) as [->|Hne].
  - by rewrite lookup_insert_eq.
  - by rewrite lookup_insert_ne.
Qed.

Lemma unpack_lookup_entry (target : Path) (entries : list (Path * N))
    (m : gmap Path Node) (e : Path * N) :
  e ∈ entries → is_Some (unpack target entries m !! (target ++ e.1)).
Proof.
  unfold unpack. revert m.
  induction entries as [|e' entries IH]; intros m H; simpl.
  - by apply elem_of_nil in H.
  - apply elem_of_cons in H as [->|H]; [|by apply IH].
    apply (unpack_keeps_entry target entries). by rewrite lookup_insert_eq.
Qed.

Lemma extract_keeps_host h f :
  keeps (λ w, host w = h) (ServerManager.extractServerIfNeeded f).
Proof. keeps_go. Qed.

(** X6: when the bundled archive has the executable and the tunnel
    binary, a successful extraction leaves the installation up to date,
    so the next [extractServerIfNeeded] skips the extraction and touches
    neither the disk nor the store. *)
Theorem provisioning_is_idempotent (w : World) (f f' : Faults)
    (entries : list (Path * N)) (n1 n2 : N) :
  ¬ upToDate w →
  fs w !! serverZipPath = Some (Zip entries) →
  ([exeName (host w)], n1) ∈ entries →
  (["cloudflared"%string; cloudflaredName (host w)], n2) ∈ entries →
  rmFault f = None → mkdirFault f = None → unzipFault f = None →
  ∃ w', ServerManager.extractServerIfNeeded f w = (Ok tt, w')
        ∧ upToDate w'
        ∧ ∃ w'', ServerManager.extractServerIfNeeded f' w' = (Ok tt, w'')
                 ∧ fs w'' = fs w' ∧ config w'' = config w'.
Proof.
  intros Hn Hz He Hc Hrm Hmk Hun.
  destruct (extract_done w f entries Hn Hz Hrm Hmk Hun)
    as (w' & rest & Hr & Hfs & Hv & _).
  pose proof (extract_keeps_host (host w) f w eq_refl) as Hh.
  rewrite Hr in Hh.
  assert (upToDate w') as Hup.
  { unfold upToDate. rewrite Hh, Hfs. split_and!.
    - apply (unpack_lookup_entry serverExtractPath entries _ _ He).
    - apply (unpack_lookup_entry serverExtractPath entries _ _ Hc).
    - unfold get_serverVersion. by rewrite Hv. }
  exists w'. split_and!; try done.
  destruct (extract_skipped w' f' Hup) as (w'' & ? & ? & ? & _).
  by exists w''.
Qed.

Lemma provisioning_is_idempotent_witness :
  ∃ w', ServerManager.extractServerIfNeeded noFaults Sample.firstLaunch
        = (Ok tt, w')
        ∧ upToDate w'.
Proof.
  destruct (provisioning_is_idempotent Sample.firstLaunch noFaults noFaults
              [(["main"], 1); (["cloudflared"; "cloudflared"], 2);
               (["initial.db"], 3)]%string 1 2)
    as (w' & Hr & Hup & _).
  - intros ([x Hx] & _). vm_compute in Hx. discriminate.
  - vm_compute; reflexivity.
  - set_solver.
  - set_solver.
  - reflexivity.
  - reflexivity.
  - reflexivity.
  - exists w'. split; [exact Hr|exact Hup].
Defined.

Lemma keepsOnThrow_total {A} P (c : M A) :
  (∀ w, ∃ a w', c w = (Ok a, w')) → keepsOnThrow P c.
Proof. intros H w _. by destruct (H w) as (a & w' & ->). Qed.

Lemma extract_keepsOnThrow_config c f :
  keepsOnThrow (λ w, config w = c) (ServerManager.extractServerIfNeeded f).
Proof.
  unfold ServerManager.extractServerIfNeeded.
  do 5 keepsOnThrow_step. cbv zeta.
  match goal with |- keepsOnThrow _ (if ?b then _ else _) => destruct b end.
  - repeat lazymatch goal with
           | |- keepsOnThrow _ (bind (modify (withConfig _)) _) => fail
           | _ => keepsOnThrow_step
           end.
    apply keepsOnThrow_total. intros w. eexists _, _. reflexivity.
  - keepsOnThrow_step. apply keepsOnThrow_total. intros w.
    eexists _, _. reflexivity.
Qed.

(** X7: when [extractServerIfNeeded] throws, at whatever step, the
    configuration store is as it was: the version tag is written only
    after the archive has been unpacked. *)
Theorem failed_extraction_keeps_tag (w w' : World) (f : Faults) (e : Err) :
  ServerManager.extractServerIfNeeded f w = (Throw e, w') →
  config w' = config w.
Proof.
  intros H. pose proof (extract_keepsOnThrow_config (config w) f w eq_refl) as K.
  by rewrite H in K.
Qed.

Lemma failed_extraction_keeps_tag_witness :
  let f := mkFaults None None (Some (newError (str "ADM-ZIP: Invalid format")))
                    None None None in
  let r := ServerManager.extractServerIfNeeded f Sample.firstLaunch in
  r.1 = Throw (newError (str "ADM-ZIP: Invalid format"))
  ∧ config r.2 = config Sample.firstLaunch.
Proof.
  intros f r.
  assert (r.1 = Throw (newError (str "ADM-ZIP: Invalid format"))) as H
    by (vm_compute; reflexivity).
  split; [exact H|].
  apply (failed_extraction_keeps_tag Sample.firstLaunch r.2 f
           (newError (str "ADM-ZIP: Invalid format"))).
  rewrite <- H. apply surjective_pairing.
Defined.

(** ** The database *)

Lemma dbPath_outside : ¬ serverExtractPath `prefix_of` dbPath.
Proof. by intros [? ?]. Qed.

Lemma unpack_lookup_outside (target : Path) (entries : list (Path * N))
    (m : gmap Path Node) (q : Path) :
  ¬ target `prefix_of` q → unpack target entries m !! q = m !! q.
Proof.
  intros Hq. unfold unpack. revert m.
  induction entries as [|e entries IH]; intros m; simpl; [done|].
  rewrite IH. apply lookup_insert_ne. intros <-. apply Hq.
  by apply prefix_app_r.
Qed.

Lemma converted_again h n c :
  converted h n (File c) → converted h n (File (sqliteWal h c)).
Proof.
  intros [<-|(c0 & k & -> & [= ->])]; right.
  - by exists c, 1%nat.
  - by exists c0, (S k).
Qed.

(** With a database on disk [ensureDatabase] copies nothing; the check
    converts a file and fails on anything else. *)
Lemma ensureDatabase_converts h n f :
  keeps (databaseFrom h n) (ServerManager.ensureDatabase f).
Proof.
  run_op. unfold databaseFrom. intros (Hh & n' & Hfs & Hc).
  rewrite Hfs. cbn.
  destruct (dbFault f); exec; rewrite ?Hfs; exec.
  - split; [done|]. by exists n'.
  - destruct n' as [|c|z]; exec.
    + split; [done|]. by exists Dir.
    + split; [done|]. eexists. rewrite lookup_insert_eq. split; [done|].
      rewrite Hh. by apply converted_again.
    + split; [done|]. by exists (Zip z).
Qed.

Ltac db_leaf H :=
  first [ exact H
        | let Hh := fresh "Hh" in let n' := fresh "n'" in
          let Hfs := fresh "Hfs" in let Hc := fresh "Hc" in
          destruct H as (Hh & n' & Hfs & Hc);
          split; [exact Hh|]; exists n'; split; [|exact Hc];
          cbn [fs withFs];
          first [ by rewrite rmTree_lookup_other by apply dbPath_outside
                | by rewrite lookup_insert_ne
                | by rewrite unpack_lookup_outside by apply dbPath_outside ] ].

Ltac db_step :=
  lazymatch goal with
  | |- keeps _ (ServerManager.ensureDatabase _) =>
      apply ensureDatabase_converts
  | _ => keeps_step db_leaf
  end.

Lemma database_ops h n :
  (∀ f, keeps (databaseFrom h n) (ServerManager.start f))
  ∧ keeps (databaseFrom h n) ServerManager.stop
  ∧ (∀ d, keeps (databaseFrom h n) (ServerManager.onStdout d))
  ∧ (∀ d, keeps (databaseFrom h n) (ServerManager.onStderr d))
  ∧ (∀ e, keeps (databaseFrom h n) (ServerManager.onError e))
  ∧ (∀ c, keeps (databaseFrom h n) (ServerManager.onClose c))
  ∧ (∀ k, keeps (databaseFrom h n) (ServerManager.stop_onExit k))
  ∧ (∀ k, keeps (databaseFrom h n) (ServerManager.stop_onTimeout k))
  ∧ (∀ p f, keeps (databaseFrom h n) (TunnelManager.start p f))
  ∧ keeps (databaseFrom h n) TunnelManager.stop
  ∧ (∀ d, keeps (databaseFrom h n) (TunnelManager.onData d))
  ∧ (∀ e, keeps (databaseFrom h n) (TunnelManager.onError e))
  ∧ (∀ c, keeps (databaseFrom h n) (TunnelManager.onClose c))
  ∧ (∀ k, keeps (databaseFrom h n) (TunnelManager.stop_onExit k))
  ∧ (∀ k, keeps (databaseFrom h n) (TunnelManager.stop_onTimeout k)).
Proof.
  split_and!; intros;
    unfold ServerManager.start, ServerManager.start_try,
      ServerManager.start_catch, ServerManager.stop,
      ServerManager.stop_onExit, ServerManager.stop_onTimeout,
      ServerManager.onClose, ServerManager.onError, ServerManager.onStderr,
      ServerManager.onStdout, ServerManager.spawnServer,
      ServerManager.extractServerIfNeeded, ServerManager.setStatus,
      ServerManager.emitError, ServerManager.emit,
      ServerManager.assignStatus, ServerManager.assignProcess,
      ServerManager.assignPort;
    unfold_tunnel; unfold_runtime; repeat db_step.
Qed.

(** Only [ServerManager.start] writes to the disk. *)
Lemma other_inputs_keep_fs m i w :
  notServerStart i → fs w = m → fs (step i w) = m.
Proof.
  intros Hi Hw. destruct i; try done; simpl;
    repeat match goal with
           | |- context [match ?x with _ => _ end] => destruct x
           end;
    try done;
    first [ apply (call_keeps (λ w, fs w = m)); [by keeps_go|done]
          | apply (dispatch_keeps (λ w, fs w = m)); [done|by keeps_go|done]
          | apply (exitListeners_keep (λ w, fs w = m));
            [intros; by keeps_go..|done|done] ].
Qed.

Lemma iter_fixed {A} (g : A → A) (x : A) k : g x = x → Nat.iter k g x = x.
Proof. intros H. induction k as [|k IH]; simpl; [done|]. by rewrite IH. Qed.

Lemma run_databaseFrom h n inputs w :
  databaseFrom h n w → databaseFrom h n (run inputs w).
Proof.
  revert w. induction inputs as [|i inputs IH]; intros w Hw; [done|].
  apply IH.
  destruct (database_ops h n)
    as (? & ? & ? & ? & ? & ? & ? & ? & ? & ? & ? & ? & ? & ? & ?).
  by apply (step_keeps (databaseFrom h n)).
Qed.

(** X8: a database file that exists is never deleted, and nothing but
    the database check of [start()] writes to it: after any run it holds
    what it held, or what the library's conversions to WAL mode have
    made of that; it holds exactly what it held when that is in WAL mode
    already (or is no plain file), and the whole file system is as it
    was after a run without [ServerManager.start]. *)
Theorem database_only_converted (inputs : list Input) (w : World) (n : Node) :
  fs w !! dbPath = Some n →
  (∃ n', fs (run inputs w) !! dbPath = Some n' ∧ converted (host w) n n')
  ∧ ((∀ c, n = File c → sqliteWal (host w) c = c) →
     fs (run inputs w) !! dbPath = Some n)
  ∧ (Forall notServerStart inputs → fs (run inputs w) = fs w).
Proof.
  intros Hn.
  destruct (run_databaseFrom (host w) n inputs w) as (_ & n' & Hn' & Hc).
  { split; [done|]. exists n. split; [done|by left]. }
  split_and!.
  - by exists n'.
  - intros Hfix. rewrite Hn'. f_equal.
    destruct Hc as [->|(c & k & -> & ->)]; [done|].
    by rewrite iter_fixed by by apply Hfix.
  - clear. intros Hall. revert w.
    induction Hall as [|i inputs Hi _ IH]; intros w; [done|].
    simpl. rewrite IH. by apply other_inputs_keep_fs.
Qed.

Lemma database_only_converted_witness :
  let w := launch Sample.linux
             {[ serverZipPath := Sample.bundle; dbPath := File 8 ]}
             (mkConfig None None None None) in
  let w' := run [ServerStart noFaults; ServerStop; ProcExit 0;
                 ServerStart noFaults] w in
  fs w !! dbPath = Some (File 8)
  ∧ fs w' !! dbPath = Some (File 9)
  ∧ ∃ n', fs w' !! dbPath = Some n' ∧ converted (host w) (File 8) n'.
Proof.
  intros w w'.
  assert (fs w !! dbPath = Some (File 8)) as H by (vm_compute; reflexivity).
  split; [exact H|]. split; [vm_compute; reflexivity|].
  exact (proj1 (database_only_converted _ w (File 8) H)).
Defined.



(** ** Starting the tunnel *)

(** [TunnelManager.start] past its guard. *)
Ltac tunnel_unguarded Hr Hs :=
  unfold TunnelManager.start, bind at 1, gets at 1;
  rewrite (bool_decide_eq_false_2 _ Hr), (bool_decide_eq_false_2 _ Hs);
  cbn [orb]; unfold TunnelManager.getCloudflaredPath.

(** X10: [TunnelManager.start] past its guard throws to its caller, with
    the status [error] and no child spawned, when the tunnel binary is
    missing (the error names it, and [starting] is never announced) and
    when [spawn] throws (the error is the one of [spawn], announced after
    [starting]). *)
Theorem tunnel_start_failure (w : World) (port : N) (f : Faults) :
  TunnelManager.status w ≠ TunnelStatus.running →
  TunnelManager.status w ≠ TunnelStatus.starting →
  (fs w !! cloudflaredPath (host w) = None →
     ∃ w', TunnelManager.start port f w
           = (Throw (newError (str "cloudflared executable not found")), w')
           ∧ TunnelManager.status w' = TunnelStatus.error
           ∧ procs w' = procs w
           ∧ TunnelManager.handle w' = TunnelManager.handle w
           ∧ statusEvents (drop (List.length (TunnelManager.emitted w))
                                (TunnelManager.emitted w'))
             = [TunnelStatus.error])
  ∧ (∀ e, is_Some (fs w !! cloudflaredPath (host w)) →
          spawnFault f = Some e →
          ∃ w', TunnelManager.start port f w = (Throw e, w')
                ∧ TunnelManager.status w' = TunnelStatus.error
                ∧ procs w' = procs w
                ∧ TunnelManager.handle w' = TunnelManager.handle w
                ∧ statusEvents (drop (List.length (TunnelManager.emitted w))
                                     (TunnelManager.emitted w'))
                  = [TunnelStatus.starting; TunnelStatus.error]
                ∧ Log (str "Failed to start tunnel: " ++ err_message e)
                  ∈ TunnelManager.emitted w').
Proof.
  intros Hr Hs. split.
  - intros Hc. tunnel_unguarded Hr Hs.
    unfold_tunnel; unfold_runtime; exec. rewrite Hc. exec.
    eexists. split; [reflexivity|]. cbn. split_and!; try done.
    by rewrite <- !app_assoc, drop_app_length.
  - intros e [x Hx] Hf. tunnel_unguarded Hr Hs.
    unfold_tunnel; unfold_runtime; exec.
    rewrite Hx. exec.
    destruct (tunnelToken _) as [tok|]; [destruct (truthy tok)|]; exec;
      rewrite Hf; exec;
      (eexists; split; [reflexivity|]); cbn; (split_and!; try done);
      rewrite <- ?app_assoc, ?drop_app_length; cbn; try done; set_solver.
Qed.

Lemma tunnel_start_failure_witness :
  ∃ w', TunnelManager.start 4000 noFaults Sample.firstLaunch
        = (Throw (newError (str "cloudflared executable not found")), w')
        ∧ TunnelManager.status w' = TunnelStatus.error
        ∧ procs w' = procs Sample.firstLaunch.
Proof.
  destruct (proj1 (tunnel_start_failure Sample.firstLaunch 4000 noFaults
                     ltac:(discriminate) ltac:(discriminate)))
    as (w' & Hr & Hs & Hp & _); [vm_compute; reflexivity|].
  exists w'. split; [exact Hr|]. split; [exact Hs|exact Hp].
Defined.

Lemma tunnel_start_ok (w : World) (port : N) (f : Faults) :
  TunnelManager.status w ≠ TunnelStatus.running →
  TunnelManager.status w ≠ TunnelStatus.starting →
  is_Some (fs w !! cloudflaredPath (host w)) →
  spawnFault f = None →
  ∃ w', TunnelManager.start port f w = (Ok tt, w')
        ∧ TunnelManager.status w' = TunnelStatus.starting
        ∧ TunnelManager.handle w' = Some (List.length (procs w))
        ∧ procs w'
          = procs w ++ [mkProc OwnTunnel (cloudflaredPath (host w))
                          (tunnelArgs (storedToken w) port) [] Alive [] []]
        ∧ TunnelManager.url w' = TunnelManager.url w.
Proof.
  intros Hr Hs [x Hx] Hf. tunnel_unguarded Hr Hs.
  unfold tunnelArgs, storedToken.
  unfold_tunnel; unfold_runtime; exec.
  rewrite Hx. exec.
  destruct (tunnelToken _) as [tok|]; [destruct (truthy tok)|]; exec;
    rewrite Hf; exec;
    (eexists; split; [reflexivity|]); cbn; (split_and!; done).
Qed.

(** X11: [TunnelManager.start] past its guard, with the binary on disk
    and [spawn] working, spawns one child: a named tunnel with the stored
    token when there is a non-empty one, a quick tunnel to
    [http://localhost:<port>] otherwise; the status is [starting] and the
    URL is untouched. *)
Theorem tunnel_start_spawns (w : World) (port : N) (f : Faults) :
  TunnelManager.status w ≠ TunnelStatus.running →
  TunnelManager.status w ≠ TunnelStatus.starting →
  is_Some (fs w !! cloudflaredPath (host w)) →
  spawnFault f = None →
  ∃ w', TunnelManager.start port f w = (Ok tt, w')
        ∧ TunnelManager.status w' = TunnelStatus.starting
        ∧ TunnelManager.handle w' = Some (List.length (procs w))
        ∧ procs w'
          = procs w ++ [mkProc OwnTunnel (cloudflaredPath (host w))
                          (tunnelArgs (storedToken w) port) [] Alive [] []]
        ∧ TunnelManager.url w' = TunnelManager.url w.
Proof. apply tunnel_start_ok. Qed.

Lemma tunnel_start_spawns_witness :
  ∃ w', TunnelManager.start 8080 noFaults Sample.serverUp = (Ok tt, w')
        ∧ args <$> procs w' !! 1%nat
          = Some [str "tunnel"; str "--url"; str "http://localhost:8080"].
Proof.
  destruct (tunnel_start_spawns Sample.serverUp 8080 noFaults)
    as (w' & Hr & _ & _ & Hp & _);
    [vm_compute; discriminate|vm_compute; discriminate
    |vm_compute; eexists; reflexivity|reflexivity|].
  exists w'. split; [exact Hr|]. rewrite Hp. vm_compute. reflexivity.
Defined.

(** ** What the tunnel's output does to status and URL *)

(** X12: once the tunnel holds a URL no output sets the status [error]
    and the URL stays; while it holds none, a line with [failed] or
    [error] that brings no URL sets the status [error], even if it
    announces a registered connection. *)
Theorem tunnel_error_line (w : World) (data : jsstring) :
  (∀ u, TunnelManager.url w = Some u → truthy u = true →
        ∃ w', TunnelManager.onData data w = (Ok tt, w')
              ∧ truthyOpt (TunnelManager.url w') = true
              ∧ (TunnelManager.status w' = TunnelManager.status w
                 ∨ TunnelManager.status w' = TunnelStatus.running))
  ∧ (truthyOpt (TunnelManager.url w) = false →
     quickTunnelMatch (trim data) = None → namedUrl w = None →
     includes (str "failed") (trim data)
     || includes (str "error") (trim data) = true →
     ∃ w', TunnelManager.onData data w = (Ok tt, w')
           ∧ TunnelManager.status w' = TunnelStatus.error
           ∧ TunnelManager.url w' = TunnelManager.url w).
Proof.
  split.
  - intros u Hu Ht. unfold TunnelManager.url in Hu.
    unfold_tunnel; unfold_runtime; exec.
    destruct (quickTunnelMatch (trim data)) as [u'|] eqn:Hm; exec.
    + pose proof (quickTunnelMatch_truthy _ _ Hm) as Hu'.
      destruct (includes (str "Connection") (trim data)
                && includes (str "registered") (trim data)); exec;
        rewrite ?Hu'; exec;
        try destruct (includes (str "trycloudflare") u'); exec;
        (destruct (includes (str "failed") (trim data)
                   || includes (str "error") (trim data)); exec;
         rewrite ?Hu'; exec);
        (eexists; split; [reflexivity|]); cbn; rewrite ?Hu';
        (split; [done|by right]).
    + destruct (includes (str "Connection") (trim data)
                && includes (str "registered") (trim data)); exec;
        [destruct (cfgTunnelUrl _) as [saved|]; exec;
         [destruct (truthy saved) eqn:Hts; exec;
          [destruct (includes (str "trycloudflare") saved); exec|]|]|];
        (destruct (includes (str "failed") (trim data)
                   || includes (str "error") (trim data)); exec;
         rewrite ?Hu, ?Hts; exec; rewrite ?Ht; exec);
        (eexists; split; [reflexivity|]); cbn; rewrite ?Hu, ?Hts; cbn;
        first [by (split; [|right]) | by (split; [|left])].
  - intros Hu Hm Hn He. unfold TunnelManager.url in *.
    unfold namedUrl, persistedUrl in Hn.
    unfold_tunnel; unfold_runtime; exec. rewrite Hm. exec.
    destruct (includes (str "Connection") (trim data)
              && includes (str "registered") (trim data)); exec.
    + cbn in Hn.
      destruct (cfgTunnelUrl _) as [saved|]; exec.
      * destruct (truthy saved && negb (includes (str "trycloudflare") saved));
          [done|]. exec. rewrite He. exec. rewrite Hu. exec.
        eexists; split; [reflexivity|]. done.
      * rewrite He. exec. rewrite Hu. exec.
        eexists; split; [reflexivity|]. done.
    + rewrite He. exec. rewrite Hu. exec.
      eexists; split; [reflexivity|]. done.
Qed.

Lemma tunnel_error_line_witness :
  let line := str "ERR failed to dial edge" in
  let link := str "INF |  https://abc-def-123.trycloudflare.com  |" in
  let w := run [ProcStderr 1 link] Sample.bothUp in
  (∃ w', TunnelManager.onData line Sample.bothUp = (Ok tt, w')
         ∧ TunnelManager.status w' = TunnelStatus.error)
  ∧ (∃ w', TunnelManager.onData line w = (Ok tt, w')
           ∧ (TunnelManager.status w' = TunnelManager.status w
              ∨ TunnelManager.status w' = TunnelStatus.running)).
Proof.
  intros line link w. split.
  - destruct (proj2 (tunnel_error_line Sample.bothUp line))
      as (w' & Hr & Hs & _); [vm_compute; reflexivity..|].
    exists w'. split; [exact Hr|exact Hs].
  - destruct (proj1 (tunnel_error_line w line)
                (str "https://abc-def-123.trycloudflare.com"))
      as (w' & Hr & _ & Hs); [vm_compute; reflexivity..|].
    exists w'. split; [exact Hr|exact Hs].
Defined.

(** X13: a line with [Connection] and [registered] (and no URL, no
    [failed], no [error]) sets the status [running]; the tunnel takes
    over the stored URL if that is non-empty and not a quick-tunnel URL,
    and keeps its own otherwise; the store is not written. *)
Theorem named_tunnel_registered (w : World) (data : jsstring) :
  includes (str "Connection") (trim data) = true →
  includes (str "registered") (trim data) = true →
  quickTunnelMatch (trim data) = None →
  includes (str "failed") (trim data) || includes (str "error") (trim data)
  = false →
  ∃ w', TunnelManager.onData data w = (Ok tt, w')
        ∧ TunnelManager.status w' = TunnelStatus.running
        ∧ TunnelManager.url w'
          = match namedUrl w with
            | Some s => Some s
            | None => TunnelManager.url w
            end
        ∧ config w' = config w.
Proof.
  intros Hc Hg Hm He. unfold namedUrl, persistedUrl, TunnelManager.url.
  unfold_tunnel; unfold_runtime; exec. rewrite Hm, Hc, Hg. exec.
  destruct (cfgTunnelUrl _) as [saved|]; exec;
    [destruct (truthy saved) eqn:Hts; exec;
     [destruct (includes (str "trycloudflare") saved); exec|]|];
    rewrite He; exec; (eexists; split; [reflexivity|]); done.
Qed.

Lemma named_tunnel_registered_witness :
  let cfg := mkConfig None None None
               (Some (mkTunneling true (str "cloudflare")
                        (Some (str "eyJhIjoi"))
                        (Some (str "https://wa.example.org")))) in
  let w := run [ServerStart noFaults; TunnelStart 4000 noFaults]
               (launch Sample.linux {[ serverZipPath := Sample.bundle ]} cfg) in
  let line := str "INF Connection 7f3a registered connIndex=0" in
  ∃ w', TunnelManager.onData line w = (Ok tt, w')
        ∧ TunnelManager.status w' = TunnelStatus.running
        ∧ TunnelManager.url w' = Some (str "https://wa.example.org").
Proof.
  intros cfg w line.
  destruct (named_tunnel_registered w line) as (w' & Hr & Hs & Hu & _);
    [vm_compute; reflexivity..|].
  exists w'. split; [exact Hr|]. split; [exact Hs|].
  rewrite Hu. vm_compute. reflexivity.
Defined.

(** ** The IPC handlers *)

(** X14: [server:set-port] accepts exactly the ports 1 to 65535: an
    accepted port is what [server:get-port] answers afterwards, and the
    managers, their children and the disk are untouched; any other number
    is refused with [Invalid port number] and nothing changes. *)
Theorem set_port_round_trip (w : World) (port : Z) :
  ((1 ≤ port ≤ 65535)%Z →
     ∃ w', Ipc.server_set_port port w = (Ok true, w')
           ∧ Ipc.server_get_port w' = (Ok (Z.to_N port), w')
           ∧ server w' = server w ∧ tunnel w' = tunnel w
           ∧ procs w' = procs w ∧ fs w' = fs w)
  ∧ (¬ (1 ≤ port ≤ 65535)%Z →
       Ipc.server_set_port port w
       = (Throw (newError (str "Invalid port number")), w)).
Proof.
  unfold Ipc.server_set_port, Ipc.server_get_port. split; intros H.
  - assert (((port <? 1) || (65535 <? port))%Z = false) as ->.
    { apply orb_false_iff. split; apply Z.ltb_ge; lia. }
    unfold logger. exec. eexists. split; [reflexivity|]. cbn.
    split_and!; try done. f_equal. f_equal. unfold orNum.
    destruct (Z.to_N port =? 0) eqn:E; [|done].
    apply N.eqb_eq in E. lia.
  - assert (((port <? 1) || (65535 <? port))%Z = true) as ->; [|done].
    apply orb_true_iff. rewrite !Z.ltb_lt. lia.
Qed.

Lemma set_port_round_trip_witness :
  (∃ w', Ipc.server_set_port 8080 Sample.serverUp = (Ok true, w')
         ∧ Ipc.server_get_port w' = (Ok 8080, w')
         ∧ server w' = server Sample.serverUp)
  ∧ Ipc.server_set_port 0 Sample.serverUp
    = (Throw (newError (str "Invalid port number")), Sample.serverUp)
  ∧ Ipc.server_set_port 65536 Sample.serverUp
    = (Throw (newError (str "Invalid port number")), Sample.serverUp).
Proof.
  split; [|split].
  - destruct (proj1 (set_port_round_trip Sample.serverUp 8080))
      as (w' & H1 & H2 & H3 & _); [lia|].
    exists w'. split; [exact H1|]. split; [exact H2|exact H3].
  - apply (proj2 (set_port_round_trip Sample.serverUp 0)). lia.
  - apply (proj2 (set_port_round_trip Sample.serverUp 65536)). lia.
Defined.

Lemma set_port_ok (w w1 : World) (p : Z) :
  Ipc.server_set_port p w = (Ok true, w1) →
  (1 ≤ p ≤ 65535)%Z
  ∧ w1 = withLogfile
           (λ lf, lf ++ [(LInfo, str "Server port changed to "
                                 ++ numToString (Z.to_N p), None)])
           (withConfig (set_serverPort (Z.to_N p)) w).
Proof.
  unfold Ipc.server_set_port.
  destruct ((p <? 1) || (65535 <? p))%Z eqn:Hp; [done|].
  apply orb_false_iff in Hp as [H1 H2].
  apply Z.ltb_ge in H1. apply Z.ltb_ge in H2.
  intros H. split; [lia|]. by injection H as <-.
Qed.

(** X15: a port accepted by [server:set-port] leaves the port of the
    manager as it is, and is the port of the next [server:start] that
    succeeds: the manager holds it and the child gets it as [PORT]. *)
Theorem set_port_applies_on_next_start (w w1 w2 : World) (p : Z)
    (f : Faults) :
  reachable w →
  ServerManager.status w ≠ running → ServerManager.status w ≠ starting →
  Ipc.server_set_port p w = (Ok true, w1) →
  Ipc.server_start f w1 = (Ok tt, w2) →
  port (server w1) = port (server w)
  ∧ port (server w2) = Z.to_N p
  ∧ env <$> last (procs w2)
    = Some (serverEnv (Z.to_N p) (get_chromePath (config w))).
Proof.
  intros Hw%reachable_noErrorListener Hr Hs Hset Hstart.
  destruct (set_port_ok _ _ _ Hset) as [Hp ->].
  split; [done|].
  set (w1 := withLogfile _ _) in *.
  assert (noErrorListener w1) as Hw1 by exact Hw.
  assert (ServerManager.status w1 ≠ running) as Hr1 by exact Hr.
  assert (ServerManager.status w1 ≠ starting) as Hs1 by exact Hs.
  destruct (start_ok_spawns w1 w2 f Hw1 Hr1 Hs1 Hstart)
    as (Hprocs & _ & _ & Hport).
  assert (orNum (get_serverPort (config w1)) 4000 = Z.to_N p) as E.
  { subst w1. cbn. unfold orNum. destruct (Z.to_N p =? 0) eqn:E; [|done].
    apply N.eqb_eq in E. lia. }
  rewrite E in Hprocs, Hport. split; [done|].
  by rewrite Hprocs, last_snoc.
Qed.

Lemma set_port_applies_on_next_start_witness :
  ∃ w1 w2,
    Ipc.server_set_port 8080 Sample.firstLaunch = (Ok true, w1)
    ∧ Ipc.server_start noFaults w1 = (Ok tt, w2)
    ∧ port (server w2) = 8080.
Proof.
  exists (Ipc.server_set_port 8080 Sample.firstLaunch).2.
  exists (Ipc.server_start noFaults
            (Ipc.server_set_port 8080 Sample.firstLaunch).2).2.
  assert (Ipc.server_set_port 8080 Sample.firstLaunch
          = (Ok true, (Ipc.server_set_port 8080 Sample.firstLaunch).2)) as H1
    by reflexivity.
  assert (Ipc.server_start noFaults
            (Ipc.server_set_port 8080 Sample.firstLaunch).2
          = (Ok tt, (Ipc.server_start noFaults
                       (Ipc.server_set_port 8080 Sample.firstLaunch).2).2))
    as H2.
  { assert ((Ipc.server_start noFaults
               (Ipc.server_set_port 8080 Sample.firstLaunch).2).1 = Ok tt)
      as E by (vm_compute; reflexivity).
    rewrite <- E. apply surjective_pairing. }
  split; [exact H1|]. split; [exact H2|].
  destruct (set_port_applies_on_next_start Sample.firstLaunch _ _ 8080
              noFaults (reachable_launch _ _ _)
              ltac:(discriminate) ltac:(discriminate) H1 H2)
    as (_ & Hp & _).
  exact Hp.
Defined.

Lemma set_token_ok (w : World) (tok : jsstring) :
  ∃ w', Ipc.tunnel_set_token tok w = (Ok true, w')
        ∧ Ipc.tunnel_get_token w' = (Ok tok, w')
        ∧ storedToken w' = Some tok
        ∧ persistedUrl w' = persistedUrl w
        ∧ get_serverPort (config w') = get_serverPort (config w)
        ∧ server w' = server w ∧ tunnel w' = tunnel w
        ∧ procs w' = procs w ∧ fs w' = fs w.
Proof.
  unfold Ipc.tunnel_set_token, Ipc.tunnel_get_token, storedToken,
    persistedUrl. exec.
  eexists. split; [reflexivity|]. cbn. split_and!; try done.
  by destruct tok.
Qed.

(** X16: [tunnel:get-token] after [tunnel:set-token] answers the token
    that was set; setting it keeps the stored tunnel URL and the stored
    port and touches neither the managers nor the disk. *)
Theorem token_round_trip (w : World) (tok : jsstring) :
  ∃ w', Ipc.tunnel_set_token tok w = (Ok true, w')
        ∧ Ipc.tunnel_get_token w' = (Ok tok, w')
        ∧ storedToken w' = Some tok
        ∧ persistedUrl w' = persistedUrl w
        ∧ get_serverPort (config w') = get_serverPort (config w)
        ∧ server w' = server w ∧ tunnel w' = tunnel w
        ∧ procs w' = procs w ∧ fs w' = fs w.
Proof. apply set_token_ok. Qed.

(** X17: after [tunnel:set-token], [tunnel:start] runs a named tunnel
    with that token when it is non-empty, and a quick tunnel to the
    stored port (4000 by default) when it is empty. *)
Theorem token_selects_tunnel (w w1 : World) (tok : jsstring) (f : Faults) :
  Ipc.tunnel_set_token tok w = (Ok true, w1) →
  TunnelManager.status w ≠ TunnelStatus.running →
  TunnelManager.status w ≠ TunnelStatus.starting →
  is_Some (fs w !! cloudflaredPath (host w)) →
  spawnFault f = None →
  ∃ w2, Ipc.tunnel_start f w1 = (Ok tt, w2)
        ∧ args <$> last (procs w2)
          = Some (if truthy tok
                  then [str "tunnel"; str "run"; str "--token"; tok]
                  else [str "tunnel"; str "--url";
                        str "http://localhost:"
                        ++ numToString (orNum (get_serverPort (config w))
                                              4000)]).
Proof.
  intros Hset Hr Hs Hc Hf.
  destruct (set_token_ok w tok)
    as (w' & Hset' & _ & Htok & _ & Hport & _ & Ht & _ & Hfs).
  rewrite Hset in Hset'. injection Hset' as ->.
  assert (host w' = host w) as Hh.
  { revert Hset. unfold Ipc.tunnel_set_token. exec. by intros [= <-]. }
  unfold Ipc.tunnel_start, bind at 1, gets at 1.
  destruct (tunnel_start_ok w' (orNum (get_serverPort (config w')) 4000) f)
    as (w2 & Hrun & _ & _ & Hp & _).
  { unfold TunnelManager.status. by rewrite Ht. }
  { unfold TunnelManager.status. by rewrite Ht. }
  { by rewrite Hfs, Hh. }
  { done. }
  exists w2. split; [exact Hrun|].
  rewrite Hp, last_snoc, Htok, Hport. cbn. unfold tunnelArgs.
  by destruct (truthy tok).
Qed.

Lemma token_selects_tunnel_witness :
  let tok := str "eyJhIjoi" in
  ∃ w1 w2, Ipc.tunnel_set_token tok Sample.serverUp = (Ok true, w1)
           ∧ Ipc.tunnel_start noFaults w1 = (Ok tt, w2)
           ∧ args <$> last (procs w2)
             = Some [str "tunnel"; str "run"; str "--token"; tok].
Proof.
  intros tok.
  exists (Ipc.tunnel_set_token tok Sample.serverUp).2.
  assert (Ipc.tunnel_set_token tok Sample.serverUp
          = (Ok true, (Ipc.tunnel_set_token tok Sample.serverUp).2)) as H1
    by reflexivity.
  destruct (token_selects_tunnel Sample.serverUp _ tok noFaults H1)
    as (w2 & Hr & Ha);
    [vm_compute; discriminate|vm_compute; discriminate
    |vm_compute; eexists; reflexivity|reflexivity|].
  exists w2. split; [exact H1|]. split; [exact Hr|exact Ha].
Defined.

(** ** Registration of the IPC handlers *)

Lemma setup_again (m : IpcMain) :
  handlersRegistered m = true →
  ∃ m', setupIpcHandlers m = Some m'
        ∧ handlersRegistered m' = true
        ∧ handled m' = handled m ∧ serverOn m' = serverOn m
        ∧ tunnelOn m' = tunnelOn m.
Proof. intros H. unfold setupIpcHandlers. rewrite H. by eexists. Qed.

Lemma setupTimes_again n (m : IpcMain) :
  handlersRegistered m = true →
  ∃ m', setupTimes n m = Some m'
        ∧ handlersRegistered m' = true
        ∧ handled m' = handled m ∧ serverOn m' = serverOn m
        ∧ tunnelOn m' = tunnelOn m.
Proof.
  revert m. induction n as [|n IH]; intros m H; cbn [setupTimes];
    [by eexists|].
  destruct (setup_again m H) as (m1 & -> & H1 & Hh & Hs & Ht).
  cbn [mbind option_bind].
  destruct (IH m1 H1) as (m' & -> & ? & ? & ? & ?).
  exists m'. split_and!; congruence.
Qed.

Lemma setup_first :
  ∃ m1, setupIpcHandlers newIpcMain = Some m1
        ∧ handlersRegistered m1 = true
        ∧ handled m1
          = omap (λ r, match r with Handle c => Some c | _ => None end)
                 registrations
        ∧ serverOn m1 = [("log", "server:log");
                         ("status-change", "server:status")]%string
        ∧ tunnelOn m1 = [("log", "server:log");
                         ("status-change", "tunnel:status");
                         ("url-change", "tunnel:url")]%string.
Proof.
  eexists. split; [vm_compute; reflexivity|].
  split_and!; vm_compute; reflexivity.
Qed.

(** X18: however often [setupIpcHandlers] is called, it never throws,
    every channel has one handler, every channel the preload script
    invokes is among them, the server manager has a listener for [log]
    and [status-change] and the tunnel manager for [log],
    [status-change] and [url-change] (none for [error]), and every
    channel the preload script listens to is broadcast on. *)
Theorem handlers_registered_once (n : nat) :
  ∃ m, setupTimes (S n) newIpcMain = Some m
       ∧ NoDup (handled m)
       ∧ (∀ c, c ∈ Preload.invoked → c ∈ handled m)
       ∧ serverOn m = [("log", "server:log");
                       ("status-change", "server:status")]%string
       ∧ tunnelOn m = [("log", "server:log");
                       ("status-change", "tunnel:status");
                       ("url-change", "tunnel:url")]%string
       ∧ (∀ c, c ∈ Preload.listened →
               c ∈ (serverOn m).*2 ∨ c ∈ (tunnelOn m).*2).
Proof.
  destruct setup_first as (m1 & E & H1 & Hh & Hs & Ht).
  destruct (setupTimes_again n m1 H1) as (m & En & _ & Hh' & Hs' & Ht').
  exists m. cbn [setupTimes]. rewrite E. cbn [mbind option_bind].
  rewrite Hh', Hs', Ht', Hh, Hs, Ht. split; [exact En|].
  split_and!; try reflexivity.
  - apply (bool_decide_unpack _). vm_compute. exact I.
  - apply Forall_forall. apply (bool_decide_unpack _). vm_compute. exact I.
  - apply Forall_forall. apply (bool_decide_unpack _). vm_compute. exact I.
Qed.

(** ** Quitting *)

Section Quit.
Implicit Types (w : World) (o : Owner) (p k : nat) (a : App).

Lemma exitListener_aside o p k w0 :
  keeps (aside o p w0) (exitListener o k).
Proof. unfold aside. destruct o; cbn [exitListener]; keeps_go. Qed.

Lemma exitListeners_aside o p ks w0 w :
  aside o p w0 w →
  aside o p w0 (foldl (λ acc k, dispatch (exitListener o k) acc) w ks).
Proof.
  revert w. induction ks as [|k ks IH]; intros w Hw; simpl; [done|].
  apply IH. apply dispatch_keeps; [|apply exitListener_aside|done].
  intros g v H. destruct o; exact H.
Qed.

Lemma stop_keeps_other o w0 :
  keeps (λ w, match o with
              | OwnServer => tunnel w = tunnel w0
              | OwnTunnel => server w = server w0
              end) (stopOf o).
Proof. destruct o; cbn [stopOf]; keeps_go. Qed.

Lemma timeout_keeps_other o k w0 :
  keeps (λ w, match o with
              | OwnServer => tunnel w = tunnel w0
              | OwnTunnel => server w = server w0
              end)
        (match o with
         | OwnServer => ServerManager.stop_onTimeout k
         | OwnTunnel => TunnelManager.stop_onTimeout k
         end).
Proof. destruct o; keeps_go. Qed.

Lemma stop_then_ends o w p c graceful :
  handleOf o w = Some p → procs w !! p = Some c → owner c = o →
  phase c = Alive →
  let k := List.length (stops w) in
  ∃ w1, stopOf o w = (Ok (Awaiting k), w1)
        ∧ isStopping o w1
        ∧ aside o p w w1
        ∧ signals <$> procs w1 !! p = Some (signals c ++ [SIGTERM])
        ∧ (let w2 := step (stopEnds graceful p k) w1 in
           isIdle o w2 ∧ handleOf o w2 = None ∧ aside o p w w2
           ∧ settled w2 k = true
           ∧ List.length (stops w2) = S k).
Proof.
  intros Hh Hp Ho Hph k.
  destruct (stop_live o w p Hh) as (w1 & Hstop & Hst & Hh1 & Hstops & Hprocs).
  exists w1.
  assert (procs w1 !! p
          = Some (mkProc o (command c) (args c) (env c) Alive
                    (signals c ++ [SIGTERM]) (exitListeners c ++ [k])))
    as Hp1.
  { rewrite Hprocs, !list_lookup_alter_eq, Hp. simpl. by rewrite Ho, Hph. }
  assert (stops w1 !! k = Some (mkStopCall o Pending 5000 0)) as Hk1.
  { rewrite Hstops. by apply list_lookup_middle. }
  assert (List.length (stops w1) = S k) as Hlen1.
  { rewrite Hstops, length_app. simpl. lia. }
  assert (aside o p w w1) as Ha1.
  { split_and!.
    - pose proof (keeps_snd _ (stopOf o) w (stop_keeps_other o w)) as K.
      rewrite Hstop in K. apply K. by destruct o.
    - by rewrite Hprocs, !length_alter.
    - intros p' Hne. by rewrite Hprocs, !list_lookup_alter_ne.  }
  split_and!; try done.
  { by rewrite Hp1. }
  destruct Ha1 as (A1 & A2 & A3).
  cbv zeta. destruct graceful; unfold stopEnds; set (w2 := step _ w1).
  - (* the child exits *)
    set (w1' := call (setPhase Exited p) w1).
    set (w2' := foldl (λ acc k', dispatch (exitListener o k') acc)
                      w1' (exitListeners c)).
    assert (w2 = dispatch (exitListener o k) w2') as ->.
    { subst w2 w2' w1'. unfold step. rewrite Hp1.
      cbn [phase owner exitListeners]. by rewrite foldl_app. }
    assert (aside o p w w1') as Ha1'.
    { subst w1'. unfold call, setPhase, updProc, modify. cbn [snd].
      split_and!.
      - by destruct o.
      - cbn [withProcs procs]. by rewrite length_alter.
      - intros p' Hne. cbn [withProcs procs].
        rewrite list_lookup_alter_ne by done. by apply A3. }
    assert (aside o p w w2') as Ha2' by (by apply exitListeners_aside).
    assert (notFired k w2') as Hnf.
    { apply exitListeners_notFired. exists (mkStopCall o Pending 5000 0).
      split; [|done]. subst w1'. unfold call, setPhase, updProc, modify.
      cbn [snd withProcs stops]. done. }
    assert (List.length (stops w2') = S k) as Hlen.
    { assert (∀ ks v, List.length (stops v) = S k →
                List.length (stops (foldl (λ acc k', dispatch (exitListener o k') acc) v ks))
                = S k) as G.
      { induction ks as [|k0 ks IH]; intros v Hv; simpl; [done|].
        apply IH. destruct (exitListener_runs o k0 v) as (_ & _ & _ & ->).
        by rewrite !length_alter. }
      apply G. subst w1'. unfold call, setPhase, updProc, modify.
      cbn [snd withProcs stops]. done. }
    destruct (exitListener_runs o k w2') as (Hidle & Hnone & _ & Hst2).
    split_and!; try done.
    + pose proof (exitListener_aside o p k w w2' Ha2') as K.
      unfold dispatch. destruct (exitListener o k w2') as [[[]|e] v]; [done|].
      destruct o; exact K.
    + destruct Hnf as (s & Hs & _). unfold settled.
      by rewrite Hst2, !list_lookup_alter_eq, Hs.
    + by rewrite Hst2, !length_alter.
  - (* the timer fires *)
    set (w1' := withStops (alter (λ s, mkStopCall (stop_owner s) Fired
                                         (delay s) (resolved s)) k) w1).
    assert (w2 = dispatch (match o with
                           | OwnServer => ServerManager.stop_onTimeout k
                           | OwnTunnel => TunnelManager.stop_onTimeout k
                           end) w1') as ->.
    { subst w2 w1'. unfold step. rewrite Hk1.
      cbn [timer stop_owner]. by destruct o. }
    assert (handleOf o w1' = Some p) as Hh2.
    { destruct o; unfold handleOf, ServerManager.handle,
        TunnelManager.handle in *; subst w1'; cbn [withStops server tunnel];
        congruence. }
    pose proof (onTimeout_runs o k p w1' Hh2) as (Hidle & Hnone & Hpr & Hstp).
    assert (stops w1' !! k = Some (mkStopCall o Fired 5000 0)) as Hs3.
    { subst w1'. cbn [withStops stops].
      by rewrite list_lookup_alter_eq, Hk1. }
    unfold aside. split_and!; try done.
    + pose proof (timeout_keeps_other o k w w1') as K.
      unfold dispatch.
      destruct (match o with
                | OwnServer => ServerManager.stop_onTimeout k
                | OwnTunnel => TunnelManager.stop_onTimeout k
                end w1') as [[[]|e] v]; destruct o; apply K; exact A1.
    + rewrite Hpr. rewrite length_alter. done.
    + intros p' Hne. rewrite Hpr, list_lookup_alter_ne by done. by apply A3.
    + unfold settled. by rewrite Hstp, list_lookup_alter_eq, Hs3.
    + rewrite Hstp, length_alter. subst w1'. cbn [withStops stops].
      by rewrite length_alter.
Qed.

Lemma settle_one a k s :
  suspended a = [(k, s)] → settled (world a) k = true →
  settle a = resume s (mkApp (world a) (isQuitting a) [] (prevented a)
                             (quitCalls a)).
Proof.
  intros Hs Hk. unfold settle. rewrite Hs.
  rewrite (filter_cons_True (λ ks, settled (world a) ks.1 = true))
    by exact Hk.
  rewrite (filter_cons_False (λ ks, settled (world a) ks.1 ≠ true))
    by (intros H; by apply H).
  by rewrite !filter_nil.
Qed.
End Quit.





(** ** The license *)

Section License.
Variable sha256hex : jsstring → jsstring.
Implicit Types (o : Answers) (s : LicenseWorld) (key : jsstring).

Local Abbreviation validateLicense := (LicenseManager.validateLicense sha256hex).
Local Abbreviation checkSavedLicense := (LicenseManager.checkSavedLicense sha256hex).

(** X20: when the time server answers and the clock of the machine is
    more than five minutes off, [validateLicense] answers that the system
    time is incorrect, sends nothing to the license server and leaves the
    stored key alone. *)
Theorem license_needs_clock o key s date :
  ntp o = NtpTime date →
  (300000 < Z.abs (systemTime o - date))%Z →
  ∃ s', validateLicense o key s
        = (mkLicenseStatus false
             (Some (str "System time is incorrect. Please sync your clock."))
             None None, s')
        ∧ licenseKey s' = licenseKey s ∧ posted s' = posted s.
Proof.
  intros Hn Hd. unfold LicenseManager.validateLicense,
    LicenseManager.checkTime. rewrite Hn. cbv zeta.
  change (5 * 60 * 1000)%Z with 300000%Z.
  rewrite (proj2 (Z.ltb_lt _ _) Hd). by eexists.
Qed.

Lemma validateLicense_stores o key s :
  let r := validateLicense o key s in
  licenseKey r.2 = (if valid r.1 then Some key else licenseKey s)
  ∧ (valid r.1 = true →
     ∃ h status,
       hardware o = Ok h
       ∧ response o = FetchResponds true status (Ok r.1)
       ∧ posted r.2
         = posted s ++ [(key, sha256hex (LicenseManager.rawId h))]).
Proof.
  unfold LicenseManager.validateLicense, LicenseManager.checkTime,
    LicenseManager.getHWID, LicenseManager.validate_catch.
  destruct (ntp o) as [e|date]; cbv zeta;
    [|destruct (_ <? _)%Z]; cbn [negb];
    try (split; [done|by intros ?]).
  all: destruct (hardware o) as [h|e']; cbn;
    try (split; [done|by intros ?]).
  all: destruct (response o) as [e2|[] status [data|e3]]; cbn;
    try (split; [done|by intros ?]).
  all: destruct (valid data) eqn:Hv; cbn; rewrite ?Hv;
    (split; [done|intros ?; try done; by eexists _, _]).
Qed.

(** X21: [validateLicense] stores the key exactly when the status it
    returns is valid, which is the case only if the license server
    answered the request for this key and the fingerprint of this machine
    with that status. *)
Theorem license_key_stored_iff_valid o key s :
  let r := validateLicense o key s in
  licenseKey r.2 = (if valid r.1 then Some key else licenseKey s)
  ∧ (valid r.1 = true →
     ∃ h status,
       hardware o = Ok h
       ∧ response o = FetchResponds true status (Ok r.1)
       ∧ posted r.2
         = posted s ++ [(key, sha256hex (LicenseManager.rawId h))]).
Proof. apply validateLicense_stores. Qed.

(** X22: after a validation that returned a valid status for a
    non-empty key, [checkSavedLicense] validates that key again; after
    [license:clear] it answers [No license key found.] and has sent
    nothing. *)
Theorem saved_license_is_revalidated o o' key s :
  let r := validateLicense o key s in
  (valid r.1 = true → truthy key = true →
     checkSavedLicense o' r.2 = validateLicense o' key r.2)
  ∧ checkSavedLicense o' (license_clear r.2)
    = (mkLicenseStatus false (Some (str "No license key found.")) None None,
       license_clear r.2).
Proof.
  intros r. split; [|done]. intros Hv Hk.
  destruct (validateLicense_stores o key s) as [Hs _].
  fold r in Hs. rewrite Hv in Hs.
  unfold LicenseManager.checkSavedLicense. by rewrite Hs, Hk.
Qed.
(** X25: when the time server cannot be reached, [validateLicense]
    warns and goes on as if the clock were exact: same status, same
    stored key and same request as with a time server that agrees with
    the clock of the machine. *)
Theorem license_without_time_server o key s e :
  ntp o = NtpError e →
  let exact := mkAnswers (NtpTime (systemTime o)) (systemTime o) (hardware o)
                         (response o) in
  let r := validateLicense o key s in
  let r' := validateLicense exact key s in
  r.1 = r'.1 ∧ licenseKey r.2 = licenseKey r'.2 ∧ posted r.2 = posted r'.2
  ∧ (LWarn, str "NTP check failed, falling back to system time", Some e)
    ∈ licenseLog r.2.
Proof.
  intros Hn. cbv zeta.
  unfold LicenseManager.validateLicense, LicenseManager.checkTime,
    LicenseManager.getHWID, LicenseManager.validate_catch.
  rewrite Hn. cbn [ntp systemTime hardware response]. cbv zeta.
  rewrite Z.sub_diag. change (5 * 60 * 1000 <? Z.abs 0)%Z with false.
  cbn [negb].
  destruct (hardware o) as [h|e']; cbn;
    [destruct (response o) as [e2|[] status [data|e3]]; cbn;
     try destruct (valid data); cbn|];
    (split_and!; try done); set_solver.
Qed.

End License.

Lemma license_needs_clock_witness :
  ∃ s', LicenseManager.validateLicense (λ x, x) (sampleAnswers 300001)
          (str "WZ-1234-5678") (mkLicenseWorld None [] [])
        = (mkLicenseStatus false
             (Some (str "System time is incorrect. Please sync your clock."))
             None None, s')
        ∧ licenseKey s' = None ∧ posted s' = [].
Proof.
  apply (license_needs_clock (λ x, x) (sampleAnswers 300001)
           (str "WZ-1234-5678") (mkLicenseWorld None [] []) 1700000000000).
  - reflexivity.
  - vm_compute. reflexivity.
Defined.

Lemma saved_license_is_revalidated_witness :
  let o := sampleAnswers 299999 in
  let key := str "WZ-1234-5678" in
  let r := LicenseManager.validateLicense (λ x, x) o key
             (mkLicenseWorld None [] []) in
  valid r.1 = true
  ∧ LicenseManager.checkSavedLicense (λ x, x) o r.2
    = LicenseManager.validateLicense (λ x, x) o key r.2.
Proof.
  intros o key r.
  assert (valid r.1 = true) as H by (vm_compute; reflexivity).
  split; [exact H|].
  apply (proj1 (saved_license_is_revalidated (λ x, x) o o key
                  (mkLicenseWorld None [] [])) H).
  reflexivity.
Defined.

Lemma license_without_time_server_witness :
  let o := mkAnswers (NtpError (newError (str "Timeout waiting for NTP")))
                     1700000000000 (hardware (sampleAnswers 0))
                     (response (sampleAnswers 0)) in
  let r := LicenseManager.validateLicense (λ x, x) o (str "WZ-1234-5678")
             (mkLicenseWorld None [] []) in
  valid r.1 = true ∧ licenseKey r.2 = Some (str "WZ-1234-5678").
Proof.
  intros o r.
  destruct (license_without_time_server (λ x, x) o (str "WZ-1234-5678")
              (mkLicenseWorld None [] [])
              (newError (str "Timeout waiting for NTP")) eq_refl)
    as (H1 & H2 & _).
  fold r in H1, H2. split; [by rewrite H1|by rewrite H2].
Defined.

(** ** The dashboard *)

Lemma updateServerStatus_cases (status : jsstring) (d : Dashboard) :
  let d' := updateServerStatus status d in
  (status = str "running"
   ∧ d' = mkDashboard (toUpperCase status) ["dot"; "running"]%string
                      "none" "inline-block" "inline-block" false)
  ∨ (status ∈ [str "idle"; str "error"; str "stopped"]
     ∧ d' = mkDashboard (toUpperCase status) ["dot"; "stopped"]%string
                        "inline-block" "none" "none" true)
  ∨ ((status ≠ str "running")
     ∧ (status ∉ [str "idle"; str "error"; str "stopped"])
     ∧ d' = mkDashboard (toUpperCase status) ["dot"; "loading"]%string
                        "none" "inline-block" "none" true).
Proof.
  cbv zeta. unfold updateServerStatus. cbv zeta.
  destruct (decide (status = str "running")) as [Hr|Hr].
  { left. by rewrite (bool_decide_eq_true_2 _ Hr). }
  rewrite (bool_decide_eq_false_2 _ Hr). right.
  destruct (decide (status = str "idle")) as [Hi|Hi].
  { left. rewrite (bool_decide_eq_true_2 _ Hi). split; [|done].
    rewrite !elem_of_cons. tauto. }
  rewrite (bool_decide_eq_false_2 _ Hi).
  destruct (decide (status = str "error")) as [He|He].
  { left. rewrite (bool_decide_eq_true_2 _ He). split; [|done].
    rewrite !elem_of_cons. tauto. }
  rewrite (bool_decide_eq_false_2 _ He).
  destruct (decide (status = str "stopped")) as [Hs|Hs].
  { left. rewrite (bool_decide_eq_true_2 _ Hs). split; [|done].
    rewrite !elem_of_cons. tauto. }
  rewrite (bool_decide_eq_false_2 _ Hs). right.
  split; [done|]. split; [|done].
  rewrite !elem_of_cons, elem_of_nil. tauto.
Qed.

(** X23: [updateServerStatus] shows either Start or Stop, never both
    and never neither: Start for [idle], [error] and [stopped], Stop for
    every other status; Restart is shown and Open is enabled for
    [running] only; the result depends on the status alone. *)
Theorem dashboard_buttons (status : jsstring) (d : Dashboard) :
  let d' := updateServerStatus status d in
  (shown (stopDisplay d') ↔ ¬ shown (startDisplay d'))
  ∧ (shown (startDisplay d')
     ↔ status ∈ [str "idle"; str "error"; str "stopped"])
  ∧ (shown (restartDisplay d') ↔ status = str "running")
  ∧ (openAppDisabled d' = false ↔ status = str "running")
  ∧ (∀ s, status = name s →
          (shown (startDisplay d') ↔ s = idle ∨ s = error)
          ∧ statusText d' = toUpperCase (name s))
  ∧ ∀ d2, updateServerStatus status d2 = d'.
Proof.
  intros d'.
  assert (∀ d2, updateServerStatus status d2 = d') as Hind by done.
  assert (shown "inline-block") as Hshown by done.
  assert (¬ shown "none") as Hnone by (by intros H).
  assert (str "running" ∉ [str "idle"; str "error"; str "stopped"]) as Hrun.
  { rewrite !elem_of_cons, elem_of_nil. by intros [?|[?|[?|?]]]. }
  destruct (updateServerStatus_cases status d)
    as [[Hc Hd]|[[Hc Hd]|(Hc1 & Hc2 & Hd)]];
    fold d' in Hd; clearbody d'; subst d';
    cbn [startDisplay stopDisplay restartDisplay openAppDisabled statusText]
      in *.
  - subst status. split_and!; try tauto.
    intros s Hs. split; [|by rewrite Hs].
    destruct s; try done. split; [tauto|]. by intros [?|?].
  - split_and!; try tauto.
    + split; [tauto|]. intros ->. tauto.
    + split; [done|]. intros ->. tauto.
    + intros s Hs. split; [|by rewrite Hs]. subst status.
      split; [intros _|tauto].
      destruct s; auto; exfalso; revert Hc;
        rewrite !elem_of_cons, elem_of_nil; by intros [?|[?|[?|?]]].
  - split_and!; try tauto.
    + split; [done|]. by intros ?.
    + intros s Hs. split; [|by rewrite Hs]. subst status.
      split; [tauto|].
      intros [-> | ->]; exfalso; apply Hc2; rewrite !elem_of_cons; auto.
Qed.
